(** * SPMC broadcast ring and market-data hub: a shallow embedding

    Sources embedded here:
    - [src/spmc.hpp] and [src/src/spmc.hpp]: [SPMCQueue], its [Reader],
      [getReader], [write] (producer-function form and copy form);
    - [src/msgbus/market_data.hpp]: the [MarketData] variant and [DataType];
    - [src/msgbus/market_data_hub.hpp]: [MarketDataHub] ([add], [subscribe],
      [unsubscribe], [stop_all], [subscriber_count], [consumer_thread]);
    - [src/msgbus/python_bindings.cpp]: [PyCallbackWrapper::operator()].

    Unsigned 32-bit values are integers in [0, 2^32) with the wrap-around
    written out.  Methods that mutate their object are written in a small
    state monad that also records the events they perform, so that the
    order of the effects inside one call can be stated.

    Threads.  One call of [read] or of [write] is taken whole.  The body of
    the consumer loop is given twice: with a silent producer
    ([consumer_iteration]) and with writes of the producer between its
    statements ([consumer_iteration_steps]).  The control calls of the hub are
    given by their events in program order and by the hub they leave when
    they return; [subscribe] is run event by event against the thread it
    launches ([sys]), and the calls that join are run event by event against
    the consumer threads, with a mutex that makes its taker wait and a join
    that waits for the thread function to return ([Threads]). *)

From Stdlib Require Import ZArith Lia List Sorted.
From stdpp Require Import base numbers option list gmap strings.

Local Open Scope Z_scope.

(** ** 32-bit unsigned arithmetic ([uint32_t]) and the conversion to [int] *)

Module U32.

Definition modulus : Z := 2 ^ 32.
Definition half : Z := 2 ^ 31.

(** Reduction of an unbounded integer to its [uint32_t] representative. *)
Definition wrap (x : Z) : Z := x mod modulus.

Definition add (a b : Z) : Z := wrap (a + b).
Definition sub (a b : Z) : Z := wrap (a - b).

(** [int(x)] for [x : uint32_t]: the two's-complement reading. *)
Definition to_int (x : Z) : Z := if x <? half then x else x - modulus.

Definition in_range (x : Z) : Prop := 0 <= x < modulus.

End U32.

(** ** A state monad that logs events *)

Module Eff.

Definition M (S E A : Type) : Type := S -> A * S * list E.

Definition ret {S E A} (a : A) : M S E A := fun s => (a, s, []).

Definition bind {S E A B} (c : M S E A) (k : A -> M S E B) : M S E B :=
  fun s =>
    let '(a, s1, l1) := c s in
    let '(b, s2, l2) := k a s1 in
    (b, s2, l1 ++ l2).

Definition gets {S E A} (f : S -> A) : M S E A := fun s => (f s, s, []).
Definition modify {S E} (f : S -> S) : M S E unit := fun s => (tt, f s, []).
Definition emit {S E} (e : E) : M S E unit := fun s => (tt, s, [e]).

(** Run a computation on a component of a larger state, relabelling its
    events. *)
Definition zoom {S S' E E' A} (get : S' -> S) (set : S -> S' -> S')
    (lbl : E -> E') (c : M S E A) : M S' E' A :=
  fun s' => let '(a, s1, l) := c (get s') in (a, set s1 s', map lbl l).

Definition result {S E A} (x : A * S * list E) : A := fst (fst x).
Definition state {S E A} (x : A * S * list E) : S := snd (fst x).
Definition events {S E A} (x : A * S * list E) : list E := snd x.

End Eff.

Notation "'let*' x := c 'in' k" := (Eff.bind c (fun x => k))
  (at level 10, x name, c at level 100, k at level 200).
Notation "'run' c 'in' k" := (Eff.bind c (fun _ => k))
  (at level 10, c at level 100, k at level 200).

(** ** The ring: [SPMCQueue<T, CNT>] *)

Module SPMC.

(** Memory events of the ring's methods, in program order. *)
Inductive event : Type :=
| EvLoadIdx (slot : nat) (v : Z)    (* acquire load of [blks[slot].idx] *)
| EvWriter (slot : nat)             (* [writer(blks[slot].data)] *)
| EvAssign (slot : nat)             (* [blks[slot].data = data] *)
| EvStoreIdx (slot : nat) (v : Z).  (* release store into [blks[slot].idx] *)

(** [struct Block { uint32_t idx = 0; T data; }] *)
Record Block (T : Type) : Type := mkBlock { idx : Z; data : T }.
Arguments mkBlock {T}.
Arguments idx {T}.
Arguments data {T}.

(** [Block blks[CNT]; uint32_t write_idx = 0;] *)
Record SPMCQueue (T : Type) : Type :=
  mkQueue { blks : list (Block T); write_idx : Z }.
Arguments mkQueue {T}.
Arguments blks {T}.
Arguments write_idx {T}.

(** [struct Reader { SPMCQueue* q = nullptr; uint32_t next_idx; }]; the
    pointer [q] is kept as the flag that [operator bool] returns. *)
Record Reader : Type := mkReader { q : bool; next_idx : Z }.

(** What a reader thread touches: the ring it points to and its own cursor. *)
Record World (T : Type) : Type :=
  mkWorld { queue : SPMCQueue T; reader : Reader }.
Arguments mkWorld {T}.
Arguments queue {T}.
Arguments reader {T}.

#[global] Instance Block_inhabited {T} `{Inhabited T} : Inhabited (Block T) :=
  populate (mkBlock 0 inhabitant).

Section Queue.
Context {T : Type} `{Inhabited T}.
Variable CNT : Z.

(** [static_assert(CNT && !(CNT & (CNT - 1)))] on a [uint32_t] constant. *)
Definition static_assert_ok : bool :=
  (0 <=? CNT) && (CNT <? U32.modulus)
  && negb (CNT =? 0) && (Z.land CNT (CNT - 1) =? 0).

(** [x % CNT] as an array index. *)
Definition slot_of (x : Z) : nat := Z.to_nat (x mod CNT).

(** A freshly constructed queue. *)
Definition init : SPMCQueue T :=
  mkQueue (replicate (Z.to_nat CNT) (mkBlock 0 inhabitant)) 0.

(** *** Primitive accesses *)

(** [++write_idx] *)
Definition incr_write_idx : Eff.M (SPMCQueue T) event Z :=
  fun s =>
    let w := U32.add (write_idx s) 1 in
    (w, mkQueue (blks s) w, []).

(** [writer(blk.data)]: the producer function mutates the payload in place. *)
Definition call_writer (i : nat) (writer : T -> T)
  : Eff.M (SPMCQueue T) event unit :=
  fun s =>
    (tt,
     mkQueue (alter (fun b => mkBlock (idx b) (writer (data b))) i (blks s))
             (write_idx s),
     [EvWriter i]).

(** [blk.data = data] *)
Definition assign_data (i : nat) (d : T) : Eff.M (SPMCQueue T) event unit :=
  fun s =>
    (tt,
     mkQueue (alter (fun b => mkBlock (idx b) d) i (blks s)) (write_idx s),
     [EvAssign i]).

(** [((std::atomic<uint32_t>* )&blk.idx)->store(v, release)] *)
Definition store_idx (i : nat) (v : Z) : Eff.M (SPMCQueue T) event unit :=
  fun s =>
    (tt,
     mkQueue (alter (fun b => mkBlock v (data b)) i (blks s)) (write_idx s),
     [EvStoreIdx i v]).

(** [((std::atomic<uint32_t>* )&blk.idx)->load(acquire)] *)
Definition load_idx (i : nat) : Eff.M (SPMCQueue T) event Z :=
  fun s => let v := idx (blks s !!! i) in (v, s, [EvLoadIdx i v]).

(** *** [SPMCQueue::write(Writer writer)] of [src/spmc.hpp] *)
Definition write (writer : T -> T) : Eff.M (SPMCQueue T) event unit :=
  let* w := incr_write_idx in
  let i := slot_of w in
  run call_writer i writer in
  let* w' := Eff.gets write_idx in
  store_idx i w'.

(** *** [SPMCQueue::write(const T& data)] of [src/src/spmc.hpp] *)
Definition write_copy (d : T) : Eff.M (SPMCQueue T) event unit :=
  let* w := incr_write_idx in
  let i := slot_of w in
  run assign_data i d in
  let* w' := Eff.gets write_idx in
  store_idx i w'.

(** Successive calls of [write], one per producer function of the list. *)
Definition writes (ws : list (T -> T)) (s : SPMCQueue T) : SPMCQueue T :=
  fold_left (fun s' f => Eff.state (write f s')) ws s.

(** Successive calls of the copy form. *)
Definition writes_copy (ds : list T) (s : SPMCQueue T) : SPMCQueue T :=
  fold_left (fun s' d => Eff.state (write_copy d s')) ds s.

(** *** [SPMCQueue::getReader] *)
Definition getReader (s : SPMCQueue T) : Reader :=
  mkReader true (U32.add (write_idx s) 1).

(** *** [Reader::read]; the returned pointer [&blk.data] is the slot
    index, [nullptr] is [None]. *)
Definition set_queue (s : SPMCQueue T) (w : World T) : World T :=
  mkWorld s (reader w).

Definition set_next_idx (n : Z) (w : World T) : World T :=
  mkWorld (queue w) (mkReader (q (reader w)) n).

Definition read : Eff.M (World T) event (option nat) :=
  let* n := Eff.gets (fun w => next_idx (reader w)) in
  let i := slot_of n in
  let* new_idx := Eff.zoom queue set_queue (fun e => e) (load_idx i) in
  if U32.to_int (U32.sub new_idx n) <? 0 then Eff.ret None
  else
    run Eff.modify (set_next_idx (U32.add new_idx 1)) in
    Eff.ret (Some i).


(** Dereferencing a returned pointer in a given memory. *)
Definition deref (s : SPMCQueue T) (p : nat) : T := data (blks s !!! p).

(** The sequence value [read] loads, and the difference it tests. *)
Definition observed (w : World T) : Z :=
  idx (blks (queue w) !!! slot_of (next_idx (reader w))).

Definition signed_diff (w : World T) : Z :=
  U32.to_int (U32.sub (observed w) (next_idx (reader w))).

(** The invariant of the array: [CNT] blocks, counters inside [uint32_t]. *)
Definition wf (s : SPMCQueue T) : Prop :=
  length (blks s) = Z.to_nat CNT /\ U32.in_range (write_idx s).

(** Specification-side function, not code of the ring: the number of the
    last write that landed in slot [i] among the first [k] writes, with writes numbered 1, 2, 3, ... without wrap-around: the
    largest [s] with [1 <= s <= k] and [s mod CNT = i], or 0 if there is none. *)
Fixpoint last_write (k : nat) (i : Z) : Z :=
  match k with
  | O => 0
  | S k' => if Z.of_nat k mod CNT =? i then Z.of_nat k else last_write k' i
  end.

(** The values the data-model invariant of the specification lists for the
    slot at ring index [i]: 0 at first, then [i+1, i+1+CNT, i+1+2*CNT, ...]. *)
Definition spec_slot_values (i v : Z) : Prop :=
  v = 0 \/ exists j, 0 <= j /\ v = i + 1 + j * CNT.

End Queue.

(** Small concrete rings (capacity 4, integer payloads) used to evaluate the
    definitions. *)
Definition sample_fresh : SPMCQueue Z := init 4.

Definition sample_one_write : SPMCQueue Z := writes_copy 4 [10] (init 4).

(** A reader created on the fresh ring, polled before and after one write. *)
Definition sample_idle : World Z := mkWorld sample_fresh (getReader sample_fresh).

Definition sample_ready : World Z :=
  mkWorld sample_one_write (getReader sample_fresh).

(** A ring whose counter is about to wrap, and a reader created on it. *)
Definition sample_wrapping : SPMCQueue Z :=
  mkQueue [mkBlock 4294967292 0; mkBlock 4294967293 0;
           mkBlock 4294967294 0; mkBlock 4294967295 0] 4294967295.

Definition sample_wrapped_idle : World Z :=
  mkWorld sample_wrapping (getReader sample_wrapping).

Definition sample_wrapped_ready : World Z :=
  mkWorld (writes_copy 4 [77] sample_wrapping) (getReader sample_wrapping).

End SPMC.

(** ** The market-data hub *)

Module Hub.
Import SPMC.

(** *** [market_data.hpp] *)

(** [enum class DataType { KLINE = 0, TRADE = 1, BOOK_L1 = 2 }], kept as its
    underlying integer: [static_cast<DataType>(index())] is then the identity. *)
Definition DataType : Type := Z.
Definition KLINE : DataType := 0.
Definition TRADE : DataType := 1.
Definition BOOK_L1 : DataType := 2.

(** A [double] is only copied by this code; it is kept as its bit pattern. *)
Definition double : Type := Z.

Record Kline : Type := mkKline {
  kline_timestamp : Z;
  kline_open : double;
  kline_high : double;
  kline_low : double;
  kline_close : double;
  kline_volume : double;
  kline_symbol : string
}.

Record Trade : Type := mkTrade {
  trade_timestamp : Z;
  trade_price : double;
  trade_quantity : double;
  trade_symbol : string;
  trade_is_buyer_maker : bool
}.

Record BookL1 : Type := mkBookL1 {
  book_timestamp : Z;
  book_bid_price : double;
  book_bid_quantity : double;
  book_ask_price : double;
  book_ask_quantity : double;
  book_symbol : string
}.

(** [using MarketData = std::variant<Kline, Trade, BookL1>] *)
Inductive MarketData : Type :=
| MD_Kline (k : Kline)
| MD_Trade (t : Trade)
| MD_BookL1 (b : BookL1).

(** [std::variant::index()] *)
Definition index (d : MarketData) : Z :=
  match d with
  | MD_Kline _ => 0
  | MD_Trade _ => 1
  | MD_BookL1 _ => 2
  end.

(** A default-constructed variant holds a default-constructed first arm. *)
#[global] Instance MarketData_inhabited : Inhabited MarketData :=
  populate (MD_Kline (mkKline 0 0 0 0 0 0 EmptyString)).

(** *** Callbacks *)

(** What a C++ callable may throw. *)
Inductive exn : Type :=
| StdException (what : string)
| OtherException.

(** Outcome of one call of a subscriber callback: normal return (with the
    lines it printed), an exception leaving the call, or undefined behaviour. *)
Inductive cb_outcome : Type :=
| Returned (printed : list string)
| Threw (e : exn)
| Undefined.

(** [using PyCallback = std::function<void(DataType, const void* )>]; the
    pointer is represented by the variant value whose arm it points into. *)
Definition PyCallback : Type := DataType -> MarketData -> cb_outcome.

(** *** [python_bindings.cpp]: the wrapper around a Python callable *)

Inductive py_value : Type :=
| PyInt (n : Z)
| PyFloat (bits : double)
| PyStr (s : string)
| PyBool (b : bool).

Definition py_dict : Type := list (string * py_value).

(** A Python callable either returns or raises; a raised Python error reaches
    C++ as [py::error_already_set], which derives from [std::exception]. *)
Inductive py_outcome : Type :=
| PyReturns
| PyRaises (what : string).

Definition py_callable : Type := string -> py_dict -> py_outcome.

Definition kline_dict (k : Kline) : py_dict :=
  [("timestamp"%string, PyInt (kline_timestamp k));
   ("open"%string, PyFloat (kline_open k));
   ("high"%string, PyFloat (kline_high k));
   ("low"%string, PyFloat (kline_low k));
   ("close"%string, PyFloat (kline_close k));
   ("volume"%string, PyFloat (kline_volume k));
   ("symbol"%string, PyStr (kline_symbol k))].

Definition trade_dict (t : Trade) : py_dict :=
  [("timestamp"%string, PyInt (trade_timestamp t));
   ("price"%string, PyFloat (trade_price t));
   ("quantity"%string, PyFloat (trade_quantity t));
   ("symbol"%string, PyStr (trade_symbol t));
   ("is_buyer_maker"%string, PyBool (trade_is_buyer_maker t))].

Definition book_dict (b : BookL1) : py_dict :=
  [("timestamp"%string, PyInt (book_timestamp b));
   ("bid_price"%string, PyFloat (book_bid_price b));
   ("bid_quantity"%string, PyFloat (book_bid_quantity b));
   ("ask_price"%string, PyFloat (book_ask_price b));
   ("ask_quantity"%string, PyFloat (book_ask_quantity b));
   ("symbol"%string, PyStr (book_symbol b))].

(** [py::print]: it calls the interpreter's [print], which returns or raises
    (the output stream may be closed); a raised error reaches C++ as
    [py::error_already_set] again. *)
Definition py_printer : Type := string -> py_outcome.

(** [try { callback_(name, result); } catch (const std::exception& e)
    { py::print("Error in callback:", e.what()); }].  The handler is not
    itself guarded: an error raised by [py::print] leaves it, and with it
    [operator()]. *)
Definition call_guarded (print : py_printer) (callback_ : py_callable)
    (name : string) (result : py_dict) : cb_outcome :=
  match callback_ name result with
  | PyReturns => Returned []
  | PyRaises what =>
      let line := String.append "Error in callback: "%string what in
      match print line with
      | PyReturns => Returned [line]
      | PyRaises what' => Threw (StdException what')
      end
  end.

(** [PyCallbackWrapper::operator()]: a [switch] on the tag with no default
    case; each case casts the pointer to the struct the tag names, which is
    undefined when the pointer points into another arm.  [print] is the
    interpreter's [print] that the handler calls.  The dictionary is built
    inside the same [try]; building it is taken to succeed. *)
Definition PyCallbackWrapper (print : py_printer) (callback_ : py_callable)
  : PyCallback :=
  fun data_type data_ptr =>
    if data_type =? KLINE then
      match data_ptr with
      | MD_Kline kline =>
          call_guarded print callback_ "kline"%string (kline_dict kline)
      | _ => Undefined
      end
    else if data_type =? TRADE then
      match data_ptr with
      | MD_Trade trade =>
          call_guarded print callback_ "trade"%string (trade_dict trade)
      | _ => Undefined
      end
    else if data_type =? BOOK_L1 then
      match data_ptr with
      | MD_BookL1 book =>
          call_guarded print callback_ "book_l1"%string (book_dict book)
      | _ => Undefined
      end
    else Returned [].

(** Specification-side: the name and the dictionary that the Python callable
    is to receive for a record. *)
Definition callable_args (rec : MarketData) : string * py_dict :=
  match rec with
  | MD_Kline k => ("kline"%string, kline_dict k)
  | MD_Trade t => ("trade"%string, trade_dict t)
  | MD_BookL1 b => ("book_l1"%string, book_dict b)
  end.

(** *** [market_data_hub.hpp]: the hub's data *)

(** [SPMCQueue<MarketData, 512>] *)
Definition CNT : Z := 512.

(** [struct Subscriber]; [thread] is the owned thread object, named by the
    argument its thread function was started with. *)
Record Subscriber : Type := mkSubscriber {
  id : Z;
  data_type : DataType;
  callback : PyCallback;
  thread : option Z;
  running : bool;
  reader_holder : Reader
}.

(** [class MarketDataHub].  [next_subscriber_id_] is an [int]; signed
    overflow is undefined, so the counter is left unbounded here and the model
    covers the subscriptions before it would overflow. *)
Record MarketDataHub : Type := mkHub {
  queue_ : SPMCQueue MarketData;
  subscribers_ : gmap Z Subscriber;
  next_subscriber_id_ : Z
}.

(** [MarketDataHub() : next_subscriber_id_(0) {}] *)
Definition hub_init : MarketDataHub := mkHub (init CNT) ∅ 0.

(** Events of the hub's control operations, in program order. *)
Inductive hevent : Type :=
| HLock                              (* [lock_guard] taken on [mutex_] *)
| HUnlock                            (* [lock_guard] released *)
| HConstruct (i : Z)                 (* [make_unique<Subscriber>] *)
| HGetReader (i : Z)                 (* [reader = queue_.getReader()] *)
| HSetRunning (i : Z) (b : bool)     (* [running = b] *)
| HLaunch (i : Z)                    (* [make_unique<std::thread>(...)] *)
| HInsert (i : Z)                    (* [subscribers_[i] = move(subscriber)] *)
| HJoin (i : Z)                      (* [thread->join()] *)
| HErase (i : Z)                     (* [subscribers_.erase(it)] *)
| HClear                             (* [subscribers_.clear()] *)
| HRing (e : event).                 (* an access to [queue_] *)

Definition set_queue_ (s : SPMCQueue MarketData) (h : MarketDataHub)
  : MarketDataHub :=
  mkHub s (subscribers_ h) (next_subscriber_id_ h).

Definition set_subscribers_ (m : gmap Z Subscriber) (h : MarketDataHub)
  : MarketDataHub :=
  mkHub (queue_ h) m (next_subscriber_id_ h).

Definition set_reader (r : Reader) (s : Subscriber) : Subscriber :=
  mkSubscriber (id s) (data_type s) (callback s) (thread s) (running s) r.

Definition set_running (b : bool) (s : Subscriber) : Subscriber :=
  mkSubscriber (id s) (data_type s) (callback s) (thread s) b (reader_holder s).

Definition set_thread (t : option Z) (s : Subscriber) : Subscriber :=
  mkSubscriber (id s) (data_type s) (callback s) t (running s) (reader_holder s).

(** [next_subscriber_id_++] *)
Definition post_incr_id : Eff.M MarketDataHub hevent Z :=
  fun h =>
    (next_subscriber_id_ h,
     mkHub (queue_ h) (subscribers_ h) (next_subscriber_id_ h + 1),
     []).

(** *** [MarketDataHub::add] *)
Definition add (d : MarketData) : Eff.M MarketDataHub hevent unit :=
  Eff.zoom queue_ set_queue_ HRing (write_copy CNT d).

(** *** [MarketDataHub::subscribe].  The subscriber is a local object until
    it is moved into the table by the last statement. *)
Definition subscribe (data_type : DataType) (callback : PyCallback)
  : Eff.M MarketDataHub hevent Z :=
  run Eff.emit HLock in
  let* sub_id := post_incr_id in
  let subscriber :=
    mkSubscriber sub_id data_type callback None false (mkReader false 0) in
  run Eff.emit (HConstruct sub_id) in
  let* r := Eff.gets (fun h => getReader (queue_ h)) in
  let subscriber := set_reader r subscriber in
  run Eff.emit (HGetReader sub_id) in
  let subscriber := set_running true subscriber in
  run Eff.emit (HSetRunning sub_id true) in
  let subscriber := set_thread (Some sub_id) subscriber in
  run Eff.emit (HLaunch sub_id) in
  run Eff.modify (fun h => set_subscribers_ (<[sub_id := subscriber]> (subscribers_ h)) h) in
  run Eff.emit (HInsert sub_id) in
  run Eff.emit HUnlock in
  Eff.ret sub_id.

(** *** [MarketDataHub::unsubscribe].  The events are those of the call in
    program order and the state is the hub when the call returns.
    [thread->join()] returns only once the thread function has returned, and
    it is called with [mutex_] held: whether the call gets past [HJoin] is
    decided against the consumer threads, in [Threads] below. *)
Definition unsubscribe (subscriber_id : Z) : Eff.M MarketDataHub hevent unit :=
  run Eff.emit HLock in
  let* it := Eff.gets (fun h => subscribers_ h !! subscriber_id) in
  run (match it with
       | Some sub =>
           run Eff.modify (fun h =>
                 set_subscribers_
                   (alter (set_running false) subscriber_id (subscribers_ h)) h) in
           run Eff.emit (HSetRunning subscriber_id false) in
           run (match thread sub with
                | Some _ => Eff.emit (HJoin subscriber_id)
                | None => Eff.ret tt
                end) in
           run Eff.modify (fun h =>
                 set_subscribers_ (delete subscriber_id (subscribers_ h)) h) in
           Eff.emit (HErase subscriber_id)
       | None => Eff.ret tt
       end) in
  Eff.emit HUnlock.

(** *** [MarketDataHub::stop_all].  The loop walks a [std::unordered_map],
    whose iteration order is unspecified: [stop_all_walk] takes the order as a
    list of the table's entries.  As for [unsubscribe], the events are in
    program order, the state is the hub when the call returns, and each
    [join] is made with [mutex_] held. *)
Definition stop_events (entry : Z * Subscriber) : list hevent :=
  HSetRunning (fst entry) false
  :: match thread (snd entry) with
     | Some _ => [HJoin (fst entry)]
     | None => []
     end.

Definition stop_all_walk (order : list (Z * Subscriber))
  : Eff.M MarketDataHub hevent unit :=
  fun h =>
    (tt,
     set_subscribers_ ∅ h,
     [HLock] ++ flat_map stop_events order ++ [HClear; HUnlock]).

(** The walk in the order in which the model's table lists its entries. *)
Definition stop_all : Eff.M MarketDataHub hevent unit :=
  fun h => stop_all_walk (map_to_list (subscribers_ h)) h.

(** *** [MarketDataHub::subscriber_count] *)
Definition subscriber_count (h : MarketDataHub) : nat := size (subscribers_ h).

(** Control operations applied one after the other to a fresh hub. *)
Inductive hub_op : Type :=
| OpAdd (d : MarketData)
| OpSubscribe (data_type : DataType) (callback : PyCallback)
| OpUnsubscribe (subscriber_id : Z)
| OpStopAll.

Definition apply_op (h : MarketDataHub) (o : hub_op) : MarketDataHub :=
  match o with
  | OpAdd d => Eff.state (add d h)
  | OpSubscribe t c => Eff.state (subscribe t c h)
  | OpUnsubscribe i => Eff.state (unsubscribe i h)
  | OpStopAll => Eff.state (stop_all h)
  end.

Definition run_ops (ops : list hub_op) : MarketDataHub :=
  fold_left apply_op ops hub_init.

(** *** [MarketDataHub::consumer_thread] *)

(** Events of a consumer thread. *)
Inductive cevent : Type :=
| CRing (e : event)                          (* an access to the ring *)
| CSleep                                     (* [sleep_for(1us)] *)
| CCall (tag : DataType) (rec : MarketData)  (* [subscriber->callback(tag, &arg)] *)
| CPrint (line : string).                    (* a line printed by the callback *)

(** How one pass through the loop body ends. *)
Inductive iter_outcome : Type :=
| Next                   (* back to the loop test *)
| Escaped (e : exn)      (* an exception leaves the body, hence the thread function *)
| IterUndefined.

(** The body of [while (subscriber->running)], run on the hub's ring and the
    subscriber's reader, for a pass during which the producer does not write:
    the tag and the copy are then taken from the same contents of the slot.
    The body against a producer that writes during the pass is
    [consumer_iteration_steps] below. *)
Definition consumer_iteration (target_type : DataType) (callback : PyCallback)
  : Eff.M (World MarketData) cevent iter_outcome :=
  let* data_ptr := Eff.zoom (fun w => w) (fun w _ => w) CRing (read CNT) in
  match data_ptr with
  | None =>
      run Eff.emit CSleep in
      Eff.ret Next
  | Some p =>
      let* current_type := Eff.gets (fun w => index (deref (queue w) p)) in
      if negb (current_type =? target_type) then Eff.ret Next
      else
        let* data_copy := Eff.gets (fun w => deref (queue w) p) in
        run Eff.emit (CCall current_type data_copy) in
        match callback current_type data_copy with
        | Returned printed =>
            fun w => (Next, w, map CPrint printed)
        | Threw e => Eff.ret (Escaped e)
        | Undefined => Eff.ret IterUndefined
        end
  end.

(** What the other threads did since the previous pass: the records the
    producer published, and the value of [running] the loop test reads. *)
Record tick : Type := mkTick {
  tick_writes : list MarketData;
  tick_running : bool
}.

(** How the thread function stands when the schedule is used up. *)
Inductive loop_outcome : Type :=
| LoopExited              (* [running] was read false: the function returns *)
| LoopTerminated (e : exn)  (* an exception left the thread function *)
| LoopUndefined
| LoopRunning.            (* still iterating *)

Fixpoint consumer_loop (target_type : DataType) (callback : PyCallback)
    (sched : list tick) (w : World MarketData)
  : loop_outcome * World MarketData * list cevent :=
  match sched with
  | [] => (LoopRunning, w, [])
  | t :: rest =>
      let w1 := mkWorld (writes_copy CNT (tick_writes t) (queue w)) (reader w) in
      if tick_running t then
        let '(o, w2, l) := consumer_iteration target_type callback w1 in
        match o with
        | Next =>
            let '(o', w3, l') := consumer_loop target_type callback rest w2 in
            (o', w3, l ++ l')
        | Escaped e => (LoopTerminated e, w2, l)
        | IterUndefined => (LoopUndefined, w2, l)
        end
      else (LoopExited, w1, [])
  end.

(** The thread function: look the subscriber up, return if it is absent,
    otherwise loop on its reader, filter and callback. *)
Definition consumer_thread (subscriber_id : Z) (h : MarketDataHub)
    (sched : list tick) : loop_outcome * World MarketData * list cevent :=
  match subscribers_ h !! subscriber_id with
  | None => (LoopExited, mkWorld (queue_ h) (mkReader false 0), [])
  | Some subscriber =>
      consumer_loop (data_type subscriber) (callback subscriber) sched
        (mkWorld (queue_ h) (reader_holder subscriber))
  end.

(** *** The loop body against a producer that writes meanwhile

    [consumer_iteration] runs the body with no write of the producer between
    its statements.  The body dereferences [data_ptr] twice, with no check
    of the slot's sequence in between: for the tag ([data_ptr->index()],
    line 163) and for the copy ([MarketData data_copy = *data_ptr], line
    170).  Here the producer publishes [after_read] between the return of
    [read] and the tag test, and [after_tag] between the tag test and the
    copy (during the sleep, when [read] returned null).  Each call of
    [write] is still taken whole. *)
Definition publish (ds : list MarketData) (w : World MarketData)
  : World MarketData :=
  mkWorld (writes_copy CNT ds (queue w)) (reader w).

Definition consumer_iteration_steps (after_read after_tag : list MarketData)
    (target_type : DataType) (callback : PyCallback)
  : Eff.M (World MarketData) cevent iter_outcome :=
  let* data_ptr := Eff.zoom (fun w => w) (fun w _ => w) CRing (read CNT) in
  match data_ptr with
  | None =>
      run Eff.emit CSleep in
      run Eff.modify (publish (after_read ++ after_tag)) in
      Eff.ret Next
  | Some p =>
      run Eff.modify (publish after_read) in
      let* current_type := Eff.gets (fun w => index (deref (queue w) p)) in
      run Eff.modify (publish after_tag) in
      if negb (current_type =? target_type) then Eff.ret Next
      else
        let* data_copy := Eff.gets (fun w => deref (queue w) p) in
        run Eff.emit (CCall current_type data_copy) in
        match callback current_type data_copy with
        | Returned printed =>
            fun w => (Next, w, map CPrint printed)
        | Threw e => Eff.ret (Escaped e)
        | Undefined => Eff.ret IterUndefined
        end
  end.

(** What the producer and the controlling thread do around one pass. *)
Record pass : Type := mkPass {
  pass_writes : list MarketData;      (* published before the loop test *)
  pass_running : bool;                (* the value of [running] the test reads *)
  pass_after_read : list MarketData;  (* published between [read] and the tag test *)
  pass_after_tag : list MarketData    (* published between the tag test and the copy *)
}.

Fixpoint consumer_loop_steps (target_type : DataType) (callback : PyCallback)
    (sched : list pass) (w : World MarketData)
  : loop_outcome * World MarketData * list cevent :=
  match sched with
  | [] => (LoopRunning, w, [])
  | t :: rest =>
      let w1 := publish (pass_writes t) w in
      if pass_running t then
        let '(o, w2, l) :=
          consumer_iteration_steps (pass_after_read t) (pass_after_tag t)
            target_type callback w1 in
        match o with
        | Next =>
            let '(o', w3, l') :=
              consumer_loop_steps target_type callback rest w2 in
            (o', w3, l ++ l')
        | Escaped e => (LoopTerminated e, w2, l)
        | IterUndefined => (LoopUndefined, w2, l)
        end
      else (LoopExited, w1, [])
  end.

(** A pass during which the producer is silent. *)
Definition quiet_pass (t : tick) : pass :=
  mkPass (tick_writes t) (tick_running t) [] [].

(** *** [subscribe] against the thread it launches

    The events of a call of [subscribe] are taken one at a time by the calling
    thread; the launched thread's first action is its table look-up, which
    takes [mutex_] and so can only run while the mutex is free.  This system
    runs the events of [subscribe] only; the calls that join are run in
    [Threads]. *)

#[global] Instance event_eq_dec : EqDecision event.
Proof. solve_decision. Defined.

#[global] Instance hevent_eq_dec : EqDecision hevent.
Proof. solve_decision. Defined.

(** Index of the first occurrence of an event in a trace. *)
Fixpoint position (e : hevent) (l : list hevent) : option nat :=
  match l with
  | [] => None
  | x :: l' => if decide (x = e) then Some 0%nat else S <$> position e l'
  end.

(** Both events occur and the first occurrence of [a] is before that of [b]. *)
Definition precedes (a b : hevent) (l : list hevent) : Prop :=
  match position a l, position b l with
  | Some i, Some j => (i < j)%nat
  | _, _ => False
  end.

(** The order of steps the specification gives for [subscribe]: construct,
    obtain the reader, set [running], insert into the table, launch. *)
Definition spec_subscribe_order (i : Z) (l : list hevent) : Prop :=
  precedes (HConstruct i) (HGetReader i) l /\
  precedes (HGetReader i) (HSetRunning i true) l /\
  precedes (HSetRunning i true) (HInsert i) l /\
  precedes (HInsert i) (HLaunch i) l.

(** State of the launched thread. *)
Inductive tstatus : Type :=
| Waiting      (* started, has not yet looked itself up *)
| Found        (* found its record: enters the loop *)
| NotFound.    (* [it == subscribers_.end()]: returned at once *)

Record sys : Type := mkSys {
  mutex_held : bool;
  todo : list hevent;
  table : gset Z;
  threads : gmap Z tstatus
}.

Inductive actor : Type :=
| Main
| Thread (i : Z).

(** Effect of one event of the calling thread; [None] when it must wait. *)
Definition main_effect (e : hevent) (rest : list hevent) (s : sys) : option sys :=
  match e with
  | HLock =>
      if mutex_held s then None
      else Some (mkSys true rest (table s) (threads s))
  | HUnlock => Some (mkSys false rest (table s) (threads s))
  | HLaunch i => Some (mkSys (mutex_held s) rest (table s) (<[i := Waiting]> (threads s)))
  | HInsert i => Some (mkSys (mutex_held s) rest ({[i]} ∪ table s) (threads s))
  | HErase i => Some (mkSys (mutex_held s) rest (table s ∖ {[i]}) (threads s))
  | HClear => Some (mkSys (mutex_held s) rest ∅ (threads s))
  | _ => Some (mkSys (mutex_held s) rest (table s) (threads s))
  end.

(** One step of the chosen thread; [None] when it cannot move. *)
Definition sys_step (a : actor) (s : sys) : option sys :=
  match a with
  | Main =>
      match todo s with
      | [] => None
      | e :: rest => main_effect e rest s
      end
  | Thread i =>
      match threads s !! i with
      | Some Waiting =>
          if mutex_held s then None
          else Some (mkSys false (todo s) (table s)
                       (<[i := if decide (i ∈ table s) then Found else NotFound]>
                          (threads s)))
      | _ => None
      end
  end.

(** A schedule names the thread to run at each step; a thread that cannot
    move is passed over. *)
Definition sys_run (sched : list actor) (s : sys) : sys :=
  fold_left (fun s' a => default s' (sys_step a s')) sched s.

(** The system at the start of a call [subscribe(data_type, callback)]. *)
Definition sys_of_subscribe (data_type : DataType) (callback : PyCallback)
    (h : MarketDataHub) : sys :=
  mkSys false (Eff.events (subscribe data_type callback h))
        (dom (subscribers_ h)) ∅.

(** *** Sample callbacks and records *)

Definition sample_trade : MarketData :=
  MD_Trade (mkTrade 7 50000 1 "BTCUSDT"%string true).

(** A C++ callback that throws on every record. *)
Definition throwing_callback : PyCallback :=
  fun _ _ => Threw (StdException "boom"%string).

(** A Python callable that raises on every record. *)
Definition raising_callable : py_callable :=
  fun _ _ => PyRaises "boom"%string.

(** An interpreter whose [print] works, and one whose output stream is gone. *)
Definition working_print : py_printer := fun _ => PyReturns.

Definition broken_print : py_printer :=
  fun _ => PyRaises "I/O operation on closed file"%string.

Definition quiet_callback : PyCallback := fun _ _ => Returned [].

Definition sample_kline : MarketData :=
  MD_Kline (mkKline 8 1 2 3 4 5 "ETHUSDT"%string).

(** A slow subscriber: 512 records are out, a Trade first, when it reads the
    slot of the first one; the record number 513, a Kline, lands in the same
    slot between its tag test and its copy. *)
Definition overwriting_pass : pass :=
  mkPass (sample_trade :: replicate 511 sample_kline) true [] [sample_kline].

(** The subscriber's view of the fresh hub: the ring and its new reader. *)
Definition fresh_world : World MarketData :=
  mkWorld (init CNT) (getReader (init (T:=MarketData) CNT)).

(** A subscriber's view of the hub's ring: reader created on the fresh ring,
    then one Trade published. *)
Definition sample_trade_world : World MarketData :=
  mkWorld (writes_copy CNT [sample_trade] (init CNT))
          (getReader (init (T:=MarketData) CNT)).

(** *** Predicates used to state the properties *)

(** Identifiers in the table are below the counter. *)
Definition ids_below_counter (h : MarketDataHub) : Prop :=
  forall i, is_Some (subscribers_ h !! i) -> i < next_subscriber_id_ h.

(** A callback invocation in a trace carries the tag [target], on a record
    of that arm. *)
Definition respects_filter (target : DataType) (e : cevent) : Prop :=
  match e with
  | CCall tag rec => tag = target /\ index rec = target
  | _ => True
  end.

(** A callback invocation in a trace carries the tag [target]. *)
Definition carries_filter (target : DataType) (e : cevent) : Prop :=
  match e with
  | CCall tag _ => tag = target
  | _ => True
  end.

(** The error-handling sentence of the specification, for the hub's loop and
    any callback: no exception ends the consumer thread. *)
Definition spec_callback_errors_caught : Prop :=
  forall (target : DataType) (callback : PyCallback) (sched : list tick)
         (w : World MarketData) (e : exn),
    Eff.result (consumer_loop target callback sched w) <> LoopTerminated e.

(** The events of [subscribe] for the identifier [n]. *)
Definition subscribe_events (n : Z) : list hevent :=
  [HLock; HConstruct n; HGetReader n; HSetRunning n true; HLaunch n;
   HInsert n; HUnlock].

(** Invariant of the system while [subscribe] for [n] runs: [k] events are
    done; the mutex is held from the first to the sixth; the thread exists
    from the fifth on and has not missed its record; the record is in the
    table from the sixth on. *)
Definition subscribe_inv (n : Z) (s : sys) : Prop :=
  exists k : nat,
    (k <= 7)%nat /\
    todo s = drop k (subscribe_events n) /\
    (mutex_held s = true <-> (1 <= k <= 6)%nat) /\
    ((k <= 4)%nat -> threads s !! n = None) /\
    ((5 <= k)%nat ->
       threads s !! n = Some Waiting \/ threads s !! n = Some Found) /\
    ((6 <= k)%nat -> n ∈ table s).

End Hub.

(** ** The calls that join, against the consumer threads

    [unsubscribe] and [stop_all] call [thread->join()] while they hold
    [mutex_].  A consumer thread starts by taking [mutex_] for its look-up,
    then loops until it reads [running == false].  The calling thread takes
    the events of its call one at a time; [HLock] waits for the mutex and
    [HJoin] waits for the thread function to return.  A thread's look-up
    (lock, find, unlock) is one step, possible only while the calling thread
    does not hold the mutex.  Each pass of a thread's loop body is taken to
    return, and each loop test to read the value of [running] last written. *)

Module Threads.
Import SPMC Hub.

#[global] Instance actor_eq_dec : EqDecision actor.
Proof. solve_decision. Defined.

(** Where a consumer thread stands in [consumer_thread]. *)
Inductive tstate : Type :=
| AtLookup     (* launched; its look-up under [mutex_] is still to come *)
| InLoop       (* holds its subscriber pointer; at the loop test *)
| Done.        (* the thread function has returned *)

Record conc : Type := mkConc {
  locked : bool;              (* [mutex_] is held by the calling thread *)
  pending : list hevent;      (* what the calling thread has still to do *)
  flags : gmap Z bool;        (* the table: identifier to [running] *)
  tstates : gmap Z tstate     (* the consumer threads *)
}.

(** Effect of the calling thread's next event [e], with [r] to follow;
    [None] when it has to wait.  [HSetRunning] writes the flag of a record of
    the table; in [subscribe] the record is still a local object then, and
    [HInsert] puts it into the table with [running] already set. *)
Definition call_effect (e : hevent) (r : list hevent) (s : conc)
  : option conc :=
  match e with
  | HLock =>
      if locked s then None
      else Some (mkConc true r (flags s) (tstates s))
  | HUnlock => Some (mkConc false r (flags s) (tstates s))
  | HSetRunning i b =>
      Some (mkConc (locked s) r (alter (fun _ => b) i (flags s)) (tstates s))
  | HLaunch i =>
      Some (mkConc (locked s) r (flags s) (<[i := AtLookup]> (tstates s)))
  | HInsert i =>
      Some (mkConc (locked s) r (<[i := true]> (flags s)) (tstates s))
  | HJoin i =>
      match tstates s !! i with
      | Some Done => Some (mkConc (locked s) r (flags s) (tstates s))
      | _ => None
      end
  | HErase i => Some (mkConc (locked s) r (delete i (flags s)) (tstates s))
  | HClear => Some (mkConc (locked s) r ∅ (tstates s))
  | _ => Some (mkConc (locked s) r (flags s) (tstates s))
  end.

(** One step of the consumer thread started for [i]: its look-up, or its
    loop test (followed by one pass of the body when [running] is true). *)
Definition thread_effect (i : Z) (s : conc) : option conc :=
  match tstates s !! i with
  | Some AtLookup =>
      if locked s then None
      else Some (mkConc false (pending s) (flags s)
                   (<[i := match flags s !! i with
                           | Some _ => InLoop
                           | None => Done
                           end]> (tstates s)))
  | Some InLoop =>
      match flags s !! i with
      | Some true => Some s
      | Some false =>
          Some (mkConc (locked s) (pending s) (flags s)
                  (<[i := Done]> (tstates s)))
      | None => None
      end
  | _ => None
  end.

Definition conc_step (a : actor) (s : conc) : option conc :=
  match a with
  | Main =>
      match pending s with
      | [] => None
      | e :: r => call_effect e r s
      end
  | Thread i => thread_effect i s
  end.

(** A schedule names the thread to run at each step; a thread that cannot
    move is passed over. *)
Definition conc_run (sched : list actor) (s : conc) : conc :=
  fold_left (fun s' a => default s' (conc_step a s')) sched s.

(** The system when the calling thread starts on the events [prog], on the
    hub [h], with the consumer threads as [t] says. *)
Definition conc_of (prog : list hevent) (h : MarketDataHub)
    (t : gmap Z tstate) : conc :=
  mkConc false prog (running <$> subscribers_ h) t.

(** Specification-side: a schedule pattern that gives every thread its turn
    when [ids] are to be joined in this order. *)
Definition turns (ids : list Z) : list actor :=
  Main :: flat_map (fun i => [Main; Thread i; Main]) ids ++ [Main; Main].

(** The events of clearing [running] and joining, for each of [ids]. *)
Definition joins (ids : list Z) : list hevent :=
  flat_map (fun i => [HSetRunning i false; HJoin i]) ids.

(** Predicates used in the proofs.  [steady]: the calling thread's part of
    the state is as given, the threads of [ids] are in their loops with
    [running] set, and the threads of [done] have returned. *)
Definition steady (l : bool) (p : list hevent) (F : gmap Z bool)
    (ids done : list Z) (s : conc) : Prop :=
  locked s = l /\ pending s = p /\ flags s = F /\
  (forall i, i ∈ ids -> tstates s !! i = Some InLoop /\ F !! i = Some true) /\
  (forall j, j ∈ done -> tstates s !! j = Some Done).

(** Events that neither release the mutex nor start a thread. *)
Definition quiet_event (e : hevent) : Prop :=
  match e with
  | HSetRunning _ false | HJoin _ => True
  | _ => False
  end.

(** [blocked_on j]: the calling thread holds the mutex and has a join of
    [j] ahead, while the thread of [j] has not yet made its look-up. *)
Definition blocked_on (j : Z) (s : conc) : Prop :=
  locked s = true /\
  tstates s !! j = Some AtLookup /\
  is_Some (flags s !! j) /\
  exists pre post,
    pending s = pre ++ HJoin j :: post /\ Forall quiet_event pre.

End Threads.

(** ** More of the ring: [readLast], polling readers *)

Module Ring.
Import SPMC.

Section Polling.
Context {T : Type} `{Inhabited T}.
Variable CNT : Z.

(** [Reader::readLast]: [T* ret = nullptr; while (T* cur = read()) ret = cur;
    return ret;].  The loop is given a bound on its number of passes; [None]
    means the bound was reached before [read] returned null. *)
Fixpoint readLast_loop (fuel : nat) (ret : option nat) (w : World T)
  : option (option nat * World T) :=
  match fuel with
  | O => None
  | S fuel' =>
      let '(cur, w', _) := read CNT w in
      match cur with
      | Some p => readLast_loop fuel' (Some p) w'
      | None => Some (ret, w')
      end
  end.

Definition readLast (fuel : nat) (w : World T) : option (option nat * World T) :=
  readLast_loop fuel None w.

(** A reader polling while the producer writes, as in the loop of
    [read_thread] and of [consumer_thread]: before each call of [read] the
    producer has made the writes of the next element of the schedule.  The
    result lists, for every call that returned a record, the sequence loaded
    from the slot and the payload the returned pointer refers to. *)
Fixpoint poll (sched : list (list (T -> T))) (w : World T) : list (Z * T) :=
  match sched with
  | [] => []
  | ws :: rest =>
      let w1 := mkWorld (writes CNT ws (queue w)) (reader w) in
      let '(r, w', _) := read CNT w1 in
      match r with
      | Some p => (observed CNT w1, deref (queue w1) p) :: poll rest w'
      | None => poll rest w'
      end
  end.

(** The reader of [w] is at most [2^31] behind a ring that has received the
    writes [ws]: it expects the write number [c]. *)
Definition in_sync (ws : list (T -> T)) (c : Z) (w : World T) : Prop :=
  queue w = writes CNT ws (init CNT) /\
  next_idx (reader w) = U32.wrap c /\
  1 <= c <= Z.of_nat (length ws) + 1 /\
  Z.of_nat (length ws) + 1 - c <= U32.half.

End Polling.

End Ring.

(** ** More of the hub: what a run of control operations returns *)

Module HubRun.
Import SPMC Hub.

(** The identifiers returned by the calls of [subscribe] in a run, in order. *)
Fixpoint run_results (ops : list hub_op) (h : MarketDataHub) : list Z :=
  match ops with
  | [] => []
  | o :: rest =>
      match o with
      | OpSubscribe t c =>
          Eff.result (subscribe t c h) :: run_results rest (apply_op h o)
      | _ => run_results rest (apply_op h o)
      end
  end.

Definition subscribe_ids (ops : list hub_op) : list Z := run_results ops hub_init.

(** The records published by the calls of [add] in a run, in order. *)
Definition added (ops : list hub_op) : list MarketData :=
  flat_map (fun o => match o with OpAdd d => [d] | _ => [] end) ops.

(** The callback invocations of a consumer trace, in order. *)
Definition calls (l : list cevent) : list (DataType * MarketData) :=
  flat_map (fun e => match e with CCall t r => [(t, r)] | _ => [] end) l.

(** Every record of the table was stored by [subscribe]: it sits under its
    own identifier, with its thread launched, [running] set and a reader
    bound to the ring. *)
Definition table_launched (h : MarketDataHub) : Prop :=
  forall i sub,
    subscribers_ h !! i = Some sub ->
    id sub = i /\ thread sub = Some i /\ running sub = true /\
    q (reader_holder sub) = true.

End HubRun.

(** ** [python_bindings.cpp]: the [symbol] property of the record classes *)

Module Bindings.
Import Hub.

(** A [char] array is a list of characters; a [std::string] is a [string],
    which may hold NUL characters. *)
Definition NUL : Ascii.ascii := Ascii.zero.

(** [strncpy(dst, src.c_str(), n)]: the [n] characters written to [dst].
    Copying stops after the first NUL of [src] (the one [c_str()] appends, or
    an earlier one inside the string); what is left of the [n] characters is
    filled with NUL. *)
Fixpoint strncpy (src : string) (n : nat) {struct n} : list Ascii.ascii :=
  match n with
  | O => []
  | S n' =>
      match src with
      | EmptyString => replicate (S n') NUL
      | String c src' =>
          if Ascii.eqb c NUL then replicate (S n') NUL
          else c :: strncpy src' n'
      end
  end.

(** The setter: [strncpy(k.symbol, s.c_str(), sizeof(k.symbol) - 1);
    k.symbol[sizeof(k.symbol) - 1] = '\0';] on [char symbol[32]]. *)
Definition symbol_store (s : string) : list Ascii.ascii := strncpy s 31 ++ [NUL].

(** The getter, [std::string(k.symbol)]: the characters before the first NUL. *)
Fixpoint symbol_load (a : list Ascii.ascii) : string :=
  match a with
  | [] => EmptyString
  | c :: a' => if Ascii.eqb c NUL then EmptyString else String c (symbol_load a')
  end.

(** [strnlen(a, n)] and [std::string(a, strnlen(a, n))], as the callback
    wrapper reads the array. *)
Fixpoint strnlen (a : list Ascii.ascii) (n : nat) {struct n} : nat :=
  match n, a with
  | S n', c :: a' => if Ascii.eqb c NUL then O else S (strnlen a' n')
  | _, _ => O
  end.

Definition symbol_load_n (a : list Ascii.ascii) : string :=
  String.string_of_list_ascii (take (strnlen a 32) a).

(** The first [n] characters of a string, and its part before the first NUL. *)
Fixpoint string_take (n : nat) (s : string) : string :=
  match n, s with
  | S n', String c s' => String c (string_take n' s')
  | _, _ => EmptyString
  end.

Fixpoint until_NUL (s : string) : string :=
  match s with
  | EmptyString => EmptyString
  | String c s' => if Ascii.eqb c NUL then EmptyString else String c (until_NUL s')
  end.

(** The [symbol] property of [Kline]: the record's field is what the getter
    reads from the array. *)
Definition kline_set_symbol (s : string) (k : Kline) : Kline :=
  mkKline (kline_timestamp k) (kline_open k) (kline_high k) (kline_low k)
          (kline_close k) (kline_volume k) (symbol_load (symbol_store s)).

Definition trade_set_symbol (s : string) (t : Trade) : Trade :=
  mkTrade (trade_timestamp t) (trade_price t) (trade_quantity t)
          (symbol_load (symbol_store s)) (trade_is_buyer_maker t).

Definition book_set_symbol (s : string) (b : BookL1) : BookL1 :=
  mkBookL1 (book_timestamp b) (book_bid_price b) (book_bid_quantity b)
           (book_ask_price b) (book_ask_quantity b)
           (symbol_load (symbol_store s)).

End Bindings.

(** ** [market_data_hub.hpp]: [MockCppProducer] *)

Module Producer.
Import SPMC Hub.

(** The bit pattern of the [double] equal to a non-negative integer below
    [2^53] (every such integer is a [double]): exponent [log2 v] with bias
    1023 in bits 52..62, the rest of [v] shifted to the top of the 52-bit
    fraction.  All the [double]s this producer computes are such integers:
    [50000.0 + (i % 100)] adds two of them to a sum below [2^53], so the
    addition is exact. *)
Definition double_of_int (v : Z) : double :=
  if v <=? 0 then 0
  else (Z.log2 v + 1023) * 2 ^ 52 + (v - 2 ^ Z.log2 v) * 2 ^ (52 - Z.log2 v).

(** The record built by one pass of the loop of [producer_thread], for the
    loop counter [i]. *)
Definition make_message (message_type : Z) (i : Z) : MarketData :=
  if message_type =? 0 then
    MD_Trade (mkTrade i (double_of_int (50000 + i mod 100)) (double_of_int 1)
                      "BTCUSDT" (i mod 2 =? 0))
  else if message_type =? 1 then
    MD_Kline (mkKline i (double_of_int 50000) (double_of_int 50100)
                      (double_of_int 49900) (double_of_int (50000 + i mod 100))
                      (double_of_int 100) "BTCUSDT")
  else
    MD_BookL1 (mkBookL1 i (double_of_int 50000) (double_of_int 10)
                        (double_of_int 50001) (double_of_int 10) "BTCUSDT").

(** [class MockCppProducer]; [thread_] is [None] for a null pointer and
    otherwise tells whether the thread object is joinable. *)
Record MockCppProducer : Type := mkProducer {
  running_ : bool;
  thread_ : option bool;
  num_messages_ : Z;
  message_type_ : Z;
  messages_produced_ : Z
}.

(** The constructor sets [running_], [thread_] and [messages_produced_];
    the other two members start with whatever values [u1], [u2] they hold. *)
Definition new_producer (u1 u2 : Z) : MockCppProducer :=
  mkProducer false None u1 u2 0.

(** [MockCppProducer::start] *)
Definition start (num_messages : Z) (message_type : Z) (p : MockCppProducer)
  : MockCppProducer :=
  if running_ p then p
  else mkProducer true (Some true) num_messages message_type
                  (messages_produced_ p).

(** [thread_->join()] when [thread_ && thread_->joinable()]. *)
Definition join (p : MockCppProducer) : MockCppProducer :=
  match thread_ p with
  | Some true =>
      mkProducer (running_ p) (Some false) (num_messages_ p) (message_type_ p)
                 (messages_produced_ p)
  | _ => p
  end.

(** [MockCppProducer::wait] *)
Definition wait (p : MockCppProducer) : MockCppProducer := join p.

(** [MockCppProducer::stop] *)
Definition stop (p : MockCppProducer) : MockCppProducer :=
  join (mkProducer false (thread_ p) (num_messages_ p) (message_type_ p)
                   (messages_produced_ p)).

(** The loop of [producer_thread]:
    [for (i = 0; i < num_messages_ && running_; ++i) { ...; hub_->add(...);
    ++messages_produced_; }].  [flags] lists the values of [running_] the
    loop test reads, one per test that gets to read it.  The result tells
    whether the loop has ended. *)
Fixpoint producer_loop (flags : list bool) (i : Z) (h : MarketDataHub)
    (p : MockCppProducer) : MarketDataHub * MockCppProducer * bool :=
  if i <? num_messages_ p then
    match flags with
    | [] => (h, p, false)
    | running :: flags' =>
        if running then
          producer_loop flags' (i + 1)
            (Eff.state (add (make_message (message_type_ p) i) h))
            (mkProducer (running_ p) (thread_ p) (num_messages_ p)
                        (message_type_ p) (messages_produced_ p + 1))
        else (h, p, true)
    end
  else (h, p, true).

(** [MockCppProducer::producer_thread] *)
Definition producer_thread (flags : list bool) (h : MarketDataHub)
    (p : MockCppProducer) : MarketDataHub * MockCppProducer * bool :=
  producer_loop flags 0 h
    (mkProducer (running_ p) (thread_ p) (num_messages_ p) (message_type_ p) 0).

End Producer.

(** ** [main.cpp]: the benchmark's writer and reader threads *)

Module Bench.

(** [struct Msg { uint64_t ts_ns; uint64_t idx; }] *)
Record Msg : Type := mkMsg { ts_ns : Z; idx : Z }.

(** The ring is a global, so its payloads start zeroed. *)
#[global] Instance Msg_inhabited : Inhabited Msg := populate (mkMsg 0 0).

Definition MAX_I : Z := 10000000.

(** [SPMCQueue<Msg, 512> q] *)
Definition CNT : Z := 512.

Definition wrap64 (x : Z) : Z := x mod 2 ^ 64.

(** [write_thread]: pass [i] of its loop reads the clock, then calls
    [q.write([&msg](Msg& data) { data = msg; })] with [msg.idx = i].  [clock]
    lists the clock readings of the passes; the result lists the producer
    functions of the calls, in order. *)
Definition write_thread (clock : list Z) : list (Msg -> Msg) :=
  imap (fun i ts => fun _ : Msg => mkMsg ts (Z.of_nat i))
       (take (Z.to_nat MAX_I) clock).

(** How the loop of [read_thread] stands. *)
Inductive outcome : Type :=
| Polling            (* still in [while (true)] *)
| AssertionFailed    (* [assert(msg->idx >= count)] failed *)
| Finished.          (* left the loop by [break] *)

Section Reader.
(** [Statistic<uint64_t>] is not part of the sources at hand: its type and
    its [add] are parameters. *)
Variable Stat : Type.
Variable stat_add : Stat -> Z -> Stat.

(** The loop of [read_thread].  Each element of the schedule is one pass:
    the number of calls of [write] the writer completed since the previous
    pass, and the clock reading taken if the pass gets a message.  [pending]
    lists the writer's calls still to come. *)
Fixpoint read_loop (sched : list (nat * Z)) (pending : list (Msg -> Msg))
    (w : SPMC.World Msg) (count : Z) (stat : Stat) : outcome * Z * Stat :=
  match sched with
  | [] => (Polling, count, stat)
  | (n, now) :: rest =>
      let w1 := SPMC.mkWorld (SPMC.writes CNT (take n pending) (SPMC.queue w))
                             (SPMC.reader w) in
      let '(r, w', _) := SPMC.read CNT w1 in
      match r with
      | None => read_loop rest (drop n pending) w' count stat
      | Some p =>
          let msg := SPMC.deref (SPMC.queue w1) p in
          let latency := wrap64 (now - ts_ns msg) in
          let stat' := stat_add stat latency in
          let count' := count + 1 in
          if idx msg <? count' then (AssertionFailed, count', stat')
          else if MAX_I - 1 <=? idx msg then (Finished, count', stat')
          else read_loop rest (drop n pending) w' count' stat'
      end
  end.

(** [read_thread], started when the writer has completed [k] of its calls:
    it takes a reader from the ring and loops. *)
Definition read_thread (clock : list Z) (k : nat) (sched : list (nat * Z))
    (stat0 : Stat) : outcome * Z * Stat :=
  let s0 := SPMC.writes CNT (take k (write_thread clock)) (SPMC.init CNT) in
  read_loop sched (drop k (write_thread clock))
            (SPMC.mkWorld s0 (SPMC.getReader s0)) 0 stat0.

End Reader.

End Bench.

(** * Properties *)

(** ** Facts about 32-bit arithmetic *)

Module U32Facts.

Lemma modulus_eq : U32.modulus = 4294967296.
Proof. reflexivity. Qed.

Lemma half_eq : U32.half = 2147483648.
Proof. reflexivity. Qed.

Lemma wrap_range x : U32.in_range (U32.wrap x).
Proof.
  unfold U32.in_range, U32.wrap. apply Z.mod_pos_bound.
  rewrite modulus_eq. lia.
Qed.

Lemma wrap_small x : U32.in_range x -> U32.wrap x = x.
Proof. unfold U32.in_range, U32.wrap. intros Hx. now apply Z.mod_small. Qed.

Lemma wrap_wrap x : U32.wrap (U32.wrap x) = U32.wrap x.
Proof. unfold U32.wrap. apply Z.mod_mod. rewrite modulus_eq. lia. Qed.

Lemma add_wrap_l a b : U32.add (U32.wrap a) b = U32.wrap (a + b).
Proof. unfold U32.add, U32.wrap. now rewrite Zplus_mod_idemp_l. Qed.

Lemma sub_wrap a b : U32.sub (U32.wrap a) (U32.wrap b) = U32.wrap (a - b).
Proof. unfold U32.sub, U32.wrap. now rewrite <- Zminus_mod. Qed.

(** The signed reading of a wrapped value recovers every integer of the
    signed 32-bit range. *)
Lemma to_int_wrap d : - U32.half <= d < U32.half -> U32.to_int (U32.wrap d) = d.
Proof.
  intros Hd. unfold U32.to_int, U32.wrap.
  rewrite half_eq, modulus_eq in *.
  destruct (Z_lt_le_dec d 0) as [Hneg|Hpos].
  - assert (E : d mod 4294967296 = d + 4294967296).
    { symmetry. apply (Z.mod_unique _ _ (-1)); lia. }
    rewrite E. destruct (Z.ltb_spec (d + 4294967296) 2147483648); lia.
  - rewrite Z.mod_small by lia.
    destruct (Z.ltb_spec d 2147483648); lia.
Qed.

Lemma to_int_range x : U32.in_range x -> - U32.half <= U32.to_int x < U32.half.
Proof.
  unfold U32.in_range, U32.to_int. rewrite half_eq, modulus_eq.
  intros Hx. destruct (Z.ltb_spec x 2147483648); lia.
Qed.

(** [to_int] only subtracts a multiple of the modulus. *)
Lemma to_int_congr x : U32.wrap (U32.to_int x) = U32.wrap x.
Proof.
  unfold U32.to_int, U32.wrap. destruct (x <? U32.half); [reflexivity|].
  replace (x - U32.modulus) with (x + (-1) * U32.modulus) by lia.
  apply Z_mod_plus_full.
Qed.

(** The signed difference of two wrapped counters is their true difference
    whenever that fits in 32 signed bits. *)
Lemma signed_sub_exact a b :
  - U32.half <= a - b < U32.half ->
  U32.to_int (U32.sub (U32.wrap a) (U32.wrap b)) = a - b.
Proof. intros Hd. rewrite sub_wrap. now apply to_int_wrap. Qed.

End U32Facts.

(** ** Facts about the ring *)

Module SPMCFacts.
Import SPMC.

Section Basic.
Context {T : Type} `{Inhabited T}.
Variable CNT : Z.

Lemma alter_twice {A} (f g : A -> A) (i : nat) (l : list A) :
  alter g i (alter f i l) = alter (fun x => g (f x)) i l.
Proof.
  apply list_eq. intros j. destruct (decide (i = j)) as [->|Hne].
  - rewrite !list_lookup_alter_eq. now destruct (l !! j).
  - now rewrite !list_lookup_alter_ne.
Qed.

(** [read] unfolded: one load, one test, at most one update of the cursor. *)
Lemma read_unfold (w : World T) :
  read CNT w =
  let n := next_idx (reader w) in
  let i := slot_of CNT n in
  let o := observed CNT w in
  if signed_diff CNT w <? 0
  then (None, w, [EvLoadIdx i o])
  else (Some i, set_next_idx (U32.add o 1) w, [EvLoadIdx i o]).
Proof.
  unfold read, signed_diff, observed, Eff.bind, Eff.gets, Eff.zoom, load_idx,
    Eff.ret, Eff.modify, set_queue.
  destruct w as [s r]; simpl.
  destruct (U32.to_int _ <? 0); reflexivity.
Qed.

Lemma read_keeps_queue (w : World T) :
  queue (Eff.state (read CNT w)) = queue w.
Proof.
  rewrite read_unfold. cbv zeta.
  destruct (signed_diff CNT w <? 0); reflexivity.
Qed.

(** [write] unfolded. *)
Lemma write_unfold (writer : T -> T) (s : SPMCQueue T) :
  write CNT writer s =
  let w := U32.add (write_idx s) 1 in
  let i := slot_of CNT w in
  (tt,
   mkQueue (alter (fun b => mkBlock w (writer (data b))) i (blks s)) w,
   [EvWriter i; EvStoreIdx i w]).
Proof.
  unfold write, Eff.bind, incr_write_idx, call_writer, Eff.gets, store_idx.
  simpl. rewrite alter_twice. reflexivity.
Qed.

Lemma write_copy_unfold (d : T) (s : SPMCQueue T) :
  write_copy CNT d s =
  let w := U32.add (write_idx s) 1 in
  let i := slot_of CNT w in
  (tt,
   mkQueue (alter (fun b => mkBlock w d) i (blks s)) w,
   [EvAssign i; EvStoreIdx i w]).
Proof.
  unfold write_copy, Eff.bind, incr_write_idx, assign_data, Eff.gets, store_idx.
  simpl. rewrite alter_twice. reflexivity.
Qed.

Lemma write_copy_as_write (d : T) (s : SPMCQueue T) :
  Eff.state (write_copy CNT d s) = Eff.state (write CNT (fun _ => d) s).
Proof. now rewrite write_copy_unfold, write_unfold. Qed.

Lemma writes_snoc (ws : list (T -> T)) (f : T -> T) (s : SPMCQueue T) :
  writes CNT (ws ++ [f]) s = Eff.state (write CNT f (writes CNT ws s)).
Proof. unfold writes. now rewrite fold_left_app. Qed.

Lemma writes_app (ws1 ws2 : list (T -> T)) (s : SPMCQueue T) :
  writes CNT (ws1 ++ ws2) s = writes CNT ws2 (writes CNT ws1 s).
Proof. unfold writes. now rewrite fold_left_app. Qed.

Lemma writes_copy_as_writes (ds : list T) (s : SPMCQueue T) :
  writes_copy CNT ds s = writes CNT (map (fun d _ => d) ds) s.
Proof.
  revert s. induction ds as [|d ds IH]; intros s; [reflexivity|].
  simpl. rewrite write_copy_as_write. apply IH.
Qed.

End Basic.

(** *** Consequences of the capacity check *)

Section Capacity.
Variable CNT : Z.
Hypothesis Hok : static_assert_ok CNT = true.

Lemma capacity_bounds : 0 < CNT < U32.modulus /\ Z.land CNT (CNT - 1) = 0.
Proof.
  unfold static_assert_ok in Hok.
  repeat (apply andb_prop in Hok; destruct Hok as [Hok ?]).
  apply negb_true_iff in H0. lia.
Qed.

(** A constant accepted by the check is a power of two below [2^32]. *)
Lemma capacity_pow2 : exists p, 0 <= p <= 31 /\ CNT = 2 ^ p.
Proof.
  destruct capacity_bounds as [[Hpos Hlt] Hland].
  pose proof (Z.log2_spec CNT Hpos) as [Hlo Hhi].
  pose proof (Z.log2_nonneg CNT) as Hp.
  set (p := Z.log2 CNT) in *.
  assert (Hp31 : p <= 31).
  { destruct (Z_le_gt_dec p 31) as [|Hgt]; [assumption|exfalso].
    assert (2 ^ 32 <= 2 ^ p) by (apply Z.pow_le_mono_r; lia).
    unfold U32.modulus in Hlt. lia. }
  exists p. split; [lia|].
  destruct (Z.eq_dec CNT (2 ^ p)) as [|Hne]; [assumption|exfalso].
  assert (Hlog : Z.log2 (CNT - 1) = p) by (apply Z.log2_unique; lia).
  assert (Hb1 : Z.testbit CNT p = true) by (apply Z.bit_log2; lia).
  assert (Hb2 : Z.testbit (CNT - 1) p = true).
  { rewrite <- Hlog. apply Z.bit_log2.
    assert (0 < 2 ^ p) by (apply Z.pow_pos_nonneg; lia). lia. }
  assert (Hb : Z.testbit (Z.land CNT (CNT - 1)) p = true)
    by (rewrite Z.land_spec, Hb1, Hb2; reflexivity).
  rewrite Hland, Z.bits_0 in Hb. discriminate.
Qed.

Lemma capacity_pos : 0 < CNT.
Proof. apply capacity_bounds. Qed.

Lemma capacity_le_half : CNT <= U32.half.
Proof.
  destruct capacity_pow2 as (p & Hp & ->). unfold U32.half.
  apply Z.pow_le_mono_r; lia.
Qed.

Lemma capacity_divides : (CNT | U32.modulus).
Proof.
  destruct capacity_pow2 as (p & Hp & ->). unfold U32.modulus.
  exists (2 ^ (32 - p)). rewrite <- Z.pow_add_r by lia. f_equal. lia.
Qed.

(** The slot of a wrapped counter is the slot of the unbounded one. *)
Lemma wrap_mod_capacity x : U32.wrap x mod CNT = x mod CNT.
Proof.
  unfold U32.wrap. apply Z.mod_mod_divide, capacity_divides.
Qed.

Lemma slot_of_wrap x : slot_of CNT (U32.wrap x) = slot_of CNT x.
Proof. unfold slot_of. now rewrite wrap_mod_capacity. Qed.

Lemma slot_of_lt x : (slot_of CNT x < Z.to_nat CNT)%nat.
Proof.
  unfold slot_of. pose proof capacity_pos.
  pose proof (Z.mod_pos_bound x CNT ltac:(lia)). lia.
Qed.

(** *** The last write into a slot *)

Lemma last_write_step (k : nat) (i : Z) :
  last_write CNT (S k) i =
  if Z.of_nat (S k) mod CNT =? i then Z.of_nat (S k) else last_write CNT k i.
Proof. reflexivity. Qed.

Lemma last_write_range (k : nat) (i : Z) : 0 <= last_write CNT k i <= Z.of_nat k.
Proof.
  induction k as [|k IH]; [simpl; lia|].
  rewrite last_write_step. destruct (_ =? _); lia.
Qed.

Lemma last_write_congr (k : nat) (i : Z) :
  last_write CNT k i = 0 \/
  (1 <= last_write CNT k i /\ last_write CNT k i mod CNT = i).
Proof.
  induction k as [|k IH]; [now left|].
  rewrite last_write_step. destruct (Z.eqb_spec (Z.of_nat (S k) mod CNT) i).
  - right. split; [lia|assumption].
  - exact IH.
Qed.

Lemma last_write_largest (k : nat) (i s : Z) :
  1 <= s <= Z.of_nat k -> s mod CNT = i -> s <= last_write CNT k i.
Proof.
  induction k as [|k IH]; intros Hs Hmod; [lia|].
  rewrite last_write_step. destruct (Z.eqb_spec (Z.of_nat (S k) mod CNT) i).
  - lia.
  - assert (s <> Z.of_nat (S k)) by congruence.
    apply IH; [lia|assumption].
Qed.

Lemma last_write_mono (k k' : nat) (i : Z) :
  (k <= k')%nat -> last_write CNT k i <= last_write CNT k' i.
Proof.
  induction 1 as [|k' Hle IH]; [lia|].
  rewrite last_write_step. destruct (_ =? _); [|exact IH].
  pose proof (last_write_range k i). lia.
Qed.

Lemma last_write_none (k : nat) (i : Z) :
  (forall s, 1 <= s <= Z.of_nat k -> s mod CNT <> i) -> last_write CNT k i = 0.
Proof.
  intros Hnone. destruct (last_write_congr k i) as [|[Hge Hmod]]; [assumption|].
  exfalso. apply (Hnone (last_write CNT k i)); [|assumption].
  pose proof (last_write_range k i). lia.
Qed.

Lemma last_write_hit (k : nat) (i : Z) :
  (1 <= k)%nat -> Z.of_nat k mod CNT = i -> last_write CNT k i = Z.of_nat k.
Proof.
  destruct k as [|k]; [lia|]. intros _ Hmod.
  rewrite last_write_step. apply Z.eqb_eq in Hmod. now rewrite Hmod.
Qed.

(** The slot a new reader will poll holds a sequence between [k + 1 - CNT]
    and [k]: the write it waits for has not happened. *)
Lemma last_write_before_next (k : nat) :
  Z.of_nat k + 1 - CNT <= last_write CNT k ((Z.of_nat k + 1) mod CNT)
  <= Z.of_nat k.
Proof.
  pose proof capacity_pos as Hpos.
  split; [|apply last_write_range].
  destruct (Z_le_gt_dec (Z.of_nat k + 1 - CNT) 0) as [Hsmall|Hbig].
  - pose proof (last_write_range k ((Z.of_nat k + 1) mod CNT)). lia.
  - apply last_write_largest; [lia|].
    replace (Z.of_nat k + 1 - CNT) with (Z.of_nat k + 1 + (-1) * CNT) by lia.
    apply Z_mod_plus_full.
Qed.

(** After at least one more write that slot holds a sequence past [k]. *)
Lemma last_write_after_next (k m : nat) :
  (1 <= m)%nat ->
  Z.of_nat k + 1 <= last_write CNT (k + m) ((Z.of_nat k + 1) mod CNT)
  <= Z.of_nat k + Z.of_nat m.
Proof.
  intros Hm. split.
  - apply last_write_largest; [lia|reflexivity].
  - pose proof (last_write_range (k + m) ((Z.of_nat k + 1) mod CNT)). lia.
Qed.

(** Among any [CNT] consecutive writes exactly one lands in a given slot. *)
Lemma one_hit_per_revolution (k : Z) (i : nat) :
  (i < Z.to_nat CNT)%nat ->
  exists j, 1 <= j <= CNT /\ slot_of CNT (k + j) = i /\
    forall j', 1 <= j' <= CNT -> slot_of CNT (k + j') = i -> j' = j.
Proof.
  intros Hi. pose proof capacity_pos as Hpos.
  pose proof (Z.mod_pos_bound (Z.of_nat i - k - 1) CNT Hpos) as Hb.
  exists ((Z.of_nat i - k - 1) mod CNT + 1).
  assert (Hm : (k + ((Z.of_nat i - k - 1) mod CNT + 1)) mod CNT = Z.of_nat i).
  { replace (k + ((Z.of_nat i - k - 1) mod CNT + 1))
      with (k + 1 + (Z.of_nat i - k - 1) mod CNT) by lia.
    rewrite Zplus_mod_idemp_r.
    replace (k + 1 + (Z.of_nat i - k - 1)) with (Z.of_nat i) by lia.
    apply Z.mod_small. lia. }
  split; [lia|]. split; [unfold slot_of; rewrite Hm; apply Nat2Z.id|].
  intros j' Hj' Hslot. unfold slot_of in Hslot.
  pose proof (Z.mod_pos_bound (k + j') CNT Hpos) as Hb'.
  assert (Hm' : (k + j') mod CNT = Z.of_nat i) by lia.
  pose proof (Z.div_mod (k + j') CNT ltac:(lia)) as E1.
  pose proof (Z.div_mod (k + ((Z.of_nat i - k - 1) mod CNT + 1)) CNT ltac:(lia))
    as E2.
  rewrite Hm' in E1. rewrite Hm in E2.
  set (q1 := (k + j') / CNT) in *.
  set (q2 := (k + ((Z.of_nat i - k - 1) mod CNT + 1)) / CNT) in *.
  set (j := (Z.of_nat i - k - 1) mod CNT + 1) in *.
  assert (Hq : q1 = q2) by nia.
  subst q1. lia.
Qed.

End Capacity.

(** *** The ring after any number of writes *)

Section History.
Context {T : Type} `{Inhabited T}.
Variable CNT : Z.
Hypothesis Hok : static_assert_ok CNT = true.

Lemma init_wf : wf CNT (init (T:=T) CNT).
Proof.
  split; simpl.
  - apply length_replicate.
  - unfold U32.in_range. rewrite U32Facts.modulus_eq. lia.
Qed.

Lemma init_idx (i : nat) : idx (blks (init (T:=T) CNT) !!! i) = 0.
Proof.
  simpl. destruct (decide (i < Z.to_nat CNT)%nat) as [Hlt|Hge].
  - now rewrite lookup_total_replicate_2.
  - rewrite list_lookup_total_alt, lookup_ge_None_2
      by (rewrite length_replicate; lia).
    reflexivity.
Qed.

Lemma write_wf (f : T -> T) (s : SPMCQueue T) :
  wf CNT s -> wf CNT (Eff.state (write CNT f s)).
Proof.
  intros [Hlen _]. rewrite write_unfold. split; simpl.
  - now rewrite length_alter.
  - apply U32Facts.wrap_range.
Qed.

(** State of the ring after the writes [ws], whatever their number: the
    counter is the number of writes reduced modulo [2^32], and every slot holds
    the (reduced) number of the last write that landed in it, together with
    the payload that write produced. *)
Lemma writes_init_state (ws : list (T -> T)) :
  let s := writes CNT ws (init CNT) in
  write_idx s = U32.wrap (Z.of_nat (length ws)) /\
  length (blks s) = Z.to_nat CNT /\
  forall i : nat, (i < Z.to_nat CNT)%nat ->
    idx (blks s !!! i) = U32.wrap (last_write CNT (length ws) (Z.of_nat i)) /\
    (1 <= last_write CNT (length ws) (Z.of_nat i) ->
     exists f old,
       ws !! Z.to_nat (last_write CNT (length ws) (Z.of_nat i) - 1) = Some f /\
       data (blks s !!! i) = f old).
Proof.
  induction ws as [|f ws IH] using rev_ind.
  - simpl. split; [reflexivity|]. split; [apply length_replicate|].
    intros i Hi. split; [|lia].
    now rewrite lookup_total_replicate_2.
  - cbv zeta in *. destruct IH as (Hw & Hlen & Hslots).
    rewrite writes_snoc, write_unfold. cbv zeta. simpl.
    rewrite length_app, Nat.add_1_r. simpl length.
    set (k := length ws) in *.
    assert (Hw' : U32.add (write_idx (writes CNT ws (init CNT))) 1
                  = U32.wrap (Z.of_nat (S k))).
    { rewrite Hw, U32Facts.add_wrap_l. f_equal. lia. }
    rewrite Hw'. split; [reflexivity|]. split; [now rewrite length_alter|].
    intros i Hi. rewrite last_write_step, (slot_of_wrap CNT Hok).
    pose proof (capacity_pos CNT Hok) as Hpos.
    pose proof (Z.mod_pos_bound (Z.of_nat (S k)) CNT Hpos) as Hmod.
    destruct (Z.eqb_spec (Z.of_nat (S k) mod CNT) (Z.of_nat i)) as [Heq|Hne].
    + assert (Hi0 : slot_of CNT (Z.of_nat (S k)) = i)
        by (unfold slot_of; rewrite Heq; apply Nat2Z.id).
      rewrite Hi0, list_lookup_total_alter_eq by lia. simpl.
      split; [reflexivity|]. intros _.
      exists f, (data (blks (writes CNT ws (init CNT)) !!! i)).
      split; [|reflexivity].
      replace (Z.to_nat (Z.of_nat (S k) - 1)) with k by lia.
      now rewrite lookup_app_r, Nat.sub_diag by (fold k; lia).
    + assert (Hi0 : slot_of CNT (Z.of_nat (S k)) <> i)
        by (unfold slot_of; lia).
      rewrite list_lookup_total_alter_ne by assumption.
      destruct (Hslots i Hi) as [Hidx Hdata]. split; [assumption|].
      intros Hge. destruct (Hdata Hge) as (g & old & Hg & Hd).
      exists g, old. split; [|assumption].
      now apply lookup_app_l_Some.
Qed.

Lemma writes_init_wf (ws : list (T -> T)) : wf CNT (writes CNT ws (init CNT)).
Proof.
  destruct (writes_init_state ws) as (Hw & Hlen & _). split; [assumption|].
  rewrite Hw. apply U32Facts.wrap_range.
Qed.

(** The world of a reader created after the writes [before] and polled
    after the further writes [after]. *)
Lemma reader_world_observed (before after : list (T -> T)) :
  let s0 := writes CNT before (init CNT) in
  let s1 := writes CNT after s0 in
  let w := mkWorld s1 (getReader s0) in
  let k := length before in
  next_idx (reader w) = U32.wrap (Z.of_nat k + 1) /\
  observed CNT w =
    U32.wrap (last_write CNT (k + length after) ((Z.of_nat k + 1) mod CNT)) /\
  signed_diff CNT w =
    U32.to_int (U32.wrap
      (last_write CNT (k + length after) ((Z.of_nat k + 1) mod CNT)
       - (Z.of_nat k + 1))).
Proof.
  cbv zeta.
  destruct (writes_init_state before) as (Hw0 & _ & _).
  destruct (writes_init_state (before ++ after)) as (_ & _ & Hslots).
  rewrite writes_app, length_app in Hslots. cbv zeta in *.
  assert (Hn : U32.add (write_idx (writes CNT before (init CNT))) 1
               = U32.wrap (Z.of_nat (length before) + 1))
    by (rewrite Hw0; apply U32Facts.add_wrap_l).
  assert (Ho : observed CNT
                 (mkWorld (writes CNT after (writes CNT before (init CNT)))
                          (getReader (writes CNT before (init CNT))))
               = U32.wrap (last_write CNT (length before + length after)
                             ((Z.of_nat (length before) + 1) mod CNT))).
  { unfold observed. simpl. rewrite Hn, (slot_of_wrap CNT Hok).
    destruct (Hslots (slot_of CNT (Z.of_nat (length before) + 1))
                (slot_of_lt CNT Hok _)) as [-> _].
    unfold slot_of. rewrite Z2Nat.id; [reflexivity|].
    apply Z.mod_pos_bound, (capacity_pos CNT Hok). }
  split; [exact Hn|]. split; [exact Ho|].
  unfold signed_diff. rewrite Ho. simpl. rewrite Hn.
  now rewrite U32Facts.sub_wrap.
Qed.

End History.

Lemma wrap_congr_mid a b b' c :
  U32.wrap b = U32.wrap b' -> U32.wrap (a + b + c) = U32.wrap (a + b' + c).
Proof.
  unfold U32.wrap. rewrite U32Facts.modulus_eq. intros Hb.
  pose proof (Z.div_mod b 4294967296 ltac:(lia)) as E1.
  pose proof (Z.div_mod b' 4294967296 ltac:(lia)) as E2.
  replace (a + b + c)
    with (a + b' + c + (b / 4294967296 - b' / 4294967296) * 4294967296) by lia.
  apply Z_mod_plus_full.
Qed.

(** *** The claims about [read], [write] and [getReader] *)

(** C1. [read] returns none exactly when the signed 32-bit difference between
    the sequence loaded from slot [next_idx mod CNT] and [next_idx] is
    negative.  The difference is given here by what it is, not by the
    function that computes it: [d] is the integer of [[-2^31, 2^31)] that is
    congruent to [observed - next_idx] modulo [2^32].  When [d] is not
    negative, [read] returns a view of that slot's payload and sets [next_idx]
    to the loaded sequence plus one, which is [next_idx + d + 1] modulo
    [2^32]: the [d] sequence numbers [next_idx, ..., next_idx + d - 1] are
    passed over. *)
Theorem read_none_iff_negative {T} `{Inhabited T} (CNT : Z) (w : World T)
    (d : Z) :
  let n := next_idx (reader w) in
  let i := Z.to_nat (n mod CNT) in
  let o := idx (blks (queue w) !!! i) in
  - 2 ^ 31 <= d < 2 ^ 31 ->
  (o - n) mod 2 ^ 32 = d mod 2 ^ 32 ->
  (Eff.result (read CNT w) = None <-> d < 0) /\
  (0 <= d ->
     Eff.result (read CNT w) = Some i /\
     next_idx (reader (Eff.state (read CNT w))) = (o + 1) mod 2 ^ 32 /\
     next_idx (reader (Eff.state (read CNT w))) = (n + d + 1) mod 2 ^ 32 /\
     queue (Eff.state (read CNT w)) = queue w /\
     deref (queue (Eff.state (read CNT w))) i = data (blks (queue w) !!! i)).
Proof.
  cbv zeta. intros Hd Hcong.
  assert (Hsd : signed_diff CNT w = d).
  { unfold signed_diff, observed, slot_of, U32.sub.
    change (U32.wrap ?x) with (x mod 2 ^ 32). rewrite Hcong.
    apply (U32Facts.to_int_wrap d). exact Hd. }
  rewrite read_unfold. cbv zeta. rewrite Hsd.
  destruct (Z.ltb_spec d 0) as [Hneg|Hpos];
    unfold Eff.result, Eff.state; cbn [fst snd].
  - split; [tauto|]. intros Hge; lia.
  - split; [split; [discriminate|lia]|]. intros _.
    split; [reflexivity|]. split; [reflexivity|].
    split; [|split; reflexivity].
    unfold set_next_idx, observed, slot_of. cbn [reader next_idx].
    set (n := next_idx (reader w)) in *.
    set (o := idx (blks (queue w) !!! Z.to_nat (n mod CNT))) in *.
    unfold U32.add. replace (o + 1) with (n + (o - n) + 1) by lia.
    apply wrap_congr_mid. exact Hcong.
Qed.

Lemma read_none_iff_negative_witness :
  Eff.result (read 4 sample_idle) = None /\
  (Eff.result (read 4 sample_ready) = Some 1%nat /\
   next_idx (reader (Eff.state (read 4 sample_ready))) = 2) /\
  (Eff.result
     (read 4 (mkWorld (writes_copy 4 [10; 20; 30; 40; 50; 60] sample_fresh)
                      (getReader sample_fresh))) = Some 1%nat /\
   next_idx
     (reader
        (Eff.state
           (read 4 (mkWorld (writes_copy 4 [10; 20; 30; 40; 50; 60] sample_fresh)
                            (getReader sample_fresh))))) = 6) /\
  Eff.result (read 4 sample_wrapped_idle) = None.
Proof.
  split; [|split; [|split]].
  - apply (read_none_iff_negative 4 sample_idle (-1)); [lia|reflexivity|lia].
  - destruct (read_none_iff_negative 4 sample_ready 0) as [_ Hready];
      [lia|reflexivity|].
    destruct Hready as (Hres & _ & Hnext & _); [lia|].
    split; [exact Hres|exact Hnext].
  - destruct (read_none_iff_negative 4
                (mkWorld (writes_copy 4 [10; 20; 30; 40; 50; 60] sample_fresh)
                         (getReader sample_fresh)) 4) as [_ Hready];
      [lia|reflexivity|].
    destruct Hready as (Hres & _ & Hnext & _); [lia|].
    split; [exact Hres|exact Hnext].
  - apply (read_none_iff_negative 4 sample_wrapped_idle (-4));
      [lia|reflexivity|lia].
Defined.

(** C10. A [read] that returns none leaves the reader's cursor and the whole
    ring as they were; its only memory access is the load of the sequence. *)
Theorem read_none_changes_nothing {T} `{Inhabited T} (CNT : Z) (w : World T) :
  Eff.result (read CNT w) = None ->
  Eff.state (read CNT w) = w /\
  next_idx (reader (Eff.state (read CNT w))) = next_idx (reader w) /\
  blks (queue (Eff.state (read CNT w))) = blks (queue w) /\
  Eff.events (read CNT w)
    = [EvLoadIdx (slot_of CNT (next_idx (reader w))) (observed CNT w)] /\
  read CNT (Eff.state (read CNT w)) = read CNT w.
Proof.
  intros Hnone.
  assert (Hd : (signed_diff CNT w <? 0) = true).
  { rewrite read_unfold in Hnone. cbv zeta in Hnone.
    destruct (signed_diff CNT w <? 0); [reflexivity|discriminate]. }
  assert (E : read CNT w
              = (None, w,
                 [EvLoadIdx (slot_of CNT (next_idx (reader w))) (observed CNT w)]))
    by (rewrite read_unfold; cbv zeta; now rewrite Hd).
  rewrite E. unfold Eff.state, Eff.events. cbn [fst snd].
  repeat split; try reflexivity. exact E.
Qed.

Lemma read_none_changes_nothing_witness :
  Eff.result (read 4 sample_idle) = None /\
  Eff.state (read 4 sample_idle) = sample_idle.
Proof.
  split; [reflexivity|].
  apply (read_none_changes_nothing 4 sample_idle). reflexivity.
Defined.

(** C2. One call of [write] increments [write_idx] by one (as a [uint32_t]:
    modulo [2^32], and by exactly one below the last value), invokes the
    producer function once, on the payload of slot [write_idx mod CNT], and
    then stores the new [write_idx] into that slot's sequence; no other slot
    changes.  The copy form does the same with an assignment in place of the
    call.  On a fresh ring the first write stores 1 into slot [1 mod CNT]. *)
Theorem write_increments_calls_stores {T} `{Inhabited T} (CNT : Z)
    (writer : T -> T) (d : T) (s : SPMCQueue T) :
  static_assert_ok CNT = true ->
  wf CNT s ->
  let w := U32.add (write_idx s) 1 in
  let i := slot_of CNT w in
  let s' := Eff.state (write CNT writer s) in
  write_idx s' = w /\
  Eff.state (write_copy CNT d s) = Eff.state (write CNT (fun _ => d) s) /\
  Eff.events (write_copy CNT d s) = [EvAssign i; EvStoreIdx i w] /\
  (write_idx s + 1 < U32.modulus -> w = write_idx s + 1) /\
  Eff.events (write CNT writer s) = [EvWriter i; EvStoreIdx i w] /\
  idx (blks s' !!! i) = w /\
  data (blks s' !!! i) = writer (data (blks s !!! i)) /\
  (forall j : nat, j <> i -> blks s' !! j = blks s !! j) /\
  length (blks s') = length (blks s) /\
  (let s1 := Eff.state (write CNT writer (init CNT)) in
   write_idx s1 = 1 /\
   Eff.events (write CNT writer (init CNT))
     = [EvWriter (Z.to_nat (1 mod CNT)); EvStoreIdx (Z.to_nat (1 mod CNT)) 1] /\
   idx (blks s1 !!! Z.to_nat (1 mod CNT)) = 1 /\
   data (blks s1 !!! Z.to_nat (1 mod CNT)) = writer inhabitant).
Proof.
  intros Hok [Hlen Hrange]. cbv zeta.
  rewrite !write_unfold, write_copy_unfold. cbv zeta.
  unfold Eff.state, Eff.events. cbn [fst snd blks write_idx].
  pose proof (slot_of_lt CNT Hok (U32.add (write_idx s) 1)) as Hi.
  split; [reflexivity|]. split; [reflexivity|]. split; [reflexivity|]. split.
  { intros Hlt. unfold U32.add. apply U32Facts.wrap_small.
    unfold U32.in_range in *. lia. }
  split; [reflexivity|].
  rewrite !list_lookup_total_alter_eq by lia. simpl.
  split; [reflexivity|]. split; [reflexivity|]. split.
  { intros j Hj. now rewrite list_lookup_alter_ne. }
  split; [apply length_alter|].
  change (write_idx (init CNT)) with 0.
  change (U32.add 0 1) with 1.
  pose proof (slot_of_lt CNT Hok 1) as Hi1. unfold slot_of in Hi1.
  unfold slot_of.
  split; [reflexivity|]. split; [reflexivity|].
  rewrite list_lookup_total_alter_eq by (simpl; rewrite length_replicate; lia).
  simpl. split; [reflexivity|].
  now rewrite lookup_total_replicate_2.
Qed.

Lemma write_increments_calls_stores_witness :
  write_idx (Eff.state (write 4 (fun x => x + 5) sample_one_write)) = 2 /\
  Eff.events (write 4 (fun x => x + 5) sample_one_write)
    = [EvWriter 2%nat; EvStoreIdx 2%nat 2].
Proof.
  destruct (write_increments_calls_stores 4 (fun x => x + 5) 0 sample_one_write)
    as (Hw & _ & _ & _ & Hev & _).
  - reflexivity.
  - split; [reflexivity|]. vm_compute. split; [discriminate|reflexivity].
  - split; [exact Hw | exact Hev].
Defined.

(** C4. Sequence arithmetic is modulo [2^32].  Whenever the unbounded
    sequence [O] held by the polled slot and the unbounded sequence [X] the
    reader expects differ by an amount in the signed 32-bit range, the value
    [read] tests is that difference, so the test is negative exactly when
    [O < X] and [read] returns none exactly then, whether or not the 32-bit
    counters have wrapped in between. *)
Theorem signed_test_across_wrap {T} `{Inhabited T} (CNT : Z) (w : World T)
    (O X : Z) :
  next_idx (reader w) = U32.wrap X ->
  observed CNT w = U32.wrap O ->
  - U32.half <= O - X < U32.half ->
  signed_diff CNT w = O - X /\
  (signed_diff CNT w < 0 <-> O - X < 0) /\
  (Eff.result (read CNT w) = None <-> O < X) /\
  (X <= O -> next_idx (reader (Eff.state (read CNT w))) = U32.wrap (O + 1)).
Proof.
  intros Hn Ho Hd.
  assert (E : signed_diff CNT w = O - X).
  { unfold signed_diff. rewrite Ho, Hn. now apply U32Facts.signed_sub_exact. }
  split; [exact E|]. split; [rewrite E; tauto|].
  rewrite read_unfold. cbv zeta. rewrite E, Ho.
  destruct (Z.ltb_spec (O - X) 0); simpl.
  - split; [split; [lia|reflexivity]|]. lia.
  - split; [split; [discriminate|lia]|]. intros _.
    apply U32Facts.add_wrap_l.
Qed.

Lemma signed_test_across_wrap_witness :
  Eff.result (read 4 sample_wrapped_idle) = None /\
  signed_diff 4 sample_wrapped_ready = 0 /\
  next_idx (reader (Eff.state (read 4 sample_wrapped_ready))) = 1.
Proof.
  destruct (signed_test_across_wrap 4 sample_wrapped_idle
              4294967292 4294967296) as (_ & _ & Hnone & _);
    [reflexivity | reflexivity | vm_compute; split; [discriminate|reflexivity] |].
  destruct (signed_test_across_wrap 4 sample_wrapped_ready
              4294967296 4294967296) as (Hd & _ & _ & Hnext);
    [reflexivity | reflexivity | vm_compute; split; [discriminate|reflexivity] |].
  split; [apply Hnone; lia|]. split; [exact Hd|].
  rewrite Hnext by lia. reflexivity.
Defined.

(** Readiness after any history, however long: a reader created after the
    writes [before] gets none while nothing more is written, and a record as
    soon as between 1 and [2^31] further writes have been made. *)
Lemma ready_after_any_history {T} `{Inhabited T} (CNT : Z)
    (before after : list (T -> T)) :
  static_assert_ok CNT = true ->
  Z.of_nat (length after) <= U32.half ->
  let s0 := writes CNT before (init CNT) in
  Eff.result (read CNT (mkWorld (writes CNT after s0) (getReader s0))) = None
  <-> after = [].
Proof.
  intros Hok Hm. cbv zeta.
  destruct (reader_world_observed CNT Hok before after) as (_ & _ & Hd).
  cbv zeta in Hd. rewrite read_unfold. cbv zeta. rewrite Hd.
  pose proof (capacity_le_half CNT Hok) as Hcap.
  pose proof (capacity_pos CNT Hok) as Hpos.
  destruct after as [|f after].
  - rewrite Nat.add_0_r.
    pose proof (last_write_before_next CNT Hok (length before)) as HL.
    rewrite U32Facts.to_int_wrap by lia.
    destruct (Z.ltb_spec
      (last_write CNT (length before) ((Z.of_nat (length before) + 1) mod CNT)
       - (Z.of_nat (length before) + 1)) 0); [tauto|lia].
  - pose proof (last_write_after_next CNT (length before) (length (f :: after))
                  ltac:(simpl; lia)) as HL.
    rewrite U32Facts.to_int_wrap by lia.
    destruct (Z.ltb_spec
      (last_write CNT (length before + length (f :: after))
         ((Z.of_nat (length before) + 1) mod CNT)
       - (Z.of_nat (length before) + 1)) 0); [lia|].
    simpl. split; discriminate.
Qed.





(** C3, as written.  The data-model sentence (slot [i] takes the values
    [i+1, i+1+CNT, ...]) fails on the ring of capacity 4 after one write:
    slot 1 then holds sequence 1, which is neither 0 nor of the form
    [2 + 4 * j]. *)
Lemma slot_values_as_listed_fail :
  ~ (forall (ws : list (Z -> Z)) (i : nat),
       (i < 4)%nat ->
       spec_slot_values 4 (Z.of_nat i)
         (idx (blks (writes 4 ws (init 4)) !!! i))).
Proof.
  intros Hall. specialize (Hall [fun x => x] 1%nat ltac:(lia)).
  change (idx (blks (writes 4 [fun x : Z => x] (init 4)) !!! 1%nat)) with 1 in Hall.
  destruct Hall as [H0|(j & Hj & Hv)]; lia.
Qed.

(** The bound on the number of writes is needed: the write number [2^32] is
    stored as 0, below the [2^32 - 4] that slot 0 held before it. *)
Lemma slot_seq_decreases_at_wrap :
  exists ws1 ws2 : list (Z -> Z),
    idx (blks (writes 4 (ws1 ++ ws2) (init 4)) !!! 0%nat)
    < idx (blks (writes 4 ws1 (init 4)) !!! 0%nat).
Proof.
  remember (Z.to_nat 4294967292) as n eqn:Hn.
  assert (HnZ : Z.of_nat n = 4294967292) by (subst n; apply Z2Nat.id; lia).
  assert (Hok : static_assert_ok 4 = true) by reflexivity.
  exists (replicate n (fun x => x)), (replicate 4 (fun x => x)).
  destruct (writes_init_state 4 Hok (replicate n (fun x : Z => x)))
    as (_ & _ & H1).
  destruct (writes_init_state 4 Hok
              (replicate n (fun x : Z => x) ++ replicate 4 (fun x => x)))
    as (_ & _ & H2).
  destruct (H1 0%nat ltac:(lia)) as [-> _].
  destruct (H2 0%nat ltac:(lia)) as [-> _].
  rewrite length_app, !length_replicate. change (Z.of_nat 0) with 0.
  rewrite (last_write_hit 4 n 0), (last_write_hit 4 (n + 4) 0).
  - rewrite Nat2Z.inj_add, HnZ. reflexivity.
  - lia.
  - rewrite Nat2Z.inj_add, HnZ. reflexivity.
  - lia.
  - rewrite HnZ. reflexivity.
Qed.

(** C3 as the program has it.  While fewer than [2^32] writes have been made,
    the sequence of the slot at ring index [i] is 0 on the fresh ring and,
    after [k] writes, the largest [s] with [1 <= s <= k] and [s mod CNT = i],
    or 0 if there is none; so it is 0 or one of [i, i+CNT, i+2*CNT, ...]
    (for slot 0: [CNT, 2*CNT, ...]); exactly one of any [CNT] consecutive
    writes lands in the slot; and the sequence never decreases from a prefix
    of the writes to the whole. *)
Theorem slot_seq_is_last_write {T} `{Inhabited T} (CNT : Z)
    (ws : list (T -> T)) (i : nat) :
  static_assert_ok CNT = true ->
  (i < Z.to_nat CNT)%nat ->
  Z.of_nat (length ws) < U32.modulus ->
  let v := idx (blks (writes CNT ws (init CNT)) !!! i) in
  idx (blks (init (T:=T) CNT) !!! i) = 0 /\
  v = last_write CNT (length ws) (Z.of_nat i) /\
  (v = 0 \/ (1 <= v <= Z.of_nat (length ws) /\ v mod CNT = Z.of_nat i)) /\
  (forall s, 1 <= s <= Z.of_nat (length ws) -> s mod CNT = Z.of_nat i -> s <= v) /\
  ((forall s, 1 <= s <= Z.of_nat (length ws) -> s mod CNT <> Z.of_nat i) -> v = 0) /\
  (v <> 0 -> exists j, 0 <= j /\ v = Z.of_nat i + j * CNT) /\
  (forall k : Z, exists j,
     1 <= j <= CNT /\ slot_of CNT (k + j) = i /\
     forall j', 1 <= j' <= CNT -> slot_of CNT (k + j') = i -> j' = j) /\
  (forall ws1 ws2, ws = ws1 ++ ws2 ->
     idx (blks (writes CNT ws1 (init CNT)) !!! i) <= v).
Proof.
  intros Hok Hi Hlen. cbv zeta.
  pose proof (capacity_pos CNT Hok) as Hpos.
  assert (Hval : forall l : list (T -> T),
            Z.of_nat (length l) < U32.modulus ->
            idx (blks (writes CNT l (init CNT)) !!! i)
            = last_write CNT (length l) (Z.of_nat i)).
  { intros l Hl. destruct (writes_init_state CNT Hok l) as (_ & _ & Hslots).
    destruct (Hslots i Hi) as [-> _].
    pose proof (last_write_range CNT (length l) (Z.of_nat i)).
    apply U32Facts.wrap_small. unfold U32.in_range. lia. }
  rewrite (Hval ws Hlen).
  pose proof (last_write_range CNT (length ws) (Z.of_nat i)) as Hr.
  split; [apply init_idx|]. split; [reflexivity|]. split.
  { destruct (last_write_congr CNT (length ws) (Z.of_nat i)) as [|[? ?]];
      [now left|right; lia]. }
  split; [intros s; apply last_write_largest|].
  split; [apply last_write_none|]. split.
  { intros Hnz.
    destruct (last_write_congr CNT (length ws) (Z.of_nat i)) as [|[Hge Hmod]];
      [contradiction|].
    exists (last_write CNT (length ws) (Z.of_nat i) / CNT). split.
    - apply Z.div_pos; lia.
    - pose proof (Z.div_mod (last_write CNT (length ws) (Z.of_nat i)) CNT
                    ltac:(lia)). lia. }
  split; [intros k; now apply one_hit_per_revolution|].
  intros ws1 ws2 ->. rewrite length_app in *.
  rewrite Hval by lia. apply last_write_mono. lia.
Qed.

Lemma slot_seq_is_last_write_witness :
  idx (blks (writes 4 [fun _ => 1; fun _ => 2; fun _ => 3; fun _ => 4;
                       fun _ => 5; fun _ => 6] (init 4)) !!! 1%nat)
  = last_write 4 6 1 /\ last_write 4 6 1 = 5.
Proof.
  destruct (slot_seq_is_last_write 4
              [fun _ => 1; fun _ => 2; fun _ => 3; fun _ => 4;
               fun _ => 5; fun _ => 6] 1%nat)
    as (_ & Hv & _).
  - reflexivity.
  - vm_compute. lia.
  - vm_compute. reflexivity.
  - split; [exact Hv | reflexivity].
Defined.

End SPMCFacts.

(** ** Facts about the hub *)

Module HubFacts.
Import SPMC Hub.

(** *** The control operations unfolded *)

Lemma subscribe_unfold (t : DataType) (c : PyCallback) (h : MarketDataHub) :
  subscribe t c h =
  let n := next_subscriber_id_ h in
  (n,
   mkHub (queue_ h)
         (<[n := mkSubscriber n t c (Some n) true (getReader (queue_ h))]>
            (subscribers_ h))
         (n + 1),
   [HLock; HConstruct n; HGetReader n; HSetRunning n true; HLaunch n;
    HInsert n; HUnlock]).
Proof. reflexivity. Qed.

Lemma unsubscribe_absent (i : Z) (h : MarketDataHub) :
  subscribers_ h !! i = None ->
  unsubscribe i h = (tt, h, [HLock; HUnlock]).
Proof.
  intros Hnone. unfold unsubscribe, Eff.bind, Eff.emit, Eff.gets.
  rewrite Hnone. reflexivity.
Qed.

Lemma unsubscribe_present (i : Z) (h : MarketDataHub) (sub : Subscriber) :
  subscribers_ h !! i = Some sub ->
  Eff.state (unsubscribe i h)
  = mkHub (queue_ h) (delete i (subscribers_ h)) (next_subscriber_id_ h) /\
  Eff.events (unsubscribe i h)
  = [HLock; HSetRunning i false]
    ++ match thread sub with Some _ => [HJoin i] | None => [] end
    ++ [HErase i; HUnlock].
Proof.
  intros Hsome. unfold unsubscribe, Eff.bind, Eff.emit, Eff.gets.
  rewrite Hsome. unfold Eff.modify, Eff.state, Eff.events.
  destruct (thread sub); simpl; unfold set_subscribers_; simpl;
    rewrite delete_alter_eq; split; reflexivity.
Qed.

(** The state after [unsubscribe], whether or not the id is present. *)
Lemma unsubscribe_state (i : Z) (h : MarketDataHub) :
  Eff.state (unsubscribe i h)
  = mkHub (queue_ h) (delete i (subscribers_ h)) (next_subscriber_id_ h).
Proof.
  destruct (subscribers_ h !! i) as [sub|] eqn:Hl.
  - now destruct (unsubscribe_present i h sub Hl).
  - rewrite (unsubscribe_absent i h Hl). unfold Eff.state. simpl.
    rewrite delete_id by assumption. now destruct h.
Qed.

(** *** Identifiers in the table are below the counter *)

Lemma ids_below_counter_init : ids_below_counter hub_init.
Proof. intros i [x Hx]. simpl in Hx. now rewrite lookup_empty in Hx. Qed.

Lemma ids_below_counter_step (h : MarketDataHub) (o : hub_op) :
  ids_below_counter h -> ids_below_counter (apply_op h o).
Proof.
  intros Hinv i. destruct o as [d|t c|j|]; cbn [apply_op].
  - apply Hinv.
  - rewrite subscribe_unfold. unfold Eff.state. simpl.
    destruct (decide (next_subscriber_id_ h = i)) as [->|Hne].
    + intros _. lia.
    + rewrite lookup_insert_ne by assumption. intros Hi.
      specialize (Hinv i Hi). lia.
  - rewrite unsubscribe_state. simpl.
    destruct (decide (j = i)) as [->|Hne].
    + rewrite lookup_delete_eq. intros [x Hx]. discriminate.
    + rewrite lookup_delete_ne by assumption. apply Hinv.
  - unfold Eff.state. simpl. rewrite lookup_empty. intros [x Hx]. discriminate.
Qed.

Lemma ids_below_counter_run (ops : list hub_op) : ids_below_counter (run_ops ops).
Proof.
  unfold run_ops. induction ops as [|o ops IH] using rev_ind.
  - apply ids_below_counter_init.
  - rewrite fold_left_app. simpl. now apply ids_below_counter_step.
Qed.

Lemma fresh_id_absent (h : MarketDataHub) :
  ids_below_counter h -> subscribers_ h !! next_subscriber_id_ h = None.
Proof.
  intros Hinv. destruct (subscribers_ h !! next_subscriber_id_ h) eqn:Hl;
    [|reflexivity].
  specialize (Hinv (next_subscriber_id_ h) ltac:(rewrite Hl; eauto)). lia.
Qed.

(** [unsubscribe] of an identifier that is not in the table changes nothing:
    the hub is the same, no thread is joined, and the call only takes and
    releases the mutex.  Hence a second [unsubscribe] of the same identifier,
    after one that returned, changes nothing. *)
Lemma unsubscribe_absent_is_noop (ops : list hub_op) (i : Z) :
  let h := run_ops ops in
  (subscribers_ h !! i = None ->
     Eff.state (unsubscribe i h) = h /\
     subscriber_count (Eff.state (unsubscribe i h)) = subscriber_count h /\
     Eff.events (unsubscribe i h) = [HLock; HUnlock]) /\
  Eff.state (unsubscribe i (Eff.state (unsubscribe i h)))
    = Eff.state (unsubscribe i h).
Proof.
  cbv zeta. set (h := run_ops ops) in *. split.
  - intros Hnone. rewrite (unsubscribe_absent i h Hnone).
    repeat split; reflexivity.
  - rewrite !unsubscribe_state. simpl. now rewrite delete_delete_eq.
Qed.

(** *** The consumer loop *)

(** One pass through the loop body, case by case. *)
Lemma consumer_iteration_unfold (target : DataType) (cb : PyCallback)
    (w : World MarketData) :
  consumer_iteration target cb w =
  let w1 := Eff.state (read CNT w) in
  let l := map CRing (Eff.events (read CNT w)) in
  match Eff.result (read CNT w) with
  | None => (Next, w1, l ++ [CSleep])
  | Some p =>
      let rec := deref (queue w) p in
      if index rec =? target then
        match cb (index rec) rec with
        | Returned printed =>
            (Next, w1, l ++ CCall (index rec) rec :: map CPrint printed)
        | Threw e => (Escaped e, w1, l ++ [CCall (index rec) rec])
        | Undefined => (IterUndefined, w1, l ++ [CCall (index rec) rec])
        end
      else (Next, w1, l)
  end.
Proof.
  cbv zeta. rewrite <- (SPMCFacts.read_keeps_queue CNT w).
  unfold consumer_iteration, Eff.bind, Eff.zoom, Eff.gets, Eff.emit, Eff.ret,
    Eff.state, Eff.events, Eff.result.
  destruct (read CNT w) as [[[p|] w1] l]; cbn [fst snd]; [|reflexivity].
  destruct (index (deref (queue w1) p) =? target); cbn [negb].
  - destruct (cb (index (deref (queue w1) p)) (deref (queue w1) p));
      rewrite ?app_nil_r; reflexivity.
  - now rewrite !app_nil_r.
Qed.

Lemma consumer_iteration_state (target : DataType) (cb : PyCallback)
    (w : World MarketData) :
  Eff.state (consumer_iteration target cb w) = Eff.state (read CNT w).
Proof.
  rewrite consumer_iteration_unfold. cbv zeta.
  destruct (Eff.result (read CNT w)); [|reflexivity].
  destruct (_ =? _); [|reflexivity].
  destruct (cb _ _); reflexivity.
Qed.

Lemma consumer_iteration_respects (target : DataType) (cb : PyCallback)
    (w : World MarketData) :
  Forall (respects_filter target) (Eff.events (consumer_iteration target cb w)).
Proof.
  assert (Hring : forall l, Forall (respects_filter target) (map CRing l)).
  { intros l. apply Forall_forall. intros e He.
    apply list_elem_of_fmap in He as (x & -> & _). exact I. }
  assert (Hprint : forall l, Forall (respects_filter target) (map CPrint l)).
  { intros l. apply Forall_forall. intros e He.
    apply list_elem_of_fmap in He as (x & -> & _). exact I. }
  rewrite consumer_iteration_unfold. cbv zeta.
  destruct (Eff.result (read CNT w)) as [p|]; unfold Eff.events; cbn [snd].
  - destruct (Z.eqb_spec (index (deref (queue w) p)) target) as [Heq|Hne];
      [|apply Hring].
    destruct (cb _ _); cbn [snd]; apply Forall_app; split;
      try apply Hring; repeat constructor; auto.
  - apply Forall_app. split; [apply Hring|]. repeat constructor.
Qed.

(** Unfolding of the loop for a pass that is taken. *)
Lemma consumer_loop_cons (target : DataType) (cb : PyCallback) (t : tick)
    (rest : list tick) (w : World MarketData) :
  consumer_loop target cb (t :: rest) w =
  let w1 := mkWorld (writes_copy CNT (tick_writes t) (queue w)) (reader w) in
  if tick_running t then
    let it := consumer_iteration target cb w1 in
    match Eff.result it with
    | Next =>
        let lp := consumer_loop target cb rest (Eff.state it) in
        (Eff.result lp, Eff.state lp, Eff.events it ++ Eff.events lp)
    | Escaped e => (LoopTerminated e, Eff.state it, Eff.events it)
    | IterUndefined => (LoopUndefined, Eff.state it, Eff.events it)
    end
  else (LoopExited, w1, []).
Proof.
  cbn [consumer_loop]. cbv zeta. destruct (tick_running t); [|reflexivity].
  unfold Eff.result, Eff.state, Eff.events.
  destruct (consumer_iteration target cb _) as [[o w2] l]. cbn [fst snd].
  destruct o; try reflexivity.
  now destruct (consumer_loop target cb rest w2) as [[o' w3] l'].
Qed.

(** When the producer does not write between the tag test and the copy, the
    filter holds: in every run of [consumer_loop] each callback invocation
    carries the subscriber's filter as its tag, on a record of that arm; a
    record whose tag differs from the filter is passed over without any
    invocation, and a record whose tag equals the filter is handed to the
    callback. *)
Lemma filter_holds_without_overwrite (target : DataType) (cb : PyCallback)
    (sched : list tick) (w : World MarketData) :
  Forall (respects_filter target)
         (Eff.events (consumer_loop target cb sched w)) /\
  (forall (w' : World MarketData) (p : nat),
     Eff.result (read CNT w') = Some p ->
     index (deref (queue w') p) <> target ->
     Eff.result (consumer_iteration target cb w') = Next /\
     forall tag rec,
       CCall tag rec ∉ Eff.events (consumer_iteration target cb w')) /\
  (forall (w' : World MarketData) (p : nat),
     Eff.result (read CNT w') = Some p ->
     index (deref (queue w') p) = target ->
     CCall target (deref (queue w') p)
       ∈ Eff.events (consumer_iteration target cb w')).
Proof.
  split; [|split].
  - revert w. induction sched as [|t rest IH]; intros w; [constructor|].
    rewrite consumer_loop_cons. cbv zeta.
    destruct (tick_running t); [|constructor].
    pose proof (consumer_iteration_respects target cb
      (mkWorld (writes_copy CNT (tick_writes t) (queue w)) (reader w))) as Hit.
    destruct (Eff.result (consumer_iteration target cb _)); try exact Hit.
    unfold Eff.events at 1. cbn [snd]. apply Forall_app. split; [exact Hit|].
    apply IH.
  - intros w' p Hp Hne. rewrite consumer_iteration_unfold. cbv zeta.
    rewrite Hp. apply Z.eqb_neq in Hne. rewrite Hne.
    unfold Eff.result, Eff.events. cbn [fst snd]. split; [reflexivity|].
    intros tag rec Hin. apply list_elem_of_fmap in Hin as (x & Hx & _).
    discriminate.
  - intros w' p Hp Heq. rewrite consumer_iteration_unfold. cbv zeta.
    rewrite Hp, Heq, Z.eqb_refl.
    destruct (cb target (deref (queue w') p)); unfold Eff.events; cbn [snd];
      rewrite elem_of_app; right; left.
Qed.

(** *** The loop against a producer that writes meanwhile *)

Lemma publish_nil (w : World MarketData) : publish [] w = w.
Proof. now destruct w. Qed.

(** With a silent producer the pass is [consumer_iteration]. *)
Lemma consumer_iteration_steps_quiet (target : DataType) (cb : PyCallback)
    (w : World MarketData) :
  consumer_iteration_steps [] [] target cb w = consumer_iteration target cb w.
Proof.
  unfold consumer_iteration_steps, consumer_iteration, Eff.bind, Eff.zoom,
    Eff.gets, Eff.emit, Eff.ret, Eff.modify.
  destruct (read CNT w) as [[[p|] w1] l]; cbn [app]; rewrite ?publish_nil.
  - destruct (negb _); [reflexivity|]. now destruct (cb _ _).
  - reflexivity.
Qed.

Lemma consumer_loop_steps_quiet (target : DataType) (cb : PyCallback)
    (sched : list tick) :
  forall w : World MarketData,
    consumer_loop_steps target cb (map quiet_pass sched) w
    = consumer_loop target cb sched w.
Proof.
  induction sched as [|t rest IH]; intros w; [reflexivity|].
  cbn [map consumer_loop_steps consumer_loop quiet_pass pass_writes
       pass_running pass_after_read pass_after_tag].
  cbv zeta. unfold publish at 1. destruct (tick_running t); [|reflexivity].
  rewrite consumer_iteration_steps_quiet.
  destruct (consumer_iteration target cb _) as [[o w2] l].
  destruct o; try reflexivity. now rewrite IH.
Qed.

(** An exception leaves a pass only if the callback threw it. *)
Lemma iteration_steps_escape (ar atg : list MarketData) (target : DataType)
    (cb : PyCallback) (w : World MarketData) (e : exn) :
  Eff.result (consumer_iteration_steps ar atg target cb w) = Escaped e ->
  exists tag rec, cb tag rec = Threw e.
Proof.
  unfold consumer_iteration_steps, Eff.bind, Eff.zoom, Eff.gets, Eff.emit,
    Eff.ret, Eff.modify, Eff.result.
  destruct (read CNT w) as [[[p|] w1] l]; cbn [fst snd]; [|discriminate].
  destruct (negb _); cbn [fst snd]; [discriminate|].
  destruct (cb _ _) as [printed|e'|] eqn:Hcb; cbn [fst snd]; try discriminate.
  intros [= ->]. eauto.
Qed.

Lemma loop_steps_terminated (target : DataType) (cb : PyCallback)
    (sched : list pass) :
  forall (w : World MarketData) (e : exn),
    Eff.result (consumer_loop_steps target cb sched w) = LoopTerminated e ->
    exists tag rec, cb tag rec = Threw e.
Proof.
  induction sched as [|t rest IH]; intros w e; [discriminate|].
  cbn [consumer_loop_steps]. cbv zeta.
  destruct (pass_running t); [|discriminate].
  pose proof (iteration_steps_escape (pass_after_read t) (pass_after_tag t)
                target cb (publish (pass_writes t) w)) as Hesc.
  destruct (consumer_iteration_steps _ _ target cb _) as [[o w2] l].
  unfold Eff.result in Hesc. cbn [fst] in Hesc.
  destruct o as [|e'|].
  - specialize (IH w2 e).
    destruct (consumer_loop_steps target cb rest w2) as [[o' w3] l'].
    exact IH.
  - unfold Eff.result. cbn [fst]. intros [= ->]. now apply Hesc.
  - discriminate.
Qed.

(** In every interleaving the tag handed to the callback is the filter. *)
Lemma tag_argument_is_filter (target : DataType) (cb : PyCallback)
    (sched : list pass) :
  forall w : World MarketData,
    Forall (carries_filter target)
           (Eff.events (consumer_loop_steps target cb sched w)).
Proof.
  assert (Hring : forall l, Forall (carries_filter target) (map CRing l)).
  { intros l. apply Forall_forall. intros e He.
    apply list_elem_of_fmap in He as (x & -> & _). exact I. }
  assert (Hprint : forall l, Forall (carries_filter target) (map CPrint l)).
  { intros l. apply Forall_forall. intros e He.
    apply list_elem_of_fmap in He as (x & -> & _). exact I. }
  assert (Hit : forall ar atg w,
            Forall (carries_filter target)
                   (Eff.events (consumer_iteration_steps ar atg target cb w))).
  { intros ar atg w.
    unfold consumer_iteration_steps, Eff.bind, Eff.zoom, Eff.gets, Eff.emit,
      Eff.ret, Eff.modify, Eff.events.
    destruct (read CNT w) as [[[p|] w1] l]; cbn [fst snd].
    - destruct (Z.eqb_spec (index (deref (queue (publish ar w1)) p)) target)
        as [Heq|Hne]; cbn [negb fst snd].
      + destruct (cb _ _); cbn [fst snd]; rewrite ?app_nil_r, ?app_nil_l;
          repeat (apply Forall_app; split);
          try apply Hring; try apply Hprint;
          (constructor; [exact Heq|constructor]).
      + rewrite ?app_nil_r. apply Hring.
    - rewrite ?app_nil_r. apply Forall_app. split; [apply Hring|].
      repeat constructor. }
  induction sched as [|t rest IH]; intros w; [constructor|].
  cbn [consumer_loop_steps]. cbv zeta.
  destruct (pass_running t); [|constructor].
  specialize (Hit (pass_after_read t) (pass_after_tag t)
                (publish (pass_writes t) w)).
  destruct (consumer_iteration_steps _ _ target cb _) as [[o w2] l].
  unfold Eff.events in Hit. cbn [snd] in Hit.
  destruct o; try exact Hit.
  specialize (IH w2).
  destruct (consumer_loop_steps target cb rest w2) as [[o' w3] l'].
  unfold Eff.events in *. cbn [snd] in *. apply Forall_app. now split.
Qed.

(** C8.  The filter is tested on the slot and the record is copied from the
    slot afterwards, with nothing to detect a write in between.  A subscriber
    with filter Trade reads the slot of the first of 512 published records, a
    Trade; the record number 513, a Kline, lands in that slot after the tag
    test and before the copy: the callback is invoked with the tag Trade on
    the Kline (and on the Trade when that write comes later).  Through the
    binding's wrapper the Kline is then read as a Trade, which is
    undefined. *)
Theorem filter_fails_when_slot_is_overwritten :
  let out :=
    consumer_loop_steps TRADE quiet_callback [overwriting_pass] fresh_world in
  Eff.events out = [CRing (EvLoadIdx 1 1); CCall TRADE sample_kline] /\
  Eff.events
    (consumer_loop_steps TRADE quiet_callback
       [mkPass (pass_writes overwriting_pass) true [] []] fresh_world)
  = [CRing (EvLoadIdx 1 1); CCall TRADE sample_trade] /\
  index sample_kline = KLINE /\
  ~ Forall (respects_filter TRADE) (Eff.events out) /\
  Eff.result
    (consumer_loop_steps TRADE
       (PyCallbackWrapper working_print (fun _ _ => PyReturns))
       [overwriting_pass] fresh_world) = LoopUndefined.
Proof.
  cbv zeta.
  assert (Hev : Eff.events
                  (consumer_loop_steps TRADE quiet_callback [overwriting_pass]
                     fresh_world)
                = [CRing (EvLoadIdx 1 1); CCall TRADE sample_kline])
    by (vm_compute; reflexivity).
  split; [exact Hev|]. split; [vm_compute; reflexivity|].
  split; [reflexivity|]. split.
  - rewrite Hev. intros Hall.
    apply Forall_cons in Hall as [_ Hall].
    apply Forall_cons in Hall as [[_ Harm] _]. discriminate.
  - vm_compute. reflexivity.
Qed.

(** C7, as written.  The hub's loop has no handler: a callback that throws
    ends the thread function with the exception. *)
Lemma callback_error_escapes : ~ spec_callback_errors_caught.
Proof.
  intros Hclaim.
  apply (Hclaim TRADE throwing_callback [mkTick [] true; mkTick [] true]
           sample_trade_world (StdException "boom"%string)).
  vm_compute. reflexivity.
Qed.

(** What the wrapper does with a record of the arm its tag names: it calls
    the callable with the arm's name and dictionary; if the callable raises it
    prints the message; what leaves the wrapper is what [print] raises. *)
Lemma wrapper_on_own_arm (print : py_printer) (pycb : py_callable)
    (rec : MarketData) :
  PyCallbackWrapper print pycb (index rec) rec
  = match pycb (fst (callable_args rec)) (snd (callable_args rec)) with
    | PyReturns => Returned []
    | PyRaises what =>
        match print (String.append "Error in callback: "%string what) with
        | PyReturns =>
            Returned [String.append "Error in callback: "%string what]
        | PyRaises what' => Threw (StdException what')
        end
    end.
Proof. destruct rec; reflexivity. Qed.

(** With a working [print] nothing is thrown out of the wrapper, whatever
    the tag and the record. *)
Lemma wrapper_never_throws (print : py_printer) (pycb : py_callable) :
  (forall l, print l = PyReturns) ->
  forall tag rec e, PyCallbackWrapper print pycb tag rec <> Threw e.
Proof.
  intros Hprint tag rec e. unfold PyCallbackWrapper, call_guarded.
  destruct (tag =? KLINE); [|destruct (tag =? TRADE); [|destruct (tag =? BOOK_L1)]];
    try discriminate;
    destruct rec; try discriminate;
    match goal with |- context [pycb ?n ?d] => destruct (pycb n d) end;
    try discriminate; rewrite Hprint; discriminate.
Qed.

(** The handler is not guarded: when [print] raises, the error leaves the
    wrapper and ends the consumer thread. *)
Lemma print_failure_escapes :
  Eff.result
    (consumer_loop TRADE (PyCallbackWrapper broken_print raising_callable)
       [mkTick [] true; mkTick [] true] sample_trade_world)
  = LoopTerminated (StdException "I/O operation on closed file"%string).
Proof. vm_compute. reflexivity. Qed.

(** C7 as the program has it.  The handler is in [PyCallbackWrapper], not in
    the hub's loop.  The wrapper calls the Python callable with the name and
    the dictionary of the record; an error raised by the callable is caught
    and the line "Error in callback: ..." is printed.  When that [print]
    succeeds the wrapper returns normally: the pass on the failing record
    consists of the callback invocation and the printed line and goes back
    to the loop test, with the reader past the record; the loop is never
    ended by an exception, also when the producer writes during the passes;
    and after a pass that is taken the loop goes on with the rest of the
    schedule. *)
Theorem wrapped_callback_errors_caught (print : py_printer)
    (pycb : py_callable) (target : DataType) :
  let cb := PyCallbackWrapper print pycb in
  let line := String.append "Error in callback: "%string in
  (forall rec : MarketData,
     cb (index rec) rec
     = match pycb (fst (callable_args rec)) (snd (callable_args rec)) with
       | PyReturns => Returned []
       | PyRaises what =>
           match print (line what) with
           | PyReturns => Returned [line what]
           | PyRaises what' => Threw (StdException what')
           end
       end) /\
  ((forall l, print l = PyReturns) ->
   (forall (w : World MarketData) (p : nat) (what : string),
      Eff.result (read CNT w) = Some p ->
      index (deref (queue w) p) = target ->
      pycb (fst (callable_args (deref (queue w) p)))
           (snd (callable_args (deref (queue w) p))) = PyRaises what ->
      consumer_iteration target cb w
      = (Next, Eff.state (read CNT w),
         map CRing (Eff.events (read CNT w))
         ++ [CCall target (deref (queue w) p); CPrint (line what)])) /\
   (forall w : World MarketData,
      Eff.result (consumer_iteration target cb w) = Next /\
      Eff.state (consumer_iteration target cb w) = Eff.state (read CNT w)) /\
   (forall (sched : list tick) (w : World MarketData),
      Eff.result (consumer_loop target cb sched w) = LoopExited \/
      Eff.result (consumer_loop target cb sched w) = LoopRunning) /\
   (forall (t : tick) (rest : list tick) (w : World MarketData),
      tick_running t = true ->
      Eff.result (consumer_loop target cb (t :: rest) w)
      = Eff.result
          (consumer_loop target cb rest
             (Eff.state
                (consumer_iteration target cb
                   (mkWorld (writes_copy CNT (tick_writes t) (queue w))
                            (reader w)))))) /\
   (forall (sched : list pass) (w : World MarketData) (e : exn),
      Eff.result (consumer_loop_steps target cb sched w) <> LoopTerminated e)).
Proof.
  cbv zeta. split; [apply wrapper_on_own_arm|]. intros Hprint.
  assert (Hnext : forall w : World MarketData,
            Eff.result (consumer_iteration target (PyCallbackWrapper print pycb) w)
            = Next).
  { intros w. rewrite consumer_iteration_unfold. cbv zeta.
    destruct (Eff.result (read CNT w)) as [p|]; [|reflexivity].
    destruct (_ =? _); [|reflexivity].
    rewrite wrapper_on_own_arm.
    destruct (pycb _ _); [reflexivity|]. rewrite Hprint. reflexivity. }
  split; [|split; [|split; [|split]]].
  - intros w p what Hp Htag Hraise.
    rewrite consumer_iteration_unfold. cbv zeta.
    rewrite Hp, Htag, Z.eqb_refl. rewrite <- Htag at 1.
    rewrite wrapper_on_own_arm, Hraise, Hprint. reflexivity.
  - intros w. split; [apply Hnext|apply consumer_iteration_state].
  - intros sched. induction sched as [|t rest IH]; intros w; [now right|].
    rewrite consumer_loop_cons. cbv zeta.
    destruct (tick_running t); [|now left].
    rewrite Hnext. unfold Eff.result at 1 3. cbn [fst]. apply IH.
  - intros t rest w Hrun. rewrite consumer_loop_cons. cbv zeta.
    rewrite Hrun, Hnext. reflexivity.
  - intros sched w e Hterm.
    destruct (loop_steps_terminated _ _ _ _ _ Hterm) as (tag & rec & Hthrow).
    exact (wrapper_never_throws print pycb Hprint tag rec e Hthrow).
Qed.

Lemma wrapped_callback_errors_caught_witness :
  consumer_iteration TRADE (PyCallbackWrapper working_print raising_callable)
    sample_trade_world
  = (Next, Eff.state (read CNT sample_trade_world),
     map CRing (Eff.events (read CNT sample_trade_world))
     ++ [CCall TRADE sample_trade;
         CPrint "Error in callback: boom"%string]) /\
  Eff.result
    (consumer_loop TRADE (PyCallbackWrapper working_print raising_callable)
       [mkTick [] true; mkTick [] true] sample_trade_world) <> LoopTerminated
                                                                 (StdException "boom"%string).
Proof.
  destruct (wrapped_callback_errors_caught working_print raising_callable TRADE)
    as (_ & Hloop).
  destruct Hloop as (Hpass & _ & Hends & _); [reflexivity|].
  split.
  - apply (Hpass sample_trade_world 1%nat "boom"%string); reflexivity.
  - destruct (Hends [mkTick [] true; mkTick [] true] sample_trade_world)
      as [-> | ->]; discriminate.
Defined.

(** *** [subscribe] and the thread it launches *)

Lemma position_here (e : hevent) (l : list hevent) :
  position e (e :: l) = Some 0%nat.
Proof. simpl. now rewrite decide_True. Qed.

Lemma position_later (e x : hevent) (l : list hevent) :
  x <> e -> position e (x :: l) = S <$> position e l.
Proof. intros Hne. simpl. now rewrite decide_False. Qed.

Lemma subscribe_events_eq (t : DataType) (c : PyCallback) (h : MarketDataHub) :
  Eff.events (subscribe t c h) = subscribe_events (next_subscriber_id_ h).
Proof. reflexivity. Qed.

Ltac find_position :=
  unfold subscribe_events;
  repeat (rewrite position_later by discriminate);
  rewrite position_here; reflexivity.

Lemma position_construct n : position (HConstruct n) (subscribe_events n) = Some 1%nat.
Proof. find_position. Qed.

Lemma position_get_reader n : position (HGetReader n) (subscribe_events n) = Some 2%nat.
Proof. find_position. Qed.

Lemma position_set_running n :
  position (HSetRunning n true) (subscribe_events n) = Some 3%nat.
Proof. find_position. Qed.

Lemma position_launch n : position (HLaunch n) (subscribe_events n) = Some 4%nat.
Proof. find_position. Qed.

Lemma position_insert n : position (HInsert n) (subscribe_events n) = Some 5%nat.
Proof. find_position. Qed.

(** The invariant holds when the call starts. *)
Lemma subscribe_inv_start (t : DataType) (c : PyCallback) (h : MarketDataHub) :
  subscribe_inv (next_subscriber_id_ h) (sys_of_subscribe t c h).
Proof.
  exists 0%nat. unfold sys_of_subscribe. cbn [todo mutex_held threads table].
  rewrite subscribe_events_eq.
  split; [lia|]. split; [reflexivity|]. split; [split; [discriminate|lia]|].
  split; [intros _; apply lookup_empty|]. split; intros; lia.
Qed.

(** Every step of either thread keeps it. *)
Lemma subscribe_inv_step (n : Z) (a : actor) (s s' : sys) :
  subscribe_inv n s -> sys_step a s = Some s' -> subscribe_inv n s'.
Proof.
  intros (k & Hk & Htodo & Hheld & Hnone & Hthr & Htab) Hstep.
  destruct a as [|j]; unfold sys_step in Hstep.
  - (* the calling thread takes its next event *)
    rewrite Htodo in Hstep.
    do 8 (try destruct k as [|k]); try lia; cbn [drop subscribe_events] in Hstep;
      unfold main_effect in Hstep.
    + destruct (mutex_held s) eqn:Hm; [discriminate|].
      injection Hstep as <-. exists 1%nat. cbn.
      split; [lia|]. split; [reflexivity|].
      split; [split; [intros; lia|reflexivity]|].
      split; [intros _; apply Hnone; lia|]. split; intros; lia.
    + injection Hstep as <-. exists 2%nat. cbn.
      split; [lia|]. split; [reflexivity|]. split; [rewrite Hheld; lia|].
      split; [intros _; apply Hnone; lia|]. split; intros; lia.
    + injection Hstep as <-. exists 3%nat. cbn.
      split; [lia|]. split; [reflexivity|]. split; [rewrite Hheld; lia|].
      split; [intros _; apply Hnone; lia|]. split; intros; lia.
    + injection Hstep as <-. exists 4%nat. cbn.
      split; [lia|]. split; [reflexivity|]. split; [rewrite Hheld; lia|].
      split; [intros _; apply Hnone; lia|]. split; intros; lia.
    + injection Hstep as <-. exists 5%nat. cbn.
      split; [lia|]. split; [reflexivity|]. split; [rewrite Hheld; lia|].
      split; [intros; lia|]. split; [|intros; lia].
      intros _. left. apply lookup_insert_eq.
    + injection Hstep as <-. exists 6%nat. cbn.
      split; [lia|]. split; [reflexivity|]. split; [rewrite Hheld; lia|].
      split; [intros; lia|]. split; [intros _; apply Hthr; lia|].
      intros _. apply elem_of_union_l, elem_of_singleton. reflexivity.
    + injection Hstep as <-. exists 7%nat. cbn.
      split; [lia|]. split; [reflexivity|]. split; [split; [discriminate|lia]|].
      split; [intros; lia|]. split; [intros _; apply Hthr; lia|].
      intros _. apply Htab; lia.
    + discriminate.
  - (* a launched thread looks itself up *)
    destruct (threads s !! j) as [[| |]|] eqn:Hj; try discriminate.
    destruct (mutex_held s) eqn:Hm; [discriminate|].
    injection Hstep as <-. exists k. cbn.
    split; [exact Hk|]. split; [exact Htodo|].
    split; [exact Hheld|].
    destruct (decide (j = n)) as [->|Hne].
    + assert (Hk7 : k = 7%nat).
      { destruct (le_lt_dec k 4) as [Hle|Hgt].
        - rewrite (Hnone Hle) in Hj. discriminate.
        - destruct (le_lt_dec k 6) as [Hle6|Hgt6]; [|lia].
          destruct Hheld as [_ Hback]. specialize (Hback ltac:(lia)).
          discriminate. }
      subst k. split; [intros; lia|]. split; [|intros _; apply Htab; lia].
      intros _. right. rewrite lookup_insert_eq.
      rewrite decide_True by (apply Htab; lia). reflexivity.
    + rewrite lookup_insert_ne by assumption.
      split; [exact Hnone|]. split; [exact Hthr|exact Htab].
Qed.

Lemma subscribe_inv_run (n : Z) (sched : list actor) (s : sys) :
  subscribe_inv n s -> subscribe_inv n (sys_run sched s).
Proof.
  revert s. induction sched as [|a sched IH]; intros s Hinv; [exact Hinv|].
  unfold sys_run. cbn [fold_left]. apply IH.
  destruct (sys_step a s) as [s'|] eqn:Hstep; cbn [default].
  - exact (subscribe_inv_step n a s s' Hinv Hstep).
  - exact Hinv.
Qed.

Lemma subscribe_inv_found (n : Z) (s : sys) :
  subscribe_inv n s -> threads s !! n <> Some NotFound.
Proof.
  intros (k & _ & _ & _ & Hnone & Hthr & _).
  destruct (le_lt_dec k 4) as [Hle|Hgt].
  - rewrite (Hnone Hle). discriminate.
  - destruct (Hthr ltac:(lia)) as [-> | ->]; discriminate.
Qed.

(** C6, as written.  The order the specification gives fails on the fresh hub: the thread is
    launched (fifth event) before the record is inserted (sixth event). *)
Lemma subscribe_order_as_listed_fails :
  ~ spec_subscribe_order 0
      (Eff.events (subscribe KLINE quiet_callback hub_init)).
Proof.
  intros (_ & _ & _ & Hlast). unfold precedes in Hlast.
  rewrite subscribe_events_eq in Hlast. change (next_subscriber_id_ hub_init) with 0 in Hlast.
  rewrite position_insert, position_launch in Hlast. lia.
Qed.

(** C6 as the program has it.  Holding the mutex for the whole call,
    [subscribe] constructs the record, obtains the reader, sets [running],
    launches the thread and only then inserts the record into the table.  The
    launched thread's look-up needs the mutex, so under every schedule it runs
    after the insertion and never misses its record; run after the call it
    finds the record. *)
Theorem subscribe_launches_then_inserts (t : DataType) (c : PyCallback)
    (h : MarketDataHub) (sched : list actor) :
  let n := next_subscriber_id_ h in
  let evs := Eff.events (subscribe t c h) in
  evs = [HLock; HConstruct n; HGetReader n; HSetRunning n true; HLaunch n;
         HInsert n; HUnlock] /\
  precedes (HConstruct n) (HGetReader n) evs /\
  precedes (HGetReader n) (HSetRunning n true) evs /\
  precedes (HSetRunning n true) (HLaunch n) evs /\
  precedes (HLaunch n) (HInsert n) evs /\
  subscribers_ (Eff.state (subscribe t c h)) !! n
    = Some (mkSubscriber n t c (Some n) true (getReader (queue_ h))) /\
  threads (sys_run sched (sys_of_subscribe t c h)) !! n <> Some NotFound /\
  threads (sys_run (replicate 7 Main ++ [Thread n]) (sys_of_subscribe t c h)) !! n
    = Some Found.
Proof.
  cbv zeta. rewrite subscribe_events_eq.
  set (n := next_subscriber_id_ h).
  split; [reflexivity|]. unfold precedes.
  rewrite position_construct, position_get_reader, position_set_running,
    position_launch, position_insert.
  split; [lia|]. split; [lia|]. split; [lia|]. split; [lia|].
  split; [rewrite subscribe_unfold; apply lookup_insert_eq|].
  split.
  - apply subscribe_inv_found, subscribe_inv_run, subscribe_inv_start.
  - unfold sys_of_subscribe. rewrite subscribe_events_eq. fold n.
    unfold sys_run. cbn [replicate app fold_left sys_step todo subscribe_events
      main_effect mutex_held from_option Datatypes.id table threads].
    rewrite lookup_insert_eq. cbn [from_option Datatypes.id threads].
    rewrite lookup_insert_eq. apply f_equal.
    rewrite decide_True by set_solver. reflexivity.
Qed.

Lemma subscribe_launches_then_inserts_witness :
  threads (sys_run [Main; Thread 0; Main; Main; Main; Main; Thread 0; Main;
                    Main; Thread 0]
             (sys_of_subscribe KLINE quiet_callback hub_init)) !! 0
  <> Some NotFound.
Proof.
  destruct (subscribe_launches_then_inserts KLINE quiet_callback hub_init
              [Main; Thread 0; Main; Main; Main; Main; Thread 0; Main;
               Main; Thread 0]) as (_ & _ & _ & _ & _ & _ & Hfound & _).
  exact Hfound.
Defined.

End HubFacts.

(** ** More facts about the ring *)

Module RingFacts.
Import SPMC Ring SPMCFacts.

Section Sync.
Context {T : Type} `{Inhabited T}.
Variable CNT : Z.
Hypothesis Hok : static_assert_ok CNT = true.

(** Every slot holds one of the last [CNT] write numbers (or 0). *)
Lemma last_write_recent (K : nat) (i : nat) :
  (i < Z.to_nat CNT)%nat ->
  Z.of_nat K - CNT < last_write CNT K (Z.of_nat i).
Proof.
  intros Hi. pose proof (capacity_pos CNT Hok) as Hpos.
  destruct (one_hit_per_revolution CNT Hok (Z.of_nat K - CNT) i Hi)
    as (j & Hj & Hslot & _).
  pose proof (last_write_range CNT K (Z.of_nat i)) as Hr.
  destruct (Z_le_gt_dec (Z.of_nat K - CNT + j) 0) as [Hsmall|Hbig]; [lia|].
  assert (Hm : (Z.of_nat K - CNT + j) mod CNT = Z.of_nat i).
  { unfold slot_of in Hslot. rewrite <- Hslot. symmetry. apply Z2Nat.id.
    apply Z.mod_pos_bound. exact Hpos. }
  pose proof (last_write_largest CNT K (Z.of_nat i) (Z.of_nat K - CNT + j)
                ltac:(lia) Hm). lia.
Qed.

Lemma slot_of_Z (x : Z) : Z.of_nat (slot_of CNT x) = x mod CNT.
Proof.
  unfold slot_of. apply Z2Nat.id. apply Z.mod_pos_bound, (capacity_pos CNT Hok).
Qed.

(** What [read] loads when the reader expects [c] and the ring has received
    the writes [ws]. *)
Lemma observed_in_sync (ws : list (T -> T)) (c : Z) (w : World T) :
  queue w = writes CNT ws (init CNT) ->
  next_idx (reader w) = U32.wrap c ->
  observed CNT w = U32.wrap (last_write CNT (length ws) (c mod CNT)).
Proof.
  intros Hq Hn. unfold observed. rewrite Hq, Hn, (slot_of_wrap CNT Hok).
  destruct (writes_init_state CNT Hok ws) as (_ & _ & Hslots).
  destruct (Hslots (slot_of CNT c) (slot_of_lt CNT Hok c)) as [-> _].
  now rewrite slot_of_Z.
Qed.

(** A reader that has caught up gets null and stays as it is. *)
Lemma read_caught_up (ws : list (T -> T)) (w : World T) :
  in_sync CNT ws (Z.of_nat (length ws) + 1) w ->
  Eff.result (read CNT w) = None /\ Eff.state (read CNT w) = w.
Proof.
  intros (Hq & Hn & Hc & Hlag).
  pose proof (observed_in_sync ws _ w Hq Hn) as Ho.
  pose proof (last_write_before_next CNT Hok (length ws)) as HL.
  pose proof (capacity_le_half CNT Hok) as Hcap.
  pose proof (capacity_pos CNT Hok) as Hpos.
  rewrite read_unfold. cbv zeta. unfold signed_diff.
  rewrite Ho, Hn, U32Facts.signed_sub_exact by lia.
  destruct (Z.ltb_spec
    (last_write CNT (length ws) ((Z.of_nat (length ws) + 1) mod CNT)
     - (Z.of_nat (length ws) + 1)) 0); [split; reflexivity|lia].
Qed.

(** A reader that is behind gets the slot of the write number it expects;
    the slot holds a write number [L] between the expected one and the last
    one, among the last [CNT]; the reader then expects [L + 1]. *)
Lemma read_behind (ws : list (T -> T)) (c : Z) (w : World T) :
  in_sync CNT ws c w ->
  c <= Z.of_nat (length ws) ->
  let L := last_write CNT (length ws) (c mod CNT) in
  c <= L <= Z.of_nat (length ws) /\
  Z.of_nat (length ws) - CNT < L /\
  observed CNT w = U32.wrap L /\
  Eff.result (read CNT w) = Some (slot_of CNT c) /\
  Eff.state (read CNT w) = set_next_idx (U32.wrap (L + 1)) w /\
  in_sync CNT ws (L + 1) (Eff.state (read CNT w)).
Proof.
  intros (Hq & Hn & Hc & Hlag) Hle. cbv zeta.
  pose proof (observed_in_sync ws c w Hq Hn) as Ho.
  pose proof (capacity_pos CNT Hok) as Hpos.
  set (L := last_write CNT (length ws) (c mod CNT)) in *.
  assert (HL : c <= L <= Z.of_nat (length ws)).
  { split; [apply last_write_largest; [lia|reflexivity]|apply last_write_range]. }
  assert (Hrec : Z.of_nat (length ws) - CNT < L).
  { subst L. rewrite <- slot_of_Z. apply last_write_recent, (slot_of_lt CNT Hok). }
  assert (Hsd : signed_diff CNT w = L - c).
  { unfold signed_diff. rewrite Ho, Hn. apply U32Facts.signed_sub_exact. lia. }
  split; [exact HL|]. split; [exact Hrec|]. split; [exact Ho|].
  rewrite read_unfold. cbv zeta. rewrite Hsd.
  destruct (Z.ltb_spec (L - c) 0); [lia|].
  unfold Eff.result, Eff.state. cbn [fst snd].
  rewrite Ho, U32Facts.add_wrap_l.
  split; [now rewrite Hn, (slot_of_wrap CNT Hok)|]. split; [reflexivity|].
  unfold in_sync, set_next_idx. cbn [queue reader next_idx].
  split; [exact Hq|]. split; [reflexivity|]. lia.
Qed.

(** Further writes keep a reader in sync while its lag stays within [2^31]. *)
Lemma in_sync_writes (ws more : list (T -> T)) (c : Z) (w : World T) :
  in_sync CNT ws c w ->
  Z.of_nat (length ws + length more) + 1 - c <= U32.half ->
  in_sync CNT (ws ++ more) c (mkWorld (writes CNT more (queue w)) (reader w)).
Proof.
  intros (Hq & Hn & Hc & Hlag) Hlag'. unfold in_sync. cbn [queue reader].
  rewrite Hq, writes_app, length_app.
  split; [reflexivity|]. split; [exact Hn|]. lia.
Qed.

(** A new reader is in sync. *)
Lemma in_sync_getReader (ws : list (T -> T)) :
  in_sync CNT ws (Z.of_nat (length ws) + 1)
    (mkWorld (writes CNT ws (init CNT)) (getReader (writes CNT ws (init CNT)))).
Proof.
  destruct (writes_init_state CNT Hok ws) as (Hw & _ & _). cbv zeta in Hw.
  unfold in_sync. cbn [queue reader getReader next_idx].
  split; [reflexivity|]. split; [rewrite Hw; apply U32Facts.add_wrap_l|].
  rewrite U32Facts.half_eq. lia.
Qed.

(** The payload a successful [read] points to was produced by the write
    whose number the slot holds. *)
Lemma deref_behind (ws : list (T -> T)) (c : Z) (w : World T) :
  in_sync CNT ws c w ->
  c <= Z.of_nat (length ws) ->
  exists f old,
    ws !! Z.to_nat (last_write CNT (length ws) (c mod CNT) - 1) = Some f /\
    deref (queue w) (slot_of CNT c) = f old.
Proof.
  intros Hs Hle. destruct (read_behind ws c w Hs Hle) as (HL & _).
  destruct Hs as (Hq & _ & Hc & _).
  destruct (writes_init_state CNT Hok ws) as (_ & _ & Hslots).
  destruct (Hslots (slot_of CNT c) (slot_of_lt CNT Hok c)) as [_ Hdata].
  rewrite slot_of_Z in Hdata. unfold deref. rewrite Hq.
  apply Hdata. lia.
Qed.

Lemma poll_cons (ws : list (T -> T)) (rest : list (list (T -> T)))
    (w : World T) :
  poll CNT (ws :: rest) w =
  let w1 := mkWorld (writes CNT ws (queue w)) (reader w) in
  match Eff.result (read CNT w1) with
  | Some p =>
      (observed CNT w1, deref (queue w1) p)
      :: poll CNT rest (Eff.state (read CNT w1))
  | None => poll CNT rest (Eff.state (read CNT w1))
  end.
Proof.
  cbn [poll]. cbv zeta. unfold Eff.result, Eff.state.
  now destruct (read CNT _) as [[r w'] l].
Qed.


End Sync.

(** X1. The capacity check accepts exactly the powers of two from [1] to
    [2^31]. *)
Theorem capacity_check_iff_power_of_two (CNT : Z) :
  static_assert_ok CNT = true <-> exists p, 0 <= p <= 31 /\ CNT = 2 ^ p.
Proof.
  split; [apply capacity_pow2|].
  intros (p & Hp & ->). unfold static_assert_ok.
  assert (Hpos : 0 < 2 ^ p) by (apply Z.pow_pos_nonneg; lia).
  assert (Hlt : 2 ^ p < U32.modulus)
    by (unfold U32.modulus; apply Z.pow_lt_mono_r; lia).
  assert (Hland : Z.land (2 ^ p) (2 ^ p - 1) = 0).
  { replace (2 ^ p - 1) with (Z.ones p) by (rewrite Z.ones_equiv; lia).
    rewrite Z.land_ones by lia. apply Z.mod_same. lia. }
  rewrite Hland.
  destruct (Z.leb_spec 0 (2 ^ p)); [|lia].
  destruct (Z.ltb_spec (2 ^ p) U32.modulus); [|lia].
  destruct (Z.eqb_spec (2 ^ p) 0); [lia|]. reflexivity.
Qed.

(** X2. A new reader waits for the next write.  A reader created after any
    number of writes gets null, and is left unchanged, as long as nothing more
    is written; once between 1 and [2^31] further writes have been made it
    gets the slot of the first write after its creation. *)
Theorem new_reader_waits_for_next_write {T} `{Inhabited T} (CNT : Z)
    (before after : list (T -> T)) :
  static_assert_ok CNT = true ->
  Z.of_nat (length after) <= U32.half ->
  let s0 := writes CNT before (init CNT) in
  let w := mkWorld (writes CNT after s0) (getReader s0) in
  (after = [] -> Eff.result (read CNT w) = None /\ Eff.state (read CNT w) = w) /\
  (after <> [] ->
     Eff.result (read CNT w)
     = Some (slot_of CNT (Z.of_nat (length before) + 1))) /\
  (Eff.result (read CNT w) = None <-> after = []).
Proof.
  intros Hok Hmax. cbv zeta.
  pose proof (in_sync_writes CNT before after _ _
                (in_sync_getReader CNT Hok before)) as Hs.
  cbn [queue reader] in Hs. specialize (Hs ltac:(lia)).
  destruct after as [|f after].
  - rewrite app_nil_r in Hs.
    destruct (read_caught_up CNT Hok before _ Hs) as [Hres Hst].
    split; [intros _; split; assumption|]. split; [congruence|].
    split; [reflexivity|intros _; exact Hres].
  - assert (Hle : Z.of_nat (length before) + 1
                  <= Z.of_nat (length (before ++ f :: after)))
      by (rewrite length_app; simpl; lia).
    destruct (read_behind CNT Hok _ _ _ Hs Hle) as (_ & _ & _ & Hres & _).
    split; [discriminate|]. split; [intros _; exact Hres|].
    rewrite Hres. split; discriminate.
Qed.

Lemma new_reader_waits_for_next_write_witness :
  Eff.result
    (read 4 (mkWorld (writes 4 [fun _ => 30] (writes 4 [fun _ => 10] (init 4)))
                     (getReader (writes 4 [fun _ => 10] (init 4)))))
  = Some 2%nat.
Proof.
  destruct (new_reader_waits_for_next_write 4 [fun _ => 10] [fun _ => 30])
    as (_ & Hsome & _); [reflexivity | vm_compute; discriminate |].
  apply Hsome. discriminate.
Defined.



(** A reader that polls after every single write gets every record; the
    sequences are the write numbers reduced modulo [2^32]. *)
Lemma poll_keeping_up {T} `{Inhabited T} (CNT : Z) (ds : list T) :
  static_assert_ok CNT = true ->
  forall before : list (T -> T),
    poll CNT (map (fun d => [fun _ => d]) ds)
         (mkWorld (writes CNT before (init CNT))
                  (getReader (writes CNT before (init CNT))))
    = imap (fun j d =>
              (U32.wrap (Z.of_nat (length before) + 1 + Z.of_nat j), d)) ds.
Proof.
  intros Hok.
  induction ds as [|d ds IH]; intros before; [reflexivity|].
  cbn [map length] in *. rewrite poll_cons. cbv zeta. cbn [queue reader].
  pose proof (in_sync_writes CNT before [fun _ => d] _ _
                (in_sync_getReader CNT Hok before)) as Hs1.
  cbn [queue reader length] in Hs1.
  specialize (Hs1 ltac:(rewrite U32Facts.half_eq; lia)).
  assert (Hk : length (before ++ [fun _ : T => d]) = S (length before))
    by (rewrite length_app; simpl; lia).
  assert (Hle : Z.of_nat (length before) + 1
                <= Z.of_nat (length (before ++ [fun _ : T => d])))
    by (rewrite Hk; lia).
  destruct (read_behind CNT Hok _ _ _ Hs1 Hle) as (_ & _ & Ho & Hres & Hst & _).
  destruct (deref_behind CNT Hok _ _ _ Hs1 Hle) as (f & old & Hf & Hd).
  cbn [queue] in Hd.
  assert (HL : last_write CNT (length (before ++ [fun _ : T => d]))
                 ((Z.of_nat (length before) + 1) mod CNT)
               = Z.of_nat (length before) + 1).
  { rewrite Hk, (last_write_hit CNT (S (length before))); [lia|lia|].
    f_equal. lia. }
  rewrite HL in *.
  replace (Z.to_nat (Z.of_nat (length before) + 1 - 1)) with (length before)
    in Hf by lia.
  rewrite lookup_app_r, Nat.sub_diag in Hf by lia. injection Hf as <-.
  rewrite Hres, Ho, Hd, Hst.
  cbn [imap]. rewrite Nat2Z.inj_0, Z.add_0_r. f_equal.
  assert (Hw1 : set_next_idx (U32.wrap (Z.of_nat (length before) + 1 + 1))
                  (mkWorld (writes CNT [fun _ => d] (writes CNT before (init CNT)))
                           (getReader (writes CNT before (init CNT))))
                = mkWorld (writes CNT (before ++ [fun _ => d]) (init CNT))
                          (getReader (writes CNT (before ++ [fun _ => d]) (init CNT)))).
  { unfold set_next_idx. cbn [queue reader getReader q].
    rewrite writes_app. f_equal. unfold getReader. f_equal.
    destruct (writes_init_state CNT Hok (before ++ [fun _ => d])) as (Hw & _).
    cbv zeta in Hw. rewrite writes_app in Hw. rewrite Hw, U32Facts.add_wrap_l.
    f_equal. lia. }
  rewrite Hw1, IH.
  apply imap_ext. intros j x _. cbn. rewrite Hk. do 2 f_equal. lia.
Qed.

(** X4. No drops for a reader that keeps up.  If the reader polls after every
    single write, every poll returns a record: the records it gets are the
    payloads written after its creation, all of them, in order, whatever the
    number of writes.  With [k] writes before the creation, the sequence
    loaded with the record number [j] (from 0) is [k + 1 + j] modulo [2^32];
    these are the consecutive numbers [k + 1, k + 2, ...] themselves while
    fewer than [2^32] writes have been made in all. *)
Theorem reader_keeping_up_gets_all {T} `{Inhabited T} (CNT : Z)
    (before : list (T -> T)) (ds : list T) :
  static_assert_ok CNT = true ->
  let k := Z.of_nat (length before) in
  let s0 := writes CNT before (init CNT) in
  let got :=
    poll CNT (map (fun d => [fun _ => d]) ds) (mkWorld s0 (getReader s0)) in
  got = imap (fun j d => ((k + 1 + Z.of_nat j) mod 2 ^ 32, d)) ds /\
  map snd got = ds /\
  (k + Z.of_nat (length ds) < 2 ^ 32 ->
   got = imap (fun j d => (k + 1 + Z.of_nat j, d)) ds).
Proof.
  intros Hok. cbv zeta. rewrite (poll_keeping_up CNT ds Hok before).
  split; [reflexivity|]. split.
  - generalize (Z.of_nat (length before) + 1). clear.
    induction ds as [|d ds IH]; intros c; [reflexivity|].
    cbn [imap map snd]. f_equal.
    rewrite <- (IH (c + 1)) at 2. f_equal.
    apply imap_ext. intros j x _. cbn. do 2 f_equal. lia.
  - intros Hlt. apply imap_ext. intros j x Hj. cbn. f_equal.
    apply lookup_lt_Some in Hj.
    apply U32Facts.wrap_small. unfold U32.in_range.
    rewrite U32Facts.modulus_eq. lia.
Qed.

Lemma reader_keeping_up_gets_all_witness :
  poll 4 (map (fun d => [fun _ => d]) [30; 40; 50; 60; 70; 80])
       (mkWorld (writes 4 [fun _ => 10; fun _ => 20] (init 4))
                (getReader (writes 4 [fun _ => 10; fun _ => 20] (init 4))))
  = [(3, 30); (4, 40); (5, 50); (6, 60); (7, 70); (8, 80)].
Proof.
  destruct (reader_keeping_up_gets_all 4 [fun _ => 10; fun _ => 20]
              [30; 40; 50; 60; 70; 80]) as (_ & _ & Hplain);
    [reflexivity|].
  rewrite Hplain; [reflexivity | vm_compute; reflexivity].
Defined.

(** X5. Skip-ahead.  A reader created after [k] writes and polled after [m]
    further writes, [1 <= m <= 2^31], gets a record; its write number [L] is
    one of the last [CNT] and not before the creation, the reader then
    expects [L + 1], and the [L - (k + 1)] records before it are dropped: at
    least [m - CNT] of them.  With [CNT = 1] it is always the latest record. *)
Theorem lapped_reader_skips_ahead {T} `{Inhabited T} (CNT : Z)
    (before after : list (T -> T)) :
  static_assert_ok CNT = true ->
  (1 <= length after)%nat ->
  Z.of_nat (length after) <= U32.half ->
  let k := Z.of_nat (length before) in
  let K := Z.of_nat (length before + length after) in
  let s0 := writes CNT before (init CNT) in
  let w := mkWorld (writes CNT after s0) (getReader s0) in
  exists L : Z,
    k + 1 <= L <= K /\ K - CNT < L /\
    (CNT = 1 -> L = K) /\
    Z.of_nat (length after) - CNT <= L - (k + 1) /\
    observed CNT w = U32.wrap L /\
    Eff.result (read CNT w) = Some (slot_of CNT (k + 1)) /\
    next_idx (reader (Eff.state (read CNT w))) = U32.wrap (L + 1) /\
    exists f old,
      after !! Z.to_nat (L - k - 1) = Some f /\
      deref (queue w) (slot_of CNT (k + 1)) = f old.
Proof.
  intros Hok Hm Hmax. cbv zeta.
  pose proof (in_sync_writes CNT before after _ _
                (in_sync_getReader CNT Hok before)) as Hs.
  cbn [queue reader] in Hs. specialize (Hs ltac:(lia)).
  assert (Hle : Z.of_nat (length before) + 1
                <= Z.of_nat (length (before ++ after)))
    by (rewrite length_app; lia).
  destruct (read_behind CNT Hok _ _ _ Hs Hle) as (HL & Hrec & Ho & Hres & Hst & _).
  destruct (deref_behind CNT Hok _ _ _ Hs Hle) as (f & old & Hf & Hd).
  rewrite length_app in *.
  set (L := last_write CNT (length before + length after)
              ((Z.of_nat (length before) + 1) mod CNT)) in *.
  exists L. split; [lia|]. split; [lia|]. split; [lia|]. split; [lia|].
  split; [exact Ho|]. split; [exact Hres|]. split; [now rewrite Hst|].
  exists f, old. split; [|exact Hd].
  rewrite lookup_app_r in Hf by lia. rewrite <- Hf. f_equal. lia.
Qed.

Lemma lapped_reader_skips_ahead_witness :
  exists L : Z,
    3 <= L <= 9 /\ 9 - 4 < L /\
    observed 4
      (mkWorld (writes 4 (map (fun d _ => d) [3; 4; 5; 6; 7; 8; 9])
                  (writes 4 [fun _ => 1; fun _ => 2] (init 4)))
               (getReader (writes 4 [fun _ => 1; fun _ => 2] (init 4))))
    = U32.wrap L.
Proof.
  destruct (lapped_reader_skips_ahead 4 [fun _ => 1; fun _ => 2]
              (map (fun d _ => d) [3; 4; 5; 6; 7; 8; 9]))
    as (L & HL & Hrec & _ & _ & Ho & _).
  - reflexivity.
  - vm_compute. lia.
  - vm_compute. discriminate.
  - exists L. split; [exact HL|]. split; [exact Hrec | exact Ho].
Defined.

Section Drain.
Context {T : Type} `{Inhabited T}.
Variable CNT : Z.
Hypothesis Hok : static_assert_ok CNT = true.

Lemma readLast_loop_step (fuel : nat) (ret : option nat) (w : World T) :
  readLast_loop CNT (S fuel) ret w =
  match Eff.result (read CNT w) with
  | Some p => readLast_loop CNT fuel (Some p) (Eff.state (read CNT w))
  | None => Some (ret, Eff.state (read CNT w))
  end.
Proof.
  cbn [readLast_loop]. unfold Eff.result, Eff.state.
  now destruct (read CNT w) as [[r w'] l].
Qed.

(** The loop of [readLast] from a state in sync: with enough passes allowed
    it ends, on the slot of the last write if the reader was behind and on the
    pointer it started with otherwise, and the reader has caught up. *)
Lemma readLast_loop_in_sync (fuel : nat) :
  forall (ws : list (T -> T)) (c : Z) (ret : option nat) (w : World T),
    in_sync CNT ws c w ->
    Z.of_nat (length ws) + 2 - c <= Z.of_nat fuel ->
    readLast_loop CNT fuel ret w
    = Some (if Z.leb c (Z.of_nat (length ws))
            then Some (slot_of CNT (Z.of_nat (length ws)))
            else ret,
            set_next_idx (U32.wrap (Z.of_nat (length ws) + 1)) w).
Proof.
  induction fuel as [|fuel IH]; intros ws c ret w Hs Hfuel.
  - destruct Hs as (_ & _ & Hc & _). lia.
  - rewrite readLast_loop_step.
    destruct (Z.leb_spec c (Z.of_nat (length ws))) as [Hle|Hgt].
    + destruct (read_behind CNT Hok ws c w Hs Hle)
        as (HL & _ & _ & Hres & Hst & Hs2).
      set (L := last_write CNT (length ws) (c mod CNT)) in *.
      rewrite Hres, (IH ws (L + 1) _ _ Hs2) by lia.
      rewrite Hst. f_equal. f_equal.
      destruct (Z.leb_spec (L + 1) (Z.of_nat (length ws))); [reflexivity|].
      assert (HLK : L = Z.of_nat (length ws)) by lia.
      destruct (last_write_congr CNT (length ws) (c mod CNT)) as [Hz|[_ Hm]];
        [destruct Hs as (_ & _ & Hc & _); fold L in Hz; lia|].
      fold L in Hm. unfold slot_of. now rewrite <- Hm, HLK.
    + assert (Hc : c = Z.of_nat (length ws) + 1)
        by (destruct Hs as (_ & _ & Hc & _); lia).
      subst c. destruct (read_caught_up CNT Hok ws w Hs) as [Hres Hst].
      rewrite Hres, Hst. f_equal. f_equal.
      destruct Hs as (_ & Hn & _). destruct w as [s [qq n]].
      cbn in Hn. subst n. reflexivity.
Qed.

End Drain.

(** X6. [readLast] on a reader created after the writes [before], once the
    writes [after] (at most [2^31]) have been made: allowed one pass more than
    the number of new writes, the loop ends; it returns null if nothing was
    written since the creation and otherwise a pointer to the payload of the
    latest write; afterwards the reader expects the next future write, so a
    following [read] returns null. *)
Theorem readLast_returns_latest {T} `{Inhabited T} (CNT : Z)
    (before after : list (T -> T)) (fuel : nat) :
  static_assert_ok CNT = true ->
  Z.of_nat (length after) <= U32.half ->
  (length after + 1 <= fuel)%nat ->
  let K := Z.of_nat (length before + length after) in
  let s0 := writes CNT before (init CNT) in
  let s1 := writes CNT after s0 in
  exists w' : World T,
    readLast CNT fuel (mkWorld s1 (getReader s0))
    = Some (match after with
            | [] => None
            | _ :: _ => Some (slot_of CNT K)
            end, w') /\
    queue w' = s1 /\
    reader w' = getReader s1 /\
    Eff.result (read CNT w') = None /\
    (forall f, last after = Some f ->
       exists old, deref s1 (slot_of CNT K) = f old).
Proof.
  intros Hok Hmax Hfuel. cbv zeta.
  pose proof (in_sync_writes CNT before after _ _
                (in_sync_getReader CNT Hok before)) as Hs.
  cbn [queue reader] in Hs. specialize (Hs ltac:(lia)).
  exists (mkWorld (writes CNT after (writes CNT before (init CNT)))
            (getReader (writes CNT after (writes CNT before (init CNT))))).
  unfold readLast.
  rewrite (readLast_loop_in_sync CNT Hok fuel _ _ None _ Hs)
    by (rewrite length_app; lia).
  rewrite length_app.
  assert (Hrd : set_next_idx
                  (U32.wrap (Z.of_nat (length before + length after) + 1))
                  (mkWorld (writes CNT after (writes CNT before (init CNT)))
                           (getReader (writes CNT before (init CNT))))
                = mkWorld (writes CNT after (writes CNT before (init CNT)))
                    (getReader (writes CNT after (writes CNT before (init CNT))))).
  { unfold set_next_idx, getReader. cbn [queue reader q]. f_equal. f_equal.
    destruct (writes_init_state CNT Hok (before ++ after)) as (Hw & _).
    cbv zeta in Hw. rewrite writes_app, length_app in Hw.
    now rewrite Hw, U32Facts.add_wrap_l. }
  rewrite Hrd. split; [|split; [reflexivity|split; [reflexivity|split]]].
  - f_equal. f_equal. destruct after as [|f after].
    + rewrite Nat.add_0_r.
      destruct (Z.leb_spec (Z.of_nat (length before) + 1)
                           (Z.of_nat (length before))); [lia|reflexivity].
    + destruct (Z.leb_spec (Z.of_nat (length before) + 1)
                  (Z.of_nat (length before + length (f :: after))));
        [reflexivity|simpl in *; lia].
  - pose proof (in_sync_getReader CNT Hok (before ++ after)) as Hs'.
    rewrite writes_app in Hs'.
    now destruct (read_caught_up CNT Hok _ _ Hs').
  - intros f Hlast.
    destruct (writes_init_state CNT Hok (before ++ after)) as (_ & _ & Hslots).
    rewrite writes_app, length_app in Hslots. cbv zeta in Hslots.
    destruct (Hslots (slot_of CNT (Z.of_nat (length before + length after)))
                (slot_of_lt CNT Hok _)) as [_ Hdata].
    assert (Hm : (1 <= length after)%nat).
    { destruct after; [discriminate|simpl; lia]. }
    rewrite (slot_of_Z CNT Hok), (last_write_hit CNT) in Hdata by (lia || reflexivity).
    destruct Hdata as (g & old & Hg & Hd); [lia|].
    exists old. unfold deref. rewrite Hd. f_equal.
    rewrite last_lookup in Hlast.
    rewrite lookup_app_r in Hg by lia.
    replace (Z.to_nat (Z.of_nat (length before + length after) - 1)
             - length before)%nat with (pred (length after)) in Hg by lia.
    congruence.
Qed.

Lemma readLast_returns_latest_witness :
  exists w' : World Z,
    readLast 4 4 (mkWorld (writes 4 [fun _ => 30; fun _ => 40; fun _ => 50]
                             (writes 4 [fun _ => 10; fun _ => 20] (init 4)))
                          (getReader (writes 4 [fun _ => 10; fun _ => 20] (init 4))))
    = Some (Some 1%nat, w').
Proof.
  destruct (readLast_returns_latest 4 [fun _ => 10; fun _ => 20]
              [fun _ => 30; fun _ => 40; fun _ => 50] 4)
    as (w' & Hr & _).
  - reflexivity.
  - vm_compute. discriminate.
  - vm_compute. lia.
  - exists w'. exact Hr.
Defined.

End RingFacts.

(** ** More facts about the hub *)

Module HubRunFacts.
Import SPMC Hub HubRun HubFacts.

Lemma add_unfold (d : MarketData) (h : MarketDataHub) :
  Eff.state (add d h)
  = mkHub (Eff.state (write_copy CNT d (queue_ h))) (subscribers_ h)
          (next_subscriber_id_ h).
Proof.
  unfold add, Eff.zoom, Eff.state, set_queue_.
  now destruct (write_copy CNT d (queue_ h)) as [[u s] l].
Qed.

Lemma stop_all_state (h : MarketDataHub) :
  Eff.state (stop_all h) = mkHub (queue_ h) ∅ (next_subscriber_id_ h).
Proof. reflexivity. Qed.

Lemma run_ops_snoc (ops : list hub_op) (o : hub_op) :
  run_ops (ops ++ [o]) = apply_op (run_ops ops) o.
Proof. unfold run_ops. now rewrite fold_left_app. Qed.

(** How one operation moves the ring and the counter. *)
Lemma apply_op_queue (h : MarketDataHub) (o : hub_op) :
  queue_ (apply_op h o)
  = writes_copy CNT (match o with OpAdd d => [d] | _ => [] end) (queue_ h).
Proof.
  destruct o as [d|t c|i|]; cbn [apply_op].
  - now rewrite add_unfold.
  - now rewrite subscribe_unfold.
  - now rewrite unsubscribe_state.
  - reflexivity.
Qed.

Lemma apply_op_counter (h : MarketDataHub) (o : hub_op) :
  next_subscriber_id_ (apply_op h o)
  = next_subscriber_id_ h + match o with OpSubscribe _ _ => 1 | _ => 0 end.
Proof.
  destruct o as [d|t c|i|]; cbn [apply_op].
  - rewrite add_unfold. simpl. lia.
  - rewrite subscribe_unfold. reflexivity.
  - rewrite unsubscribe_state. simpl. lia.
  - rewrite stop_all_state. simpl. lia.
Qed.

Lemma writes_copy_app (ds1 ds2 : list MarketData) (s : SPMCQueue MarketData) :
  writes_copy CNT (ds1 ++ ds2) s = writes_copy CNT ds2 (writes_copy CNT ds1 s).
Proof. unfold writes_copy. now rewrite fold_left_app. Qed.

Lemma fold_ops_queue (ops : list hub_op) (h : MarketDataHub) :
  queue_ (fold_left apply_op ops h) = writes_copy CNT (added ops) (queue_ h).
Proof.
  revert h. induction ops as [|o ops IH]; intros h; [reflexivity|].
  cbn [fold_left]. rewrite IH, apply_op_queue.
  unfold added. cbn [flat_map]. fold (added ops).
  now rewrite writes_copy_app.
Qed.

Lemma fold_ops_results (ops : list hub_op) (h : MarketDataHub) :
  run_results ops h
  = seqZ (next_subscriber_id_ h) (Z.of_nat (length (run_results ops h))) /\
  next_subscriber_id_ (fold_left apply_op ops h)
  = next_subscriber_id_ h + Z.of_nat (length (run_results ops h)).
Proof.
  revert h. induction ops as [|o ops IH]; intros h.
  - cbn. split; [reflexivity|lia].
  - cbn [fold_left run_results].
    destruct (IH (apply_op h o)) as [IH1 IH2].
    rewrite apply_op_counter in IH1, IH2.
    destruct o as [d|t c|i|]; try (rewrite Z.add_0_r in IH1, IH2; split; assumption).
    cbn [length]. rewrite IH2. split; [|lia].
    rewrite seqZ_cons by lia. f_equal.
    rewrite IH1 at 1. f_equal; lia.
Qed.

(** The table only holds records as [subscribe] stored them. *)
Lemma table_launched_step (h : MarketDataHub) (o : hub_op) :
  table_launched h -> table_launched (apply_op h o).
Proof.
  intros Hinv i sub. destruct o as [d|t c|j|]; cbn [apply_op].
  - rewrite add_unfold. apply Hinv.
  - rewrite subscribe_unfold. cbv zeta. unfold Eff.state. cbn [fst snd subscribers_].
    destruct (decide (next_subscriber_id_ h = i)) as [->|Hne].
    + rewrite lookup_insert_eq. intros [= <-]. repeat split.
    + rewrite lookup_insert_ne by assumption. apply Hinv.
  - rewrite unsubscribe_state. cbn [subscribers_].
    destruct (decide (j = i)) as [->|Hne].
    + rewrite lookup_delete_eq. discriminate.
    + rewrite lookup_delete_ne by assumption. apply Hinv.
  - rewrite stop_all_state. cbn [subscribers_]. rewrite lookup_empty. discriminate.
Qed.

Lemma table_launched_run (ops : list hub_op) : table_launched (run_ops ops).
Proof.
  induction ops as [|o ops IH] using rev_ind.
  - intros i sub. cbn. rewrite lookup_empty. discriminate.
  - rewrite run_ops_snoc. now apply table_launched_step.
Qed.

(** X7. Identifiers are never reused.  In every run, the calls of
    [subscribe] return 0, 1, 2, ... in order, whatever [unsubscribe] and
    [stop_all] calls come in between; the returned identifiers are pairwise
    distinct and the counter ends at their number. *)
Theorem subscribe_ids_count_up (ops : list hub_op) :
  subscribe_ids ops = seqZ 0 (Z.of_nat (length (subscribe_ids ops))) /\
  NoDup (subscribe_ids ops) /\
  next_subscriber_id_ (run_ops ops) = Z.of_nat (length (subscribe_ids ops)).
Proof.
  destruct (fold_ops_results ops hub_init) as [Hids Hcnt].
  change (next_subscriber_id_ hub_init) with 0 in Hids, Hcnt.
  split; [exact Hids|]. split; [|exact Hcnt].
  unfold subscribe_ids. rewrite Hids. apply NoDup_seqZ.
Qed.

Lemma apply_op_count (h : MarketDataHub) (o : hub_op) :
  Z.of_nat (subscriber_count (apply_op h o))
  <= Z.of_nat (subscriber_count h)
     + match o with OpSubscribe _ _ => 1 | _ => 0 end.
Proof.
  unfold subscriber_count. destruct o as [d|t c|i|]; cbn [apply_op].
  - rewrite add_unfold. simpl. lia.
  - rewrite subscribe_unfold. cbv zeta. unfold Eff.state. cbn [fst snd subscribers_].
    rewrite map_size_insert. destruct (subscribers_ h !! _); simpl; lia.
  - rewrite unsubscribe_state. cbn [subscribers_].
    rewrite map_size_delete. destruct (subscribers_ h !! i); simpl; lia.
  - rewrite stop_all_state. cbn [subscribers_]. rewrite map_size_empty. lia.
Qed.

Lemma fold_ops_count (ops : list hub_op) (h : MarketDataHub) :
  Z.of_nat (subscriber_count (fold_left apply_op ops h))
  <= Z.of_nat (subscriber_count h)
     + (next_subscriber_id_ (fold_left apply_op ops h) - next_subscriber_id_ h).
Proof.
  revert h. induction ops as [|o ops IH]; intros h; [cbn; lia|].
  cbn [fold_left]. specialize (IH (apply_op h o)).
  pose proof (apply_op_count h o) as Hc.
  pose proof (apply_op_counter h o) as Hn. lia.
Qed.

(** X11. The hub's ring holds the published records and nothing else: after
    any run the ring is the fresh ring after [write] of every record passed to
    [add], in order; [subscribe], [unsubscribe] and [stop_all] leave it as it
    is, and the table never holds more subscribers than were subscribed. *)
Theorem hub_ring_is_published_records (ops : list hub_op) :
  queue_ (run_ops ops) = writes_copy CNT (added ops) (init CNT) /\
  write_idx (queue_ (run_ops ops)) = U32.wrap (Z.of_nat (length (added ops))) /\
  (forall o, match o with OpAdd _ => False | _ => True end ->
     queue_ (apply_op (run_ops ops) o) = queue_ (run_ops ops)) /\
  (subscriber_count (run_ops ops) <= length (subscribe_ids ops))%nat.
Proof.
  assert (Hq : queue_ (run_ops ops) = writes_copy CNT (added ops) (init CNT))
    by apply fold_ops_queue.
  split; [exact Hq|]. split; [|split].
  - rewrite Hq, SPMCFacts.writes_copy_as_writes.
    destruct (SPMCFacts.writes_init_state CNT eq_refl
                (map (fun d (_ : MarketData) => d) (added ops))) as (Hw & _).
    cbv zeta in Hw. now rewrite length_map in Hw.
  - intros o Ho. rewrite apply_op_queue. now destruct o.
  - pose proof (fold_ops_count ops hub_init) as Hc.
    destruct (fold_ops_results ops hub_init) as [_ Hn].
    unfold run_ops, subscribe_ids.
    change (subscriber_count hub_init) with 0%nat in Hc.
    change (next_subscriber_id_ hub_init) with 0 in Hc, Hn. lia.
Qed.

Lemma stop_events_launched (l : list (Z * Subscriber)) :
  Forall (fun e => thread (snd e) = Some (fst e)) l ->
  flat_map stop_events l
  = flat_map (fun i => [HSetRunning i false; HJoin i]) (map fst l).
Proof.
  induction 1 as [|e l He _ IH]; [reflexivity|].
  cbn [flat_map map]. rewrite IH. unfold stop_events. now rewrite He.
Qed.

(** *** From [subscribe] and [add] to the callback *)

Lemma calls_app (l1 l2 : list cevent) : calls (l1 ++ l2) = calls l1 ++ calls l2.
Proof. unfold calls. apply flat_map_app. Qed.

Lemma calls_ring (l : list event) : calls (map CRing l) = [].
Proof. induction l as [|e l IH]; [reflexivity|exact IH]. Qed.

Lemma calls_print (l : list string) : calls (map CPrint l) = [].
Proof. induction l as [|e l IH]; [reflexivity|exact IH]. Qed.

Lemma hub_capacity_ok : static_assert_ok CNT = true.
Proof. reflexivity. Qed.

(** A subscriber that has caught up and sees no new record only sleeps. *)
Lemma idle_loop_calls_nothing (t : DataType) (c : PyCallback) (n : nat)
    (ws : list (MarketData -> MarketData)) (w : World MarketData) :
  Ring.in_sync CNT ws (Z.of_nat (length ws) + 1) w ->
  calls (Eff.events (consumer_loop t c (replicate n (mkTick [] true)) w)) = [].
Proof.
  intros Hs. induction n as [|n IH]; [reflexivity|].
  cbn [replicate]. rewrite consumer_loop_cons. cbv zeta.
  cbn [tick_running tick_writes writes_copy fold_left].
  replace (mkWorld (queue w) (reader w)) with w by now destruct w.
  destruct (RingFacts.read_caught_up CNT hub_capacity_ok ws w Hs) as [Hres Hst].
  rewrite consumer_iteration_unfold. cbv zeta. rewrite Hres, Hst.
  unfold Eff.result, Eff.state, Eff.events. cbn [fst snd].
  unfold Eff.events in IH. rewrite !calls_app, calls_ring, IH. reflexivity.
Qed.

(** X10. From [subscribe] to the callback.  On any hub reached by a run,
    subscribe with filter [t], then publish one record [d]: the new
    subscriber's consumer thread, polling any number of times while nothing
    else is published, invokes the callback exactly once, with [(t, d)], if
    the record's tag is [t], and never if it is not; this does not depend on
    what the callback does. *)
Theorem subscribe_then_publish_delivers_once (ops : list hub_op)
    (t : DataType) (c : PyCallback) (d : MarketData) (n : nat) :
  let h1 := Eff.state (subscribe t c (run_ops ops)) in
  let i := Eff.result (subscribe t c (run_ops ops)) in
  let h2 := Eff.state (add d h1) in
  calls (Eff.events (consumer_thread i h2 (replicate (S n) (mkTick [] true))))
  = if index d =? t then [(t, d)] else [].
Proof.
  cbv zeta. rewrite add_unfold, subscribe_unfold. cbv zeta.
  unfold Eff.state at 2 3 4, Eff.result. cbn [fst snd queue_ subscribers_].
  unfold consumer_thread. cbn [subscribers_ queue_].
  rewrite lookup_insert_eq. cbn [data_type callback reader_holder].
  rewrite SPMCFacts.write_copy_as_write.
  pose proof (fold_ops_queue ops hub_init) as Hq. fold (run_ops ops) in Hq.
  change (queue_ hub_init) with (init (T:=MarketData) CNT) in Hq.
  rewrite SPMCFacts.writes_copy_as_writes in Hq. rewrite Hq.
  set (ws := map (fun (x : MarketData) (_ : MarketData) => x) (added ops)).
  pose proof (RingFacts.in_sync_writes CNT ws [fun _ => d] _ _
                (RingFacts.in_sync_getReader CNT hub_capacity_ok ws)) as Hs.
  cbn [queue reader length] in Hs.
  specialize (Hs ltac:(rewrite U32Facts.half_eq; lia)).
  change (writes CNT [fun _ : MarketData => d] (writes CNT ws (init CNT)))
    with (Eff.state (write CNT (fun _ => d) (writes CNT ws (init CNT)))) in Hs.
  set (w0 := mkWorld (Eff.state (write CNT (fun _ => d) (writes CNT ws (init CNT))))
                     (getReader (writes CNT ws (init CNT)))) in *.
  assert (Hk : length (ws ++ [fun _ : MarketData => d]) = S (length ws))
    by (rewrite length_app; simpl; lia).
  assert (Hle : Z.of_nat (length ws) + 1
                <= Z.of_nat (length (ws ++ [fun _ : MarketData => d])))
    by (rewrite Hk; lia).
  destruct (RingFacts.read_behind CNT hub_capacity_ok _ _ w0 Hs Hle)
    as (_ & _ & _ & Hres & _ & Hs2).
  destruct (RingFacts.deref_behind CNT hub_capacity_ok _ _ w0 Hs Hle)
    as (f & old & Hf & Hd).
  assert (HL : last_write CNT (length (ws ++ [fun _ : MarketData => d]))
                 ((Z.of_nat (length ws) + 1) mod CNT)
               = Z.of_nat (length ws) + 1).
  { rewrite Hk, (SPMCFacts.last_write_hit CNT (S (length ws))); [lia|lia|].
    f_equal. lia. }
  rewrite HL in Hf, Hs2.
  replace (Z.to_nat (Z.of_nat (length ws) + 1 - 1)) with (length ws) in Hf by lia.
  rewrite lookup_app_r, Nat.sub_diag in Hf by lia. injection Hf as <-.
  replace (Z.of_nat (length ws) + 1 + 1)
    with (Z.of_nat (length (ws ++ [fun _ : MarketData => d])) + 1) in Hs2
    by (rewrite Hk; lia).
  cbn [replicate]. rewrite consumer_loop_cons. cbv zeta.
  cbn [tick_running tick_writes writes_copy fold_left].
  replace (mkWorld (queue w0) (reader w0)) with w0 by reflexivity.
  pose proof (idle_loop_calls_nothing t c n _ _ Hs2) as Hidle.
  rewrite consumer_iteration_state in *.
  rewrite consumer_iteration_unfold. cbv zeta. rewrite Hres, Hd.
  destruct (index d =? t) eqn:Htag.
  - apply Z.eqb_eq in Htag. rewrite Htag.
    destruct (c t d); unfold Eff.result, Eff.events; cbn [fst snd].
    + unfold Eff.events in Hidle.
      rewrite !calls_app, calls_ring, Hidle.
      change (CCall t d :: map CPrint printed)
        with ([CCall t d] ++ map CPrint printed).
      rewrite calls_app, calls_print. reflexivity.
    + now rewrite calls_app, calls_ring.
    + now rewrite calls_app, calls_ring.
  - unfold Eff.result, Eff.events. cbn [fst snd].
    unfold Eff.events in Hidle. now rewrite calls_app, calls_ring, Hidle.
Qed.

(** One pass of the loop of a subscriber that has caught up, right after one
    record [d] was published. *)
Lemma pass_after_one_record (t : DataType) (c : PyCallback) (d : MarketData)
    (ws : list (MarketData -> MarketData)) (w : World MarketData) :
  Ring.in_sync CNT ws (Z.of_nat (length ws) + 1) w ->
  let w1 := mkWorld (writes_copy CNT [d] (queue w)) (reader w) in
  Eff.result (read CNT w1) <> None /\
  (forall p, Eff.result (read CNT w1) = Some p -> deref (queue w1) p = d) /\
  Ring.in_sync CNT (ws ++ [fun _ => d])
    (Z.of_nat (length (ws ++ [fun _ : MarketData => d])) + 1)
    (Eff.state (read CNT w1)).
Proof.
  intros Hs. cbv zeta. rewrite SPMCFacts.writes_copy_as_writes. cbn [map].
  pose proof (RingFacts.in_sync_writes CNT ws [fun _ => d] _ w Hs) as Hs1.
  cbn [length] in Hs1. specialize (Hs1 ltac:(rewrite U32Facts.half_eq; lia)).
  assert (Hk : length (ws ++ [fun _ : MarketData => d]) = S (length ws))
    by (rewrite length_app; simpl; lia).
  assert (Hle : Z.of_nat (length ws) + 1
                <= Z.of_nat (length (ws ++ [fun _ : MarketData => d])))
    by (rewrite Hk; lia).
  destruct (RingFacts.read_behind CNT hub_capacity_ok _ _ _ Hs1 Hle)
    as (_ & _ & _ & Hres & _ & Hs2).
  destruct (RingFacts.deref_behind CNT hub_capacity_ok _ _ _ Hs1 Hle)
    as (f & old & Hf & Hd).
  assert (HL : last_write CNT (length (ws ++ [fun _ : MarketData => d]))
                 ((Z.of_nat (length ws) + 1) mod CNT)
               = Z.of_nat (length ws) + 1).
  { rewrite Hk, (SPMCFacts.last_write_hit CNT (S (length ws))); [lia|lia|].
    f_equal. lia. }
  rewrite HL in Hf, Hs2.
  replace (Z.to_nat (Z.of_nat (length ws) + 1 - 1)) with (length ws) in Hf by lia.
  rewrite lookup_app_r, Nat.sub_diag in Hf by lia. injection Hf as <-.
  split; [rewrite Hres; discriminate|]. split.
  - intros p Hp. rewrite Hres in Hp. injection Hp as <-. exact Hd.
  - replace (Z.of_nat (length (ws ++ [fun _ : MarketData => d])) + 1)
      with (Z.of_nat (length ws) + 1 + 1) by (rewrite Hk; lia).
    exact Hs2.
Qed.

Lemma loop_keeping_up (t : DataType) (c : PyCallback) (ds : list MarketData) :
  (forall tag rec, exists printed, c tag rec = Returned printed) ->
  forall (ws : list (MarketData -> MarketData)) (w : World MarketData),
    Ring.in_sync CNT ws (Z.of_nat (length ws) + 1) w ->
    calls (Eff.events
             (consumer_loop t c (map (fun d => mkTick [d] true) ds) w))
    = map (fun d => (t, d)) (filter (fun d => index d = t) ds).
Proof.
  intros Hret. induction ds as [|d ds IH]; intros ws w Hs; [reflexivity|].
  cbn [map]. rewrite consumer_loop_cons. cbv zeta.
  cbn [tick_running tick_writes].
  destruct (pass_after_one_record t c d ws w Hs) as (Hsome & Hd & Hs2).
  cbv zeta in Hsome, Hd, Hs2.
  set (w1 := mkWorld (writes_copy CNT [d] (queue w)) (reader w)) in *.
  specialize (IH _ _ Hs2). unfold Eff.events in IH.
  rewrite consumer_iteration_state.
  rewrite consumer_iteration_unfold. cbv zeta.
  destruct (Eff.result (read CNT w1)) as [p|] eqn:Hres; [|contradiction].
  specialize (Hd p eq_refl). rewrite Hd.
  rewrite filter_cons.
  destruct (Z.eqb_spec (index d) t) as [Heq|Hne].
  - rewrite decide_True by assumption. rewrite Heq.
    destruct (Hret t d) as [printed ->].
    unfold Eff.result, Eff.events. cbn [fst snd map].
    rewrite !calls_app, calls_ring, IH.
    change (CCall t d :: map CPrint printed)
      with ([CCall t d] ++ map CPrint printed).
    rewrite calls_app, calls_print. reflexivity.
  - rewrite decide_False by assumption.
    unfold Eff.result, Eff.events. cbn [fst snd].
    now rewrite calls_app, calls_ring, IH.
Qed.

(** X17. Filtered delivery in order.  Subscribe with filter [t] and a
    callback that returns normally; publish the records [ds] one at a time,
    the subscriber's thread polling after each.  The callback is invoked
    exactly on the records of [ds] whose tag is [t], once each, in the order
    they were published, always with the tag [t]. *)
Theorem subscriber_keeping_up_gets_its_tag (ops : list hub_op)
    (t : DataType) (c : PyCallback) (ds : list MarketData) :
  (forall tag rec, exists printed, c tag rec = Returned printed) ->
  let h1 := Eff.state (subscribe t c (run_ops ops)) in
  let i := Eff.result (subscribe t c (run_ops ops)) in
  calls (Eff.events (consumer_thread i h1 (map (fun d => mkTick [d] true) ds)))
  = map (fun d => (t, d)) (filter (fun d => index d = t) ds).
Proof.
  intros Hret. cbv zeta. rewrite subscribe_unfold. cbv zeta.
  unfold Eff.state at 1, Eff.result. cbn [fst snd].
  unfold consumer_thread. cbn [subscribers_ queue_].
  rewrite lookup_insert_eq. cbn [data_type callback reader_holder].
  pose proof (fold_ops_queue ops hub_init) as Hq. fold (run_ops ops) in Hq.
  change (queue_ hub_init) with (init (T:=MarketData) CNT) in Hq.
  rewrite SPMCFacts.writes_copy_as_writes in Hq. rewrite Hq.
  apply (loop_keeping_up t c ds Hret
           (map (fun (x : MarketData) (_ : MarketData) => x) (added ops))).
  apply (RingFacts.in_sync_getReader CNT hub_capacity_ok).
Qed.

Lemma subscriber_keeping_up_gets_its_tag_witness :
  calls (Eff.events
           (consumer_thread 0
              (Eff.state (subscribe TRADE quiet_callback (run_ops [])))
              (map (fun d => mkTick [d] true)
                   [sample_trade; MD_Kline (mkKline 8 1 2 3 4 5 "ETHUSDT");
                    sample_trade])))
  = [(TRADE, sample_trade); (TRADE, sample_trade)].
Proof.
  apply (subscriber_keeping_up_gets_its_tag [] TRADE quiet_callback
           [sample_trade; MD_Kline (mkKline 8 1 2 3 4 5 "ETHUSDT");
            sample_trade]).
  intros tag rec. exists []. reflexivity.
Defined.

End HubRunFacts.

(** ** Facts about the bindings' [symbol] property *)

Module BindingsFacts.
Import Hub Bindings.

Lemma symbol_load_NULs (n : nat) (a : list Ascii.ascii) :
  symbol_load (replicate (S n) NUL ++ a) = EmptyString.
Proof. reflexivity. Qed.

Lemma load_strncpy (n : nat) (s : string) :
  symbol_load (strncpy s n ++ [NUL]) = string_take n (until_NUL s).
Proof.
  revert s. induction n as [|n IH]; intros s.
  - now destruct (until_NUL s).
  - destruct s as [|c s]; [reflexivity|].
    cbn [strncpy until_NUL]. destruct (Ascii.eqb c NUL) eqn:Hc; [reflexivity|].
    cbn [app symbol_load string_take]. now rewrite Hc, IH.
Qed.

Lemma strncpy_length (n : nat) (s : string) : length (strncpy s n) = n.
Proof.
  revert s. induction n as [|n IH]; intros s; [reflexivity|].
  destruct s as [|c s]; cbn [strncpy].
  - apply length_replicate.
  - destruct (Ascii.eqb c NUL); [apply length_replicate|].
    cbn [length]. now rewrite IH.
Qed.

Lemma string_take_length (n : nat) (s : string) :
  (String.length (string_take n s) <= n)%nat.
Proof.
  revert s. induction n as [|n IH]; intros s; [destruct s; simpl; lia|].
  destruct s as [|c s]; cbn; [lia|]. specialize (IH s). lia.
Qed.

Lemma string_take_all (n : nat) (s : string) :
  (String.length s <= n)%nat -> string_take n s = s.
Proof.
  revert s. induction n as [|n IH]; intros s Hlen.
  - destruct s; [reflexivity|simpl in Hlen; lia].
  - destruct s as [|c s]; [reflexivity|].
    cbn. f_equal. apply IH. simpl in Hlen. lia.
Qed.

Lemma until_NUL_none (s : string) :
  (forall c, In c (String.list_ascii_of_string s) -> c <> NUL) -> until_NUL s = s.
Proof.
  induction s as [|c s IH]; intros Hno; [reflexivity|].
  cbn. destruct (Ascii.eqb_spec c NUL) as [->|Hne].
  - exfalso. apply (Hno NUL); [now left|reflexivity].
  - f_equal. apply IH. intros c' Hin. apply Hno. now right.
Qed.

Lemma load_n_eq_load (a : list Ascii.ascii) (n : nat) :
  (exists j, (j < n)%nat /\ a !! j = Some NUL) ->
  String.string_of_list_ascii (take (strnlen a n) a) = symbol_load a.
Proof.
  revert n. induction a as [|c a IH]; intros n (j & Hj & Hlook); [discriminate|].
  destruct n as [|n]; [lia|]. cbn [strnlen symbol_load].
  destruct (Ascii.eqb c NUL) eqn:Hc; [reflexivity|].
  cbn [take String.string_of_list_ascii]. f_equal.
  destruct j as [|j].
  - cbn in Hlook. injection Hlook as ->. now rewrite Ascii.eqb_refl in Hc.
  - apply IH. exists j. split; [lia|exact Hlook].
Qed.

(** X12. The [symbol] property of the three record classes.  Setting
    [symbol] to [s] and reading it back gives [s] cut at its first NUL character and at 31 characters; the array
    keeps its 32 characters and ends with NUL; a string of at most 31
    characters without NUL is read back unchanged; and the callback wrapper,
    which reads the array through [strnlen], reads the same string. *)
Theorem symbol_set_then_get (s : string) (k : Kline) (t : Trade) (b : BookL1) :
  kline_symbol (kline_set_symbol s k) = string_take 31 (until_NUL s) /\
  trade_symbol (trade_set_symbol s t) = string_take 31 (until_NUL s) /\
  book_symbol (book_set_symbol s b) = string_take 31 (until_NUL s) /\
  length (symbol_store s) = 32%nat /\
  symbol_store s !! 31%nat = Some NUL /\
  (String.length (kline_symbol (kline_set_symbol s k)) <= 31)%nat /\
  symbol_load_n (symbol_store s) = symbol_load (symbol_store s) /\
  ((String.length s <= 31)%nat ->
   (forall c, In c (String.list_ascii_of_string s) -> c <> NUL) ->
   kline_symbol (kline_set_symbol s k) = s).
Proof.
  assert (Hload : symbol_load (symbol_store s) = string_take 31 (until_NUL s))
    by apply load_strncpy.
  assert (Hlast : symbol_store s !! 31%nat = Some NUL).
  { unfold symbol_store.
    rewrite lookup_app_r by (rewrite strncpy_length; lia).
    now rewrite strncpy_length. }
  cbn [kline_set_symbol kline_symbol trade_set_symbol trade_symbol
       book_set_symbol book_symbol]. rewrite Hload.
  split; [reflexivity|]. split; [reflexivity|]. split; [reflexivity|]. split.
  { unfold symbol_store. rewrite length_app, strncpy_length. reflexivity. }
  split; [exact Hlast|]. split; [apply string_take_length|]. split.
  { rewrite <- Hload. unfold symbol_load_n. apply load_n_eq_load.
    exists 31%nat. split; [lia|exact Hlast]. }
  intros Hlen Hno. rewrite until_NUL_none by assumption.
  now apply string_take_all.
Qed.

Lemma symbol_set_then_get_witness :
  kline_symbol (kline_set_symbol "BTCUSDT"
                  (mkKline 0 0 0 0 0 0 EmptyString)) = "BTCUSDT"%string.
Proof.
  apply (symbol_set_then_get "BTCUSDT" (mkKline 0 0 0 0 0 0 EmptyString)
           (mkTrade 0 0 0 EmptyString false) (mkBookL1 0 0 0 0 0 EmptyString)).
  - vm_compute. lia.
  - intros c Hin. vm_compute in Hin.
    repeat (destruct Hin as [<-|Hin]; [discriminate|]). destruct Hin.
Defined.

End BindingsFacts.

(** ** Facts about [MockCppProducer] *)

Module ProducerFacts.
Import SPMC Hub Producer.

(** The encoding gives the usual bit patterns. *)
Lemma double_of_int_samples :
  double_of_int 1 = 0x3FF0000000000000 /\
  double_of_int 50000 = 0x40E86A0000000000 /\
  double_of_int 100 = 0x4059000000000000.
Proof. repeat split; reflexivity. Qed.

Lemma message_tag (mt i : Z) :
  index (make_message mt i)
  = if mt =? 0 then TRADE else if mt =? 1 then KLINE else BOOK_L1.
Proof. unfold make_message. destruct (mt =? 0), (mt =? 1); reflexivity. Qed.

(** The loop, for [j] passes whose test reads [running_] true, followed
    either by the end of the count or by a test that reads it false. *)
Lemma producer_loop_run (j : nat) :
  forall (tail : list bool) (i : Z) (h : MarketDataHub) (p : MockCppProducer),
    i + Z.of_nat j <= num_messages_ p ->
    (i + Z.of_nat j = num_messages_ p \/ exists rest, tail = false :: rest) ->
    producer_loop (replicate j true ++ tail) i h p
    = (mkHub (writes_copy CNT
                (map (make_message (message_type_ p)) (seqZ i (Z.of_nat j)))
                (queue_ h))
             (subscribers_ h) (next_subscriber_id_ h),
       mkProducer (running_ p) (thread_ p) (num_messages_ p) (message_type_ p)
                  (messages_produced_ p + Z.of_nat j),
       true).
Proof.
  induction j as [|j IH]; intros tail i h p Hle Hend.
  - cbn [replicate app Z.of_nat]. rewrite Z.add_0_r in *.
    change (seqZ i 0) with (@nil Z). destruct h as [hq hs hn].
    destruct p as [pr pt pn pm pc].
    cbn [map num_messages_ message_type_ running_ thread_ messages_produced_
         queue_ subscribers_ next_subscriber_id_] in *.
    unfold writes_copy. cbn [fold_left].
    destruct Hend as [Heq|[rest ->]].
    + destruct tail; cbn [producer_loop num_messages_];
        destruct (Z.ltb_spec i pn); try lia; reflexivity.
    + cbn [producer_loop num_messages_]. now destruct (i <? pn).
  - cbn [replicate app producer_loop].
    destruct (Z.ltb_spec i (num_messages_ p)); [|lia].
    rewrite IH; cbn [num_messages_ message_type_ running_ thread_
                     messages_produced_]; [|lia|destruct Hend; [left; lia|now right]].
    rewrite HubRunFacts.add_unfold. cbn [queue_ subscribers_ next_subscriber_id_].
    rewrite (seqZ_cons i) by lia. unfold writes_copy. cbn [map fold_left].
    replace (Z.succ i) with (i + 1) by lia.
    replace (Z.pred (Z.of_nat (S j))) with (Z.of_nat j) by lia.
    replace (messages_produced_ p + Z.of_nat (S j))
      with (messages_produced_ p + 1 + Z.of_nat j) by lia.
    reflexivity.
Qed.

(** X13. A run of [producer_thread].  If the loop test reads [running_] true
    [j] times and then either the count [num_messages_] is reached or
    [running_] is read false, the thread ends having published exactly [j]
    records, numbered [0 .. j-1] in their timestamps, through [add];
    [messages_produced_] is [j], the subscriber table is untouched and
    [running_] is not cleared.  The records are Trades for [message_type] 0,
    Klines for 1 and BookL1 for every other value. *)
Theorem producer_thread_publishes (j : nat) (tail : list bool)
    (h : MarketDataHub) (p : MockCppProducer) :
  Z.of_nat j <= num_messages_ p ->
  (Z.of_nat j = num_messages_ p \/ exists rest, tail = false :: rest) ->
  let records := map (make_message (message_type_ p)) (seqZ 0 (Z.of_nat j)) in
  let out := producer_thread (replicate j true ++ tail) h p in
  snd out = true /\
  messages_produced_ (snd (fst out)) = Z.of_nat j /\
  running_ (snd (fst out)) = running_ p /\
  queue_ (fst (fst out)) = writes_copy CNT records (queue_ h) /\
  subscribers_ (fst (fst out)) = subscribers_ h /\
  length records = j /\
  Forall (fun m =>
            index m = (if message_type_ p =? 0 then TRADE
                       else if message_type_ p =? 1 then KLINE else BOOK_L1))
         records /\
  (forall i m, records !! i = Some m ->
     match m with
     | MD_Kline k => kline_timestamp k
     | MD_Trade t => trade_timestamp t
     | MD_BookL1 b => book_timestamp b
     end = Z.of_nat i).
Proof.
  intros Hle Hend. cbv zeta. unfold producer_thread.
  rewrite producer_loop_run; cbn [num_messages_ message_type_ running_ thread_
                                  messages_produced_ fst snd queue_ subscribers_];
    [|lia|destruct Hend; [left; lia|now right]].
  split; [reflexivity|]. split; [lia|]. split; [reflexivity|].
  split; [reflexivity|]. split; [reflexivity|].
  split; [rewrite length_map, length_seqZ; lia|]. split.
  - apply Forall_forall. intros m Hm.
    apply list_elem_of_fmap in Hm as (i & -> & _). apply message_tag.
  - intros i m Hlook. rewrite list_lookup_fmap in Hlook.
    destruct (seqZ 0 (Z.of_nat j) !! i) as [v|] eqn:Hv; [|discriminate].
    apply lookup_seqZ in Hv as [-> _]. injection Hlook as <-.
    unfold make_message.
    destruct (message_type_ p =? 0); [cbn; lia|].
    destruct (message_type_ p =? 1); cbn; lia.
Qed.

Lemma producer_thread_publishes_witness :
  messages_produced_
    (snd (fst (producer_thread [true; true; false; true] hub_init
                 (start 5 0 (new_producer 0 0))))) = 2.
Proof.
  destruct (producer_thread_publishes 2 [false; true] hub_init
              (start 5 0 (new_producer 0 0))) as (_ & Hn & _).
  - vm_compute. discriminate.
  - right. eauto.
  - exact Hn.
Defined.

Lemma producer_loop_keeps (flags : list bool) :
  forall (i : Z) (h : MarketDataHub) (p : MockCppProducer),
    let p' := snd (fst (producer_loop flags i h p)) in
    running_ p' = running_ p /\ thread_ p' = thread_ p /\
    num_messages_ p' = num_messages_ p /\ message_type_ p' = message_type_ p.
Proof.
  induction flags as [|b flags IH]; intros i h p; cbv zeta; cbn [producer_loop].
  - destruct (i <? num_messages_ p); repeat split.
  - destruct (i <? num_messages_ p); [|repeat split].
    destruct b; [|repeat split].
    exact (IH (i + 1) _ (mkProducer (running_ p) (thread_ p) (num_messages_ p)
                             (message_type_ p) (messages_produced_ p + 1))).
Qed.

(** X14. [start] after a run.  [producer_thread] never clears [running_], so
    after [start], a run of the thread (however far it got) and [wait], a new
    call of [start] is ignored: it changes nothing and launches no thread.
    Only after [stop] does [start] launch again, with the new arguments. *)
Theorem start_is_ignored_until_stop (p0 : MockCppProducer) (h : MarketDataHub)
    (flags : list bool) (n mt n' mt' : Z) :
  running_ p0 = false ->
  let p1 := start n mt p0 in
  let p2 := wait (snd (fst (producer_thread flags h p1))) in
  running_ p2 = true /\
  thread_ p2 = Some false /\
  start n' mt' p2 = p2 /\
  num_messages_ (start n' mt' p2) = n /\
  start n' mt' (stop p2)
  = mkProducer true (Some true) n' mt' (messages_produced_ p2).
Proof.
  intros Hrun. cbv zeta.
  assert (Hs : start n mt p0
               = mkProducer true (Some true) n mt (messages_produced_ p0))
    by (unfold start; now rewrite Hrun).
  rewrite Hs. unfold producer_thread.
  cbn [running_ thread_ num_messages_ message_type_].
  destruct (producer_loop_keeps flags 0 h
              (mkProducer true (Some true) n mt 0)) as (Hr & Ht & Hn & Hm).
  cbv zeta in Hr, Ht, Hn, Hm.
  cbn [running_ thread_ num_messages_ message_type_] in Hr, Ht, Hn, Hm.
  destruct (snd (fst (producer_loop flags 0 h
                        (mkProducer true (Some true) n mt 0))))
    as [r t nn mm c].
  cbn [running_ thread_ num_messages_ message_type_] in Hr, Ht, Hn, Hm.
  subst r t nn mm. repeat split.
Qed.

Lemma start_is_ignored_until_stop_witness :
  start 9 1 (wait (snd (fst (producer_thread [true; true; true] hub_init
                               (start 2 0 (new_producer 0 0))))))
  = wait (snd (fst (producer_thread [true; true; true] hub_init
                      (start 2 0 (new_producer 0 0))))).
Proof.
  apply (start_is_ignored_until_stop (new_producer 0 0) hub_init
           [true; true; true] 2 0 9 1).
  reflexivity.
Defined.

End ProducerFacts.

(** ** Facts about the benchmark threads *)

Module BenchFacts.
Import Bench.

Lemma bench_capacity_ok : SPMC.static_assert_ok CNT = true.
Proof. reflexivity. Qed.

Lemma write_thread_length (clock : list Z) :
  Z.of_nat (length (write_thread clock)) <= MAX_I.
Proof.
  unfold write_thread. rewrite length_imap, length_take. unfold MAX_I. lia.
Qed.

(** Call number [j + 1] of the writer stores a message with [idx = j]. *)
Lemma write_thread_lookup (clock : list Z) (j : nat) (f : Msg -> Msg) (old : Msg) :
  write_thread clock !! j = Some f -> idx (f old) = Z.of_nat j.
Proof.
  unfold write_thread. rewrite list_lookup_imap.
  destruct (take (Z.to_nat MAX_I) clock !! j); [|discriminate].
  intros [= <-]. reflexivity.
Qed.

Section Reader.
Variable Stat : Type.
Variable stat_add : Stat -> Z -> Stat.

Lemma read_loop_cons (n : nat) (now : Z) (rest : list (nat * Z))
    (pending : list (Msg -> Msg)) (w : SPMC.World Msg) (count : Z) (stat : Stat) :
  read_loop Stat stat_add ((n, now) :: rest) pending w count stat =
  let w1 := SPMC.mkWorld (SPMC.writes CNT (take n pending) (SPMC.queue w))
                         (SPMC.reader w) in
  match Eff.result (SPMC.read CNT w1) with
  | None =>
      read_loop Stat stat_add rest (drop n pending)
                (Eff.state (SPMC.read CNT w1)) count stat
  | Some p =>
      let msg := SPMC.deref (SPMC.queue w1) p in
      let stat' := stat_add stat (wrap64 (now - ts_ns msg)) in
      if idx msg <? count + 1 then (AssertionFailed, count + 1, stat')
      else if MAX_I - 1 <=? idx msg then (Finished, count + 1, stat')
      else read_loop Stat stat_add rest (drop n pending)
                     (Eff.state (SPMC.read CNT w1)) (count + 1) stat'
  end.
Proof.
  cbn [read_loop]. cbv zeta. unfold Eff.result, Eff.state.
  now destruct (SPMC.read CNT _) as [[r w'] l].
Qed.

(** The loop from a state in sync in which the reader expects a write
    number at least two above its count: the assertion never fails. *)
Lemma read_loop_assertion_holds (clock : list Z) (sched : list (nat * Z)) :
  forall (done pending : list (Msg -> Msg)) (c : Z) (w : SPMC.World Msg)
         (count : Z) (stat : Stat),
    done ++ pending = write_thread clock ->
    Ring.in_sync CNT done c w ->
    count + 2 <= c ->
    fst (fst (read_loop Stat stat_add sched pending w count stat))
    <> AssertionFailed.
Proof.
  induction sched as [|[n now] rest IH];
    intros done pending c w count stat Hsplit Hs Hc; [discriminate|].
  pose proof (write_thread_length clock) as HW.
  rewrite <- Hsplit, length_app in HW.
  assert (Hsplit' : (done ++ take n pending) ++ drop n pending
                    = write_thread clock)
    by (rewrite <- app_assoc, take_drop; exact Hsplit).
  assert (Hlen : (length (take n pending) <= length pending)%nat)
    by (rewrite length_take; lia).
  assert (Hs1 : Ring.in_sync CNT (done ++ take n pending) c
                  (SPMC.mkWorld (SPMC.writes CNT (take n pending) (SPMC.queue w))
                                (SPMC.reader w))).
  { apply (RingFacts.in_sync_writes CNT); [exact Hs|].
    destruct Hs as (_ & _ & Hc1 & _).
    rewrite U32Facts.half_eq. unfold MAX_I in HW. lia. }
  rewrite read_loop_cons. cbv zeta.
  destruct (Z_le_gt_dec c (Z.of_nat (length (done ++ take n pending))))
    as [Hle|Hgt].
  - destruct (RingFacts.read_behind CNT bench_capacity_ok _ _ _ Hs1 Hle)
      as (HL & _ & _ & Hres & _ & Hs2).
    destruct (RingFacts.deref_behind CNT bench_capacity_ok _ _ _ Hs1 Hle)
      as (f & old & Hf & Hd).
    set (L := SPMC.last_write CNT (length (done ++ take n pending)) (c mod CNT))
      in *.
    rewrite Hres, Hd.
    assert (HfW : write_thread clock !! Z.to_nat (L - 1) = Some f)
      by (rewrite <- Hsplit'; now apply lookup_app_l_Some).
    rewrite (write_thread_lookup clock _ f old HfW).
    destruct (Z.ltb_spec (Z.of_nat (Z.to_nat (L - 1))) (count + 1)); [lia|].
    destruct (MAX_I - 1 <=? Z.of_nat (Z.to_nat (L - 1))); [discriminate|].
    apply (IH (done ++ take n pending) (drop n pending) (L + 1));
      [exact Hsplit'|exact Hs2|lia].
  - assert (Hc1 : c = Z.of_nat (length (done ++ take n pending)) + 1)
      by (destruct Hs1 as (_ & _ & Hc1 & _); lia).
    pose proof Hs1 as Hs1'. rewrite Hc1 in Hs1'.
    destruct (RingFacts.read_caught_up CNT bench_capacity_ok _ _ Hs1')
      as [Hres Hst].
    rewrite Hres, Hst.
    apply (IH (done ++ take n pending) (drop n pending) c);
      [exact Hsplit'|exact Hs1|exact Hc].
Qed.

End Reader.

(** X15. The assertion of [read_thread].  A reader thread that takes its
    reader once the writer has completed at least one call of [write] never
    fails [assert(msg->idx >= count)], whatever the interleaving of its polls
    with the writer's further calls and whatever the clock reads. *)
Theorem read_thread_assertion_holds (Stat : Type) (stat_add : Stat -> Z -> Stat)
    (clock : list Z) (k : nat) (sched : list (nat * Z)) (stat0 : Stat) :
  (1 <= length (take k (write_thread clock)))%nat ->
  fst (fst (read_thread Stat stat_add clock k sched stat0)) <> AssertionFailed.
Proof.
  intros Hk. unfold read_thread.
  apply (read_loop_assertion_holds Stat stat_add clock sched
           (take k (write_thread clock)) (drop k (write_thread clock))
           (Z.of_nat (length (take k (write_thread clock))) + 1)).
  - apply take_drop.
  - apply (RingFacts.in_sync_getReader CNT bench_capacity_ok).
  - lia.
Qed.

Lemma read_thread_assertion_holds_witness :
  fst (fst (read_thread (list Z) (fun l x => x :: l) [100; 200; 300; 400] 1
              [(0%nat, 150); (2%nat, 350); (1%nat, 450)] []))
  <> AssertionFailed.
Proof.
  apply (read_thread_assertion_holds (list Z) (fun l x => x :: l)
           [100; 200; 300; 400] 1
           [(0%nat, 150); (2%nat, 350); (1%nat, 450)] []).
  vm_compute. lia.
Defined.



End BenchFacts.

(** ** Facts about the calls that join *)

Module ThreadsFacts.
Import SPMC Hub HubRun Threads HubFacts HubRunFacts.

(** *** Steps of the consumer threads *)

(** A thread's step leaves the calling thread's part of the state alone and
    touches no other thread. *)
Lemma thread_step_frame (k : Z) (s s' : conc) :
  conc_step (Thread k) s = Some s' ->
  locked s' = locked s /\ pending s' = pending s /\ flags s' = flags s /\
  (forall j, j <> k -> tstates s' !! j = tstates s !! j).
Proof.
  cbn [conc_step]. unfold thread_effect.
  destruct (tstates s !! k) as [[| |]|] eqn:Hk; try discriminate.
  - destruct (locked s) eqn:Hl; [discriminate|]. intros [= <-].
    cbn [locked pending flags tstates]. repeat split; auto.
    intros j Hj. now rewrite lookup_insert_ne.
  - destruct (flags s !! k) as [[|]|]; try discriminate; intros [= <-];
      cbn [locked pending flags tstates]; repeat split; auto.
    intros j Hj. now rewrite lookup_insert_ne.
Qed.

(** In its loop with [running] set, a thread makes a pass and is back at the
    loop test. *)
Lemma thread_step_in_loop (k : Z) (s : conc) :
  tstates s !! k = Some InLoop -> flags s !! k = Some true ->
  conc_step (Thread k) s = Some s.
Proof.
  intros Hk Hf. cbn [conc_step]. unfold thread_effect. now rewrite Hk, Hf.
Qed.

Lemma thread_step_done (k : Z) (s : conc) :
  tstates s !! k = Some Done -> conc_step (Thread k) s = None.
Proof. intros Hk. cbn [conc_step]. unfold thread_effect. now rewrite Hk. Qed.

Lemma thread_keeps_steady (l : bool) (p : list hevent) (F : gmap Z bool)
    (ids done : list Z) (k : Z) (s : conc) :
  steady l p F ids done s ->
  steady l p F ids done (default s (conc_step (Thread k) s)).
Proof.
  intros Hst.
  destruct (conc_step (Thread k) s) as [s'|] eqn:Hstep; cbn [default from_option Datatypes.id];
    [|exact Hst].
  destruct Hst as (Hl & Hp & HF & Hids & Hdone).
  destruct (thread_step_frame k s s' Hstep) as (El & Ep & EF & Eo).
  split; [congruence|]. split; [congruence|]. split; [congruence|]. split.
  - intros i Hi. destruct (Hids i Hi) as [Hin Hfl]. split; [|exact Hfl].
    destruct (decide (i = k)) as [->|Hne].
    + rewrite thread_step_in_loop in Hstep by (congruence). now injection Hstep as <-.
    + now rewrite Eo.
  - intros j Hj. specialize (Hdone j Hj).
    destruct (decide (j = k)) as [->|Hne].
    + now rewrite thread_step_done in Hstep.
    + now rewrite Eo.
Qed.

(** *** Running until a given thread has had its turn *)

Lemma conc_run_cons (a : actor) (sched : list actor) (s : conc) :
  conc_run (a :: sched) s = conc_run sched (default s (conc_step a s)).
Proof. reflexivity. Qed.

Lemma run_until (a : actor) (Q Q' : conc -> Prop) :
  (forall b s, b <> a -> Q s -> Q (default s (conc_step b s))) ->
  (forall s, Q s -> Q' (default s (conc_step a s))) ->
  forall (P sched : list actor) (s : conc),
    Q s -> sublist (a :: P) sched ->
    exists post s',
      sublist P post /\ Q' s' /\ conc_run sched s = conc_run post s'.
Proof.
  intros Hother Hturn P sched.
  induction sched as [|b sched IH]; intros s HQ Hsub.
  - inversion Hsub.
  - destruct (decide (b = a)) as [->|Hne].
    + exists sched, (default s (conc_step a s)). split; [|split].
      * inversion Hsub; subst; [assumption|].
        transitivity (a :: P); [apply sublist_cons; reflexivity|assumption].
      * now apply Hturn.
      * reflexivity.
    + inversion Hsub; subst; [congruence|].
      rewrite conc_run_cons. apply IH; [|assumption]. now apply Hother.
Qed.

(** *** Steps of the calling thread *)

Ltac steady_parts :=
  unfold steady; cbn [locked pending flags tstates];
  split; [|split; [|split; [|split]]];
  first [assumption | reflexivity | idtac].

Lemma main_lock (p : list hevent) (F : gmap Z bool) (ids done : list Z)
    (s : conc) :
  steady false (HLock :: p) F ids done s ->
  steady true p F ids done (default s (conc_step Main s)).
Proof.
  intros (Hl & Hp & HF & Hids & Hdone).
  cbn [conc_step]. rewrite Hp. cbn [call_effect]. rewrite Hl.
  cbn [default from_option Datatypes.id]. steady_parts.
Qed.

Lemma main_unlock (p : list hevent) (F : gmap Z bool) (ids done : list Z)
    (s : conc) :
  steady true (HUnlock :: p) F ids done s ->
  steady false p F ids done (default s (conc_step Main s)).
Proof.
  intros (Hl & Hp & HF & Hids & Hdone).
  cbn [conc_step]. rewrite Hp. cbn [call_effect default from_option Datatypes.id].
  steady_parts.
Qed.

Lemma main_set_running (i : Z) (p : list hevent) (F : gmap Z bool)
    (ids done : list Z) (s : conc) :
  i ∉ ids ->
  steady true (HSetRunning i false :: p) F (i :: ids) done s ->
  steady true p (alter (fun _ => false) i F) ids done
         (default s (conc_step Main s)) /\
  tstates (default s (conc_step Main s)) !! i = Some InLoop /\
  alter (fun _ : bool => false) i F !! i = Some false.
Proof.
  intros Hni (Hl & Hp & HF & Hids & Hdone).
  cbn [conc_step]. rewrite Hp. cbn [call_effect default from_option Datatypes.id].
  destruct (Hids i ltac:(left)) as [Hti Hfi].
  split; [|split].
  - split; [exact Hl|]. split; [reflexivity|]. split; [cbn; now rewrite HF|].
    split; [|exact Hdone].
    intros j Hj. destruct (Hids j ltac:(now right)) as [Htj Hfj].
    split; [exact Htj|]. rewrite lookup_alter_ne; [exact Hfj|].
    intros ->. contradiction.
  - exact Hti.
  - now rewrite lookup_alter_eq, Hfi.
Qed.

Lemma main_join (i : Z) (p : list hevent) (F : gmap Z bool)
    (ids done : list Z) (s : conc) :
  i ∈ done ->
  steady true (HJoin i :: p) F ids done s ->
  steady true p F ids done (default s (conc_step Main s)).
Proof.
  intros Hi (Hl & Hp & HF & Hids & Hdone).
  cbn [conc_step]. rewrite Hp. cbn [call_effect]. rewrite (Hdone i Hi).
  cbn [default from_option Datatypes.id]. steady_parts.
Qed.

Lemma main_erase (i : Z) (p : list hevent) (F : gmap Z bool)
    (done : list Z) (s : conc) :
  steady true (HErase i :: p) F [] done s ->
  steady true p (delete i F) [] done (default s (conc_step Main s)).
Proof.
  intros (Hl & Hp & HF & Hids & Hdone).
  cbn [conc_step]. rewrite Hp. cbn [call_effect default from_option Datatypes.id].
  split; [exact Hl|]. split; [reflexivity|]. split; [cbn; now rewrite HF|].
  split; [|exact Hdone]. intros j Hj. now apply elem_of_nil in Hj.
Qed.

Lemma main_clear (p : list hevent) (F : gmap Z bool) (done : list Z)
    (s : conc) :
  steady true (HClear :: p) F [] done s ->
  steady true p ∅ [] done (default s (conc_step Main s)).
Proof.
  intros (Hl & Hp & HF & Hids & Hdone).
  cbn [conc_step]. rewrite Hp. cbn [call_effect default from_option Datatypes.id].
  split; [exact Hl|]. split; [reflexivity|]. split; [reflexivity|].
  split; [|exact Hdone]. intros j Hj. now apply elem_of_nil in Hj.
Qed.

(** Steps of the threads while the calling thread waits for its turn. *)
Lemma others_keep_steady (l : bool) (p : list hevent) (F : gmap Z bool)
    (ids done : list Z) (b : actor) (s : conc) :
  b <> Main ->
  steady l p F ids done s ->
  steady l p F ids done (default s (conc_step b s)).
Proof.
  intros Hb Hst. destruct b as [|k]; [contradiction|].
  now apply thread_keeps_steady.
Qed.

(** When the call is over, nothing moves the calling thread's part. *)
Lemma steady_over (l : bool) (F : gmap Z bool) (done : list Z)
    (sched : list actor) :
  forall s : conc,
    steady l [] F [] done s -> steady l [] F [] done (conc_run sched s).
Proof.
  induction sched as [|a sched IH]; intros s Hst; [exact Hst|].
  rewrite conc_run_cons. apply IH. destruct a as [|k].
  - cbn [conc_step]. destruct Hst as (Hl & Hp & HF & Hids & Hdone).
    rewrite Hp. cbn [default from_option Datatypes.id]. steady_parts.
  - now apply thread_keeps_steady.
Qed.

(** *** Clearing [running] and joining one thread, then all of them *)

Lemma join_segment (i : Z) (ids done : list Z) (p : list hevent)
    (F : gmap Z bool) (P sched : list actor) (s : conc) :
  i ∉ ids ->
  steady true (HSetRunning i false :: HJoin i :: p) F (i :: ids) done s ->
  sublist ([Main; Thread i; Main] ++ P) sched ->
  exists post s',
    sublist P post /\
    steady true p (alter (fun _ => false) i F) ids (i :: done) s' /\
    conc_run sched s = conc_run post s'.
Proof.
  intros Hni Hst Hsub. cbn [app] in Hsub.
  (* the calling thread clears [running] *)
  destruct (run_until Main
              (steady true (HSetRunning i false :: HJoin i :: p) F (i :: ids) done)
              (fun s' =>
                 steady true (HJoin i :: p) (alter (fun _ => false) i F) ids done s'
                 /\ tstates s' !! i = Some InLoop
                 /\ alter (fun _ : bool => false) i F !! i = Some false)
              ltac:(intros b s1 Hb H1; now apply others_keep_steady)
              ltac:(intros s1 H1; now apply main_set_running)
              _ sched s Hst Hsub)
    as (post1 & s1 & Hsub1 & (Hst1 & Hti1 & Hfi1) & Hrun1).
  (* the thread reads it and returns *)
  destruct (run_until (Thread i)
              (fun s' =>
                 steady true (HJoin i :: p) (alter (fun _ => false) i F) ids done s'
                 /\ tstates s' !! i = Some InLoop)
              (steady true (HJoin i :: p) (alter (fun _ => false) i F) ids
                      (i :: done))) with (P := Main :: P) (sched := post1) (s := s1)
    as (post2 & s2 & Hsub2 & Hst2 & Hrun2).
  { intros b s' Hb [H1 H2]. destruct b as [|k].
    - cbn [conc_step]. destruct H1 as (Hl & Hp & HF & Hids & Hdone).
      rewrite Hp. cbn [call_effect]. rewrite H2.
      cbn [default from_option Datatypes.id]. split; [|exact H2].
      steady_parts.
    - split; [now apply thread_keeps_steady|].
      destruct (conc_step (Thread k) s') as [s''|] eqn:Hstep;
        cbn [default from_option Datatypes.id]; [|exact H2].
      destruct (thread_step_frame k s' s'' Hstep) as (_ & _ & _ & Eo).
      rewrite Eo; [exact H2|]. intros ->. now apply Hb. }
  { intros s' [(Hl & Hp & HF & Hids & Hdone) H2].
    cbn [conc_step]. unfold thread_effect. rewrite H2, HF, Hfi1.
    cbn [default from_option Datatypes.id]. steady_parts.
    - intros j Hj. destruct (Hids j Hj) as [Htj Hfj]. split; [|exact Hfj].
      rewrite lookup_insert_ne; [exact Htj|].
      intros ->. contradiction.
    - intros j Hj. apply elem_of_cons in Hj as [->|Hj].
      + apply lookup_insert_eq.
      + destruct (decide (i = j)) as [->|Hne]; [apply lookup_insert_eq|].
        rewrite lookup_insert_ne by assumption. now apply Hdone. }
  { split; assumption. }
  { exact Hsub1. }
  (* the join returns *)
  destruct (run_until Main
              (steady true (HJoin i :: p) (alter (fun _ => false) i F) ids
                      (i :: done))
              (steady true p (alter (fun _ => false) i F) ids (i :: done))
              ltac:(intros b s' Hb H1; now apply others_keep_steady)
              ltac:(intros s' H1; apply (main_join i); [left|exact H1])
              _ post2 s2 Hst2 Hsub2)
    as (post3 & s3 & Hsub3 & Hst3 & Hrun3).
  exists post3, s3. split; [exact Hsub3|]. split; [exact Hst3|].
  congruence.
Qed.

Lemma joins_cons (i : Z) (ids : list Z) :
  joins (i :: ids) = HSetRunning i false :: HJoin i :: joins ids.
Proof. reflexivity. Qed.

Lemma join_all (ids : list Z) :
  forall (done : list Z) (p : list hevent) (F : gmap Z bool)
         (P sched : list actor) (s : conc),
    NoDup ids ->
    steady true (joins ids ++ p) F ids done s ->
    sublist (flat_map (fun i => [Main; Thread i; Main]) ids ++ P) sched ->
    exists post s' F' done',
      sublist P post /\
      steady true p F' [] done' s' /\
      (forall j, j ∉ ids -> F' !! j = F !! j) /\
      (forall j, j ∈ ids \/ j ∈ done -> j ∈ done') /\
      conc_run sched s = conc_run post s'.
Proof.
  induction ids as [|i ids IH]; intros done p F P sched s Hnd Hst Hsub.
  - exists sched, s, F, done. split; [exact Hsub|]. split; [exact Hst|].
    split; [reflexivity|]. split; [|reflexivity].
    intros j [Hj|Hj]; [now apply elem_of_nil in Hj|exact Hj].
  - apply NoDup_cons in Hnd as [Hni Hnd].
    rewrite joins_cons in Hst. cbn [flat_map] in Hsub.
    rewrite <- app_assoc in Hsub.
    destruct (join_segment i ids done (joins ids ++ p) F _ sched s Hni Hst Hsub)
      as (post1 & s1 & Hsub1 & Hst1 & Hrun1).
    destruct (IH (i :: done) p _ P post1 s1 Hnd Hst1 Hsub1)
      as (post & s' & F' & done' & Hsub' & Hst' & HF' & Hd' & Hrun').
    exists post, s', F', done'. split; [exact Hsub'|]. split; [exact Hst'|].
    split; [|split; [|congruence]].
    + intros j Hj. apply not_elem_of_cons in Hj as [Hji Hj].
      rewrite (HF' j Hj). now apply lookup_alter_ne.
    + intros j [Hj|Hj]; apply Hd'.
      * apply elem_of_cons in Hj as [->|Hj]; [right; left|now left].
      * right. now right.
Qed.

(** *** A join that cannot return *)

Lemma blocked_step (j : Z) (a : actor) (s : conc) :
  blocked_on j s -> blocked_on j (default s (conc_step a s)).
Proof.
  intros Hb. pose proof Hb as (Hl & Htj & Hfj & pre & post & Hp & Hq).
  destruct a as [|k].
  - cbn [conc_step]. rewrite Hp. destruct pre as [|e pre].
    + cbn [app call_effect]. rewrite Htj. exact Hb.
    + cbn [app]. apply Forall_cons in Hq as [He Hq].
      destruct e as [| | | |i b| | |i| | |]; cbn in He; try contradiction.
      * destruct b; [contradiction|].
        cbn [call_effect default from_option Datatypes.id].
        split; [exact Hl|]. split; [exact Htj|]. split.
        -- cbn [flags]. destruct (decide (i = j)) as [->|Hne].
           ++ rewrite lookup_alter_eq. destruct Hfj as [x ->]. now eexists.
           ++ now rewrite lookup_alter_ne.
        -- exists pre, post. split; [reflexivity|exact Hq].
      * cbn [call_effect].
        destruct (tstates s !! i) as [[| |]|];
          cbn [default from_option Datatypes.id]; try exact Hb.
        split; [exact Hl|]. split; [exact Htj|]. split; [exact Hfj|].
        exists pre, post. split; [reflexivity|exact Hq].
  - destruct (conc_step (Thread k) s) as [s'|] eqn:Hstep;
      cbn [default from_option Datatypes.id]; [|exact Hb].
    destruct (thread_step_frame k s s' Hstep) as (El & Ep & EF & Eo).
    assert (Hkj : k <> j).
    { intros ->. cbn [conc_step] in Hstep. unfold thread_effect in Hstep.
      rewrite Htj, Hl in Hstep. discriminate. }
    split; [congruence|]. split; [rewrite Eo; auto|].
    split; [now rewrite EF|]. exists pre, post. split; [congruence|exact Hq].
Qed.

Lemma blocked_run (j : Z) (sched : list actor) :
  forall s : conc, blocked_on j s -> blocked_on j (conc_run sched s).
Proof.
  induction sched as [|a sched IH]; intros s Hb; [exact Hb|].
  rewrite conc_run_cons. apply IH. now apply blocked_step.
Qed.

(** A call that is blocked has not returned, and no thread can move it. *)
Lemma blocked_not_over (j : Z) (s : conc) :
  blocked_on j s ->
  pending s <> [] /\ locked s = true /\ is_Some (flags s !! j) /\
  tstates s !! j = Some AtLookup.
Proof.
  intros (Hl & Htj & Hfj & pre & post & Hp & _).
  split; [|auto]. rewrite Hp. now destruct pre.
Qed.

Lemma conc_run_app (l1 l2 : list actor) (s : conc) :
  conc_run (l1 ++ l2) s = conc_run l2 (conc_run l1 s).
Proof. unfold conc_run. apply fold_left_app. Qed.

(** *** A call that locks, joins [ids], makes one more change and unlocks *)

Lemma joining_call_completes (ids : list Z) (e : hevent)
    (G : gmap Z bool -> gmap Z bool) (F : gmap Z bool) (sched : list actor)
    (s : conc) :
  (forall p F1 done s1,
     steady true (e :: p) F1 [] done s1 ->
     steady true p (G F1) [] done (default s1 (conc_step Main s1))) ->
  NoDup ids ->
  steady false (HLock :: joins ids ++ [e; HUnlock]) F ids [] s ->
  sublist (turns ids) sched ->
  exists F' done',
    steady false [] (G F') [] done' (conc_run sched s) /\
    (forall j, j ∉ ids -> F' !! j = F !! j) /\
    (forall j, j ∈ ids -> j ∈ done').
Proof.
  intros He Hnd Hst Hsub. unfold turns in Hsub.
  destruct (run_until Main
              (steady false (HLock :: joins ids ++ [e; HUnlock]) F ids [])
              (steady true (joins ids ++ [e; HUnlock]) F ids [])
              ltac:(intros b s1 Hb H1; now apply others_keep_steady)
              ltac:(intros s1 H1; now apply main_lock)
              _ sched s Hst Hsub)
    as (post1 & s1 & Hsub1 & Hst1 & Hrun1).
  destruct (join_all ids [] [e; HUnlock] F [Main; Main] post1 s1 Hnd Hst1 Hsub1)
    as (post2 & s2 & F' & done' & Hsub2 & Hst2 & HF' & Hd' & Hrun2).
  destruct (run_until Main
              (steady true [e; HUnlock] F' [] done')
              (steady true [HUnlock] (G F') [] done')
              ltac:(intros b s' Hb H1; now apply others_keep_steady)
              ltac:(intros s' H1; now apply He)
              _ post2 s2 Hst2 Hsub2)
    as (post3 & s3 & Hsub3 & Hst3 & Hrun3).
  destruct (run_until Main
              (steady true [HUnlock] (G F') [] done')
              (steady false [] (G F') [] done')
              ltac:(intros b s' Hb H1; now apply others_keep_steady)
              ltac:(intros s' H1; now apply main_unlock)
              _ post3 s3 Hst3 Hsub3)
    as (post4 & s4 & Hsub4 & Hst4 & Hrun4).
  exists F', done'. split; [|split; [exact HF'|]].
  - rewrite Hrun1, Hrun2, Hrun3, Hrun4. now apply steady_over.
  - intros j Hj. apply Hd'. now left.
Qed.

(** The join of [i] in a list of joins, with what comes before it. *)
Lemma joins_split (i : Z) (ids : list Z) (tl : list hevent) :
  i ∈ ids ->
  exists pre post,
    joins ids ++ tl = pre ++ HJoin i :: post /\ Forall quiet_event pre.
Proof.
  induction ids as [|k ids IH]; intros Hi; [now apply elem_of_nil in Hi|].
  rewrite joins_cons. destruct (decide (i = k)) as [->|Hne].
  - exists [HSetRunning k false], (joins ids ++ tl). split; [reflexivity|].
    repeat constructor.
  - apply elem_of_cons in Hi as [->|Hi]; [contradiction|].
    destruct (IH Hi) as (pre & post & Hp & Hq).
    exists (HSetRunning k false :: HJoin k :: pre), post. split.
    + cbn [app]. now rewrite Hp.
    + repeat constructor. exact Hq.
Qed.

(** A call that locks and has a join of [j] ahead never returns when the
    thread of [j] has not yet made its look-up: the thread needs the mutex
    which the call holds while it waits for the thread. *)
Lemma joining_call_blocks (ids : list Z) (tl : list hevent) (j : Z)
    (F : gmap Z bool) (t : gmap Z tstate) (sched : list actor) :
  j ∈ ids -> is_Some (F !! j) -> t !! j = Some AtLookup ->
  blocked_on j
    (conc_run (Main :: sched) (mkConc false (HLock :: joins ids ++ tl) F t)).
Proof.
  intros Hj HF Ht. rewrite conc_run_cons. apply blocked_run.
  cbn [conc_step pending call_effect locked default from_option Datatypes.id].
  split; [reflexivity|]. split; [exact Ht|]. split; [exact HF|].
  cbn [pending]. now apply joins_split.
Qed.

(** The table of a hub reached by a run, as the threads see it. *)
Lemma flags_of_run (ops : list hub_op) (i : Z) :
  is_Some (subscribers_ (run_ops ops) !! i) ->
  (running <$> subscribers_ (run_ops ops)) !! i = Some true.
Proof.
  intros [sub Hsub]. rewrite lookup_fmap, Hsub. cbn.
  now destruct (table_launched_run ops i sub Hsub) as (_ & _ & -> & _).
Qed.

(** C9.  [subscribe] immediately followed by [unsubscribe] of the returned
    identifier, on the fresh hub.  When [subscribe] has returned (seven
    events) the new thread has not made its look-up, for which it needs the
    mutex.  If [unsubscribe] takes the mutex first (eighth event), it clears
    [running] and waits in [join] for a thread that waits for the mutex: no
    thread can move, under no continuation does the call return, and the
    record stays in the table, while the count before the pair was 0.  The
    pair leaves the count at 0 when the thread makes its look-up before
    [unsubscribe] takes the mutex. *)
Theorem subscribe_then_unsubscribe_blocks :
  let h1 := Eff.state (subscribe KLINE quiet_callback hub_init) in
  let id := Eff.result (subscribe KLINE quiet_callback hub_init) in
  let prog :=
    Eff.events (subscribe KLINE quiet_callback hub_init)
    ++ Eff.events (unsubscribe id h1) in
  let start := conc_of prog hub_init ∅ in
  id = 0 /\
  subscriber_count hub_init = 0%nat /\
  subscriber_count h1 = 1%nat /\
  pending (conc_run (replicate 7 Main) start) = Eff.events (unsubscribe id h1) /\
  tstates (conc_run (replicate 7 Main) start) !! id = Some AtLookup /\
  pending (conc_run (replicate 9 Main) start) = [HJoin id; HErase id; HUnlock] /\
  (forall a : actor, conc_step a (conc_run (replicate 9 Main) start) = None) /\
  (forall sched : list actor,
     let s := conc_run (replicate 8 Main ++ sched) start in
     pending s <> [] /\ locked s = true /\
     is_Some (flags s !! id) /\ size (flags s) <> 0%nat /\
     tstates s !! id = Some AtLookup) /\
  (let s :=
     conc_run (replicate 7 Main
               ++ [Thread id; Main; Main; Thread id; Main; Main; Main]) start in
   pending s = [] /\ locked s = false /\ size (flags s) = 0%nat /\
   tstates s !! id = Some Done).
Proof.
  cbv zeta.
  set (start := conc_of _ hub_init ∅).
  assert (H8 : conc_run (replicate 8 Main) start
               = mkConc true [HSetRunning 0 false; HJoin 0; HErase 0; HUnlock]
                   {[0 := true]} {[0 := AtLookup]})
    by (vm_compute; reflexivity).
  assert (H9 : conc_run (replicate 9 Main) start
               = mkConc true [HJoin 0; HErase 0; HUnlock]
                   {[0 := false]} {[0 := AtLookup]})
    by (vm_compute; reflexivity).
  split; [reflexivity|]. split; [reflexivity|]. split; [vm_compute; reflexivity|].
  split; [vm_compute; reflexivity|]. split; [vm_compute; reflexivity|].
  split; [rewrite H9; reflexivity|]. split; [|split].
  - intros a. rewrite H9. destruct a as [|k]; [reflexivity|].
    cbn [conc_step]. unfold thread_effect. cbn [tstates locked].
    destruct (decide (k = 0)) as [->|Hne].
    + now rewrite lookup_singleton_eq.
    + now rewrite lookup_singleton_ne.
  - intros sched. change (Eff.result (subscribe KLINE quiet_callback hub_init)) with 0.
    rewrite conc_run_app, H8.
    assert (Hb : blocked_on 0
                   (mkConc true [HSetRunning 0 false; HJoin 0; HErase 0; HUnlock]
                      {[0 := true]} {[0 := AtLookup]})).
    { split; [reflexivity|]. split; [apply lookup_singleton_eq|].
      split; [cbn [flags]; rewrite lookup_singleton_eq; eauto|].
      exists [HSetRunning 0 false], [HErase 0; HUnlock].
      split; [reflexivity|]. repeat constructor. }
    destruct (blocked_not_over 0 _ (blocked_run 0 sched _ Hb))
      as (Hp & Hl & Hf & Ht).
    split; [exact Hp|]. split; [exact Hl|]. split; [exact Hf|].
    split; [|exact Ht]. now apply map_size_ne_0_lookup_2 with 0.
  - vm_compute. repeat split; reflexivity.
Qed.

(** X8.  [unsubscribe] of a subscribed identifier [i], on any hub reached by
    a run.  In program order it takes the mutex, clears [running], joins the
    consumer thread, erases the record and releases the mutex.  If the thread
    of [i] is in its loop, then under every schedule that gives the calling
    thread two turns, the thread one and the calling thread three more, the
    call returns: the thread has returned, exactly that record is gone (the
    count drops by one, every other subscriber is untouched), and neither the
    ring nor the identifier counter has changed.  If the thread of [i] has
    not yet made its look-up when the call takes the mutex, the call never
    returns and the record stays. *)
Theorem unsubscribe_joins_then_erases (ops : list hub_op) (i : Z)
    (ths : gmap Z tstate) (sched : list actor) :
  let h := run_ops ops in
  let h' := Eff.state (unsubscribe i h) in
  let start := conc_of (Eff.events (unsubscribe i h)) h ths in
  is_Some (subscribers_ h !! i) ->
  Eff.events (unsubscribe i h)
    = [HLock; HSetRunning i false; HJoin i; HErase i; HUnlock] /\
  (ths !! i = Some InLoop ->
   sublist [Main; Main; Thread i; Main; Main; Main] sched ->
   let s := conc_run sched start in
   pending s = [] /\ locked s = false /\
   tstates s !! i = Some Done /\
   flags s = running <$> subscribers_ h' /\
   S (subscriber_count h') = subscriber_count h /\
   subscribers_ h' !! i = None /\
   (forall j, j <> i -> subscribers_ h' !! j = subscribers_ h !! j) /\
   queue_ h' = queue_ h /\
   next_subscriber_id_ h' = next_subscriber_id_ h) /\
  (ths !! i = Some AtLookup ->
   let s := conc_run (Main :: sched) start in
   pending s <> [] /\ locked s = true /\
   is_Some (flags s !! i) /\ tstates s !! i = Some AtLookup).
Proof.
  cbv zeta. intros Hsome. pose proof Hsome as [sub Hsub].
  destruct (table_launched_run ops i sub Hsub) as (_ & Hthr & _).
  destruct (unsubscribe_present i _ sub Hsub) as [Hst Hev].
  rewrite Hthr in Hev. cbn [app] in Hev. rewrite Hev, Hst.
  cbn [subscribers_ queue_ next_subscriber_id_].
  pose proof (flags_of_run ops i Hsome) as Hflag.
  split; [reflexivity|]. split.
  - intros Hti Hsub'.
    destruct (joining_call_completes [i] (HErase i) (delete i)
                (running <$> subscribers_ (run_ops ops)) sched
                (conc_of [HLock; HSetRunning i false; HJoin i; HErase i; HUnlock]
                   (run_ops ops) ths))
      as (F' & done' & (Hl & Hp & HF & _ & Hdone) & HF' & Hd').
    + intros p F1 done s1. apply main_erase.
    + apply NoDup_singleton.
    + unfold conc_of. steady_parts.
      * intros j Hj. apply list_elem_of_singleton in Hj as ->. now split.
      * intros j Hj. now apply elem_of_nil in Hj.
    + exact Hsub'.
    + split; [exact Hp|]. split; [exact Hl|].
      split; [apply Hdone, Hd'; now left|]. split.
      { rewrite HF, fmap_delete. apply map_eq. intros j.
        destruct (decide (j = i)) as [->|Hne].
        - now rewrite !lookup_delete_eq.
        - rewrite !lookup_delete_ne by auto. apply HF'.
          now rewrite list_elem_of_singleton. }
      split.
      { unfold subscriber_count. cbn [subscribers_].
        rewrite map_size_delete, Hsub.
        pose proof (map_size_ne_0_lookup_2 (subscribers_ (run_ops ops)) i
                      ltac:(rewrite Hsub; eauto)).
        destruct (size (subscribers_ (run_ops ops)));
          [contradiction|reflexivity]. }
      split; [apply lookup_delete_eq|].
      split; [intros j Hj; now apply lookup_delete_ne|]. split; reflexivity.
  - intros Hti.
    apply blocked_not_over.
    apply (joining_call_blocks [i] [HErase i; HUnlock] i _ ths sched);
      [now left | rewrite Hflag; eauto | exact Hti].
Qed.

Lemma unsubscribe_joins_then_erases_witness :
  Eff.events
    (unsubscribe 1 (run_ops [OpSubscribe TRADE quiet_callback;
                             OpSubscribe KLINE quiet_callback]))
  = [HLock; HSetRunning 1 false; HJoin 1; HErase 1; HUnlock] /\
  pending
    (conc_run [Thread 0; Main; Main; Thread 1; Thread 0; Main; Main; Main]
       (conc_of
          (Eff.events
             (unsubscribe 1 (run_ops [OpSubscribe TRADE quiet_callback;
                                      OpSubscribe KLINE quiet_callback])))
          (run_ops [OpSubscribe TRADE quiet_callback;
                    OpSubscribe KLINE quiet_callback])
          {[0 := InLoop; 1 := InLoop]})) = [] /\
  pending
    (conc_run [Main; Thread 0; Main; Thread 1; Main; Main]
       (conc_of
          (Eff.events
             (unsubscribe 1 (run_ops [OpSubscribe TRADE quiet_callback;
                                      OpSubscribe KLINE quiet_callback])))
          (run_ops [OpSubscribe TRADE quiet_callback;
                    OpSubscribe KLINE quiet_callback])
          {[0 := InLoop; 1 := AtLookup]})) <> [].
Proof.
  assert (Hsome : is_Some
            (subscribers_ (run_ops [OpSubscribe TRADE quiet_callback;
                                    OpSubscribe KLINE quiet_callback]) !! 1))
    by (vm_compute; eauto).
  destruct (unsubscribe_joins_then_erases
              [OpSubscribe TRADE quiet_callback; OpSubscribe KLINE quiet_callback]
              1 {[0 := InLoop; 1 := InLoop]}
              [Thread 0; Main; Main; Thread 1; Thread 0; Main; Main; Main] Hsome)
    as (Hev & Hdone & _).
  destruct (unsubscribe_joins_then_erases
              [OpSubscribe TRADE quiet_callback; OpSubscribe KLINE quiet_callback]
              1 {[0 := InLoop; 1 := AtLookup]}
              [Thread 0; Main; Thread 1; Main; Main] Hsome)
    as (_ & _ & Hblocked).
  split; [exact Hev|]. split.
  - apply Hdone; [vm_compute; reflexivity|].
    repeat first [apply sublist_nil | apply sublist_skip | apply sublist_cons].
  - apply Hblocked. vm_compute; reflexivity.
Defined.

(** The joins of a walk over launched subscribers. *)
Lemma stop_walk_events (order : list (Z * Subscriber)) (h : MarketDataHub) :
  Forall (fun e => thread (snd e) = Some (fst e)) order ->
  Eff.events (stop_all_walk order h)
  = HLock :: joins (map fst order) ++ [HClear; HUnlock].
Proof.
  intros Hl. unfold stop_all_walk, Eff.events, joins. cbn [snd app].
  now rewrite (stop_events_launched order Hl).
Qed.

(** X9.  [stop_all] on any hub reached by a run, walking the table in any
    order.  In program order it takes the mutex, then for every subscriber of
    the table, once each, clears [running] and joins the thread, then clears
    the table and releases the mutex.  If the threads of all subscribers are
    in their loops, then under every schedule that gives each thread its turn
    between the clearing of its flag and its join, the call returns: all
    these threads have returned and the table is empty, so the count is 0;
    the ring and the identifier counter are unchanged, and a second
    [stop_all] has nothing to join.  If the thread of some subscriber has not
    yet made its look-up when the call takes the mutex, the call never
    returns. *)
Theorem stop_all_joins_every_subscriber (ops : list hub_op)
    (order : list (Z * Subscriber)) (ths : gmap Z tstate)
    (sched : list actor) :
  let h := run_ops ops in
  let ids := map fst order in
  let h' := Eff.state (stop_all_walk order h) in
  let start := conc_of (Eff.events (stop_all_walk order h)) h ths in
  order ≡ₚ map_to_list (subscribers_ h) ->
  Eff.events (stop_all_walk order h)
    = [HLock] ++ flat_map (fun i => [HSetRunning i false; HJoin i]) ids
      ++ [HClear; HUnlock] /\
  NoDup ids /\
  (forall i, i ∈ ids <-> is_Some (subscribers_ h !! i)) /\
  ((forall i, i ∈ ids -> ths !! i = Some InLoop) ->
   sublist (turns ids) sched ->
   let s := conc_run sched start in
   pending s = [] /\ locked s = false /\
   (forall i, i ∈ ids -> tstates s !! i = Some Done) /\
   flags s = running <$> subscribers_ h' /\
   flags s = ∅ /\
   subscriber_count h' = 0%nat /\
   queue_ h' = queue_ h /\
   next_subscriber_id_ h' = next_subscriber_id_ h /\
   Eff.events (stop_all h') = [HLock; HClear; HUnlock]) /\
  (forall i, i ∈ ids -> ths !! i = Some AtLookup ->
   let s := conc_run (Main :: sched) start in
   pending s <> [] /\ locked s = true /\
   is_Some (flags s !! i) /\ tstates s !! i = Some AtLookup).
Proof.
  cbv zeta. intros Hperm.
  pose proof (table_launched_run ops) as Hl.
  set (h := run_ops ops) in *.
  assert (Hin : forall i, i ∈ map fst order <-> is_Some (subscribers_ h !! i)).
  { intros i. rewrite Hperm, list_elem_of_fmap. split.
    - intros ([j sub] & -> & Hin). apply elem_of_map_to_list in Hin. eauto.
    - intros [sub Hsub]. exists (i, sub). split; [reflexivity|].
      now apply elem_of_map_to_list. }
  assert (Hnd : NoDup (map fst order)).
  { rewrite Hperm. apply NoDup_fst_map_to_list. }
  assert (Hev : Eff.events (stop_all_walk order h)
                = HLock :: joins (map fst order) ++ [HClear; HUnlock]).
  { apply stop_walk_events, Forall_forall. intros [i sub] Hio.
    rewrite Hperm in Hio. apply elem_of_map_to_list in Hio.
    now destruct (Hl i sub Hio) as (_ & ? & _). }
  split; [exact Hev|]. split; [exact Hnd|]. split; [exact Hin|].
  rewrite Hev. split.
  - intros Hloop Hsub.
    destruct (joining_call_completes (map fst order) HClear (fun _ => ∅)
                (running <$> subscribers_ h) sched
                (conc_of (HLock :: joins (map fst order) ++ [HClear; HUnlock])
                   h ths))
      as (F' & done' & (Hlk & Hp & HF & _ & Hdone) & HF' & Hd').
    + intros p F1 done s1. apply main_clear.
    + exact Hnd.
    + unfold conc_of. steady_parts.
      * intros j Hj. split; [now apply Hloop|].
        apply flags_of_run. now apply Hin.
      * intros j Hj. now apply elem_of_nil in Hj.
    + exact Hsub.
    + split; [exact Hp|]. split; [exact Hlk|].
      split; [intros i Hi; now apply Hdone, Hd'|]. split.
      { rewrite HF. cbn [stop_all_walk Eff.state fst snd set_subscribers_
                         subscribers_]. now rewrite fmap_empty. }
      split; [exact HF|].
      split; [apply map_size_empty|]. split; [reflexivity|].
      split; [reflexivity|].
      unfold stop_all, stop_all_walk, Eff.events, Eff.state.
      cbn [fst snd subscribers_ set_subscribers_].
      now rewrite map_to_list_empty.
  - intros i Hi Hti. apply blocked_not_over.
    apply (joining_call_blocks (map fst order) [HClear; HUnlock] i _ ths sched);
      [exact Hi | | exact Hti].
    exists true. apply (flags_of_run ops i). now apply Hin.
Qed.

Lemma stop_all_joins_every_subscriber_witness :
  pending
    (conc_run (Thread 1 :: turns [0; 1])
       (conc_of
          (Eff.events
             (stop_all_walk
                (reverse
                   (map_to_list
                      (subscribers_
                         (run_ops [OpSubscribe TRADE quiet_callback;
                                   OpSubscribe KLINE quiet_callback]))))
                (run_ops [OpSubscribe TRADE quiet_callback;
                          OpSubscribe KLINE quiet_callback])))
          (run_ops [OpSubscribe TRADE quiet_callback;
                    OpSubscribe KLINE quiet_callback])
          {[0 := InLoop; 1 := InLoop]})) = [].
Proof.
  destruct (stop_all_joins_every_subscriber
              [OpSubscribe TRADE quiet_callback; OpSubscribe KLINE quiet_callback]
              (reverse
                 (map_to_list
                    (subscribers_
                       (run_ops [OpSubscribe TRADE quiet_callback;
                                 OpSubscribe KLINE quiet_callback]))))
              {[0 := InLoop; 1 := InLoop]} (Thread 1 :: turns [0; 1]))
    as (_ & _ & _ & Hdone & _).
  - apply reverse_Permutation.
  - destruct Hdone as (Hp & _); [| |exact Hp].
    + intros i Hi. vm_compute in Hi.
      apply elem_of_cons in Hi as [->|Hi]; [vm_compute; reflexivity|].
      apply elem_of_cons in Hi as [->|Hi]; [vm_compute; reflexivity|].
      now apply elem_of_nil in Hi.
    + vm_compute.
      repeat first [apply sublist_nil | apply sublist_skip | apply sublist_cons].
Defined.

End ThreadsFacts.
